(** * The rain paradox: wetness as a function of walking speed

    A shallow embedding of [rain-paradox.py].  The script computes with
    Python floats, that is IEEE-754 binary64 numbers with round to
    nearest, ties to even.  They are modelled by [spec_float] and the
    operations of [SpecFloat] at precision 53 and maximal exponent 1024,
    so every rounding, overflow to infinity and NaN of the script is
    kept.  Python integers are [Z].  Exceptions are an explicit error
    result. *)

From Stdlib Require Import ZArith Bool List Lia.
From Stdlib Require Import QArith Qabs Qpower Lqa.
From Stdlib Require Import Floats.SpecFloat.
Import ListNotations.
Open Scope Z_scope.

#[local] Arguments Z.mul : simpl never.
#[local] Arguments Z.add : simpl never.
#[local] Arguments Z.sub : simpl never.
#[local] Arguments Z.div : simpl never.
#[local] Arguments Z.modulo : simpl never.
#[local] Arguments Z.pow : simpl never.
#[local] Arguments Z.pow_pos : simpl never.

(** ** Binary64 arithmetic *)

Module B64.

Definition prec : Z := 53.
Definition emax : Z := 1024.

Definition add : spec_float -> spec_float -> spec_float := SFadd prec emax.
Definition sub : spec_float -> spec_float -> spec_float := SFsub prec emax.
Definition mul : spec_float -> spec_float -> spec_float := SFmul prec emax.
Definition div : spec_float -> spec_float -> spec_float := SFdiv prec emax.

(** The binary64 number nearest to an integer (infinite when it is
    out of range). *)
Definition of_Z (n : Z) : spec_float := binary_normalize prec emax n 0 false.

Definition valid (x : spec_float) : bool := valid_binary prec emax x.

Definition is_nan (x : spec_float) : bool :=
  match x with S754_nan => true | _ => false end.

Definition is_zero (x : spec_float) : bool :=
  match x with S754_zero _ => true | _ => false end.

Definition is_finite (x : spec_float) : bool :=
  match x with S754_zero _ | S754_finite _ _ _ => true | _ => false end.

(** The comparisons [x == y], [x < y], [x <= y]; all false on NaN. *)
Definition eqb : spec_float -> spec_float -> bool := SFeqb.
Definition ltb : spec_float -> spec_float -> bool := SFltb.
Definition leb : spec_float -> spec_float -> bool := SFleb.

Definition zero : spec_float := S754_zero false.

(** A decimal literal [n/10^k] with [n] and [10^k] below [2^53]: the
    correctly rounded quotient of two exactly representable numbers is
    the binary64 number nearest to the decimal. *)
Definition decimal (n : Z) (pow10 : Z) : spec_float := div (of_Z n) (of_Z pow10).

End B64.

(** ** The Python operations the script uses *)

Module Py.

Inductive exn : Set := ZeroDivisionError | OverflowError | ValueError.

Inductive result (A : Type) : Type :=
| Ok (a : A)
| Raise (e : exn).
Arguments Ok {A} a.
Arguments Raise {A} e.

Definition bind {A B : Type} (c : result A) (k : A -> result B) : result B :=
  match c with
  | Ok a => k a
  | Raise e => Raise e
  end.

(** [float(n)] for an int, as done implicitly when an int meets a
    float in [*] or [/]: rounds to nearest even, and raises
    [OverflowError] when the int is too large for a float. *)
Definition float_of_int (n : Z) : result spec_float :=
  match B64.of_Z n with
  | S754_infinity _ => Raise OverflowError
  | x => Ok x
  end.

(** [x / y] on floats. *)
Definition truediv (x y : spec_float) : result spec_float :=
  if B64.is_zero y then Raise ZeroDivisionError else Ok (B64.div x y).

(** [n * x] with [n] an int and [x] a float. *)
Definition int_mul (n : Z) (x : spec_float) : result spec_float :=
  bind (float_of_int n) (fun nf => Ok (B64.mul nf x)).

(** [int(x)]: truncation toward zero. *)
Definition int_of_float (x : spec_float) : result Z :=
  match x with
  | S754_zero _ => Ok 0
  | S754_finite s m e =>
      let a := match e with
               | Zneg k => Z.pos m / 2 ^ Z.pos k
               | _ => Z.pos m * 2 ^ e
               end in
      Ok (if s then - a else a)
  | S754_infinity _ => Raise OverflowError
  | S754_nan => Raise ValueError
  end.

End Py.

Import Py.

Notation "x <- c ;; k" := (Py.bind c (fun x => k))
  (at level 61, c at next level, right associativity).

(** ** The wetness calculator *)

(** The three body dimensions, in feet.  [70 / 12] and the like divide
    two small ints: the result is the correctly rounded quotient. *)
Definition height : spec_float := B64.div (B64.of_Z 70) (B64.of_Z 12).
Definition width : spec_float := B64.div (B64.of_Z 20) (B64.of_Z 12).
Definition depth : spec_float := B64.div (B64.of_Z 12) (B64.of_Z 12).

Definition top_area : spec_float := B64.mul width depth.
Definition front_area : spec_float := B64.mul height width.

(** [simulate_wetness(speed_ft_s: float, distance_ft: float,
    rain_density: int) -> float], statement by statement. *)
Definition simulate_wetness (speed_ft_s distance_ft : spec_float)
    (rain_density : Z) : result spec_float :=
  time_in_rain <- truediv distance_ft speed_ft_s ;;
  above0 <- int_mul rain_density top_area ;;
  let rain_from_above := B64.mul above0 time_in_rain in
  front0 <- int_mul rain_density front_area ;;
  let rain_from_front := B64.mul front0 distance_ft in
  Ok (B64.add rain_from_above rain_from_front).

(** The defaults [distance_ft = 500] and [rain_density = 1000].  The
    int [500] is converted to the float [500.0] where it is used, without
    rounding. *)
Definition default_distance : spec_float := B64.of_Z 500.
Definition default_density : Z := 1000.

(** ** The driver *)

(** [speeds = [3.3, 5.5, 8.8, 13.2, 30.0]] *)
Definition speeds : list spec_float :=
  [B64.decimal 33 10; B64.decimal 55 10; B64.decimal 88 10;
   B64.decimal 132 10; B64.decimal 300 10].

Fixpoint mapM {A B : Type} (f : A -> result B) (l : list A) : result (list B) :=
  match l with
  | [] => Ok []
  | a :: l' => b <- f a ;; bs <- mapM f l' ;; Ok (b :: bs)
  end.

(** [wetness_values = [simulate_wetness(speed) for speed in speeds]] *)
Definition wetness_values : result (list spec_float) :=
  mapM (fun speed => simulate_wetness speed default_distance default_density) speeds.

(** The integers [int(wetness)] printed by the loop, in order. *)
Definition printed_wetness : result (list Z) :=
  ws <- wetness_values ;; mapM int_of_float ws.

Fixpoint strictly_decreasing (l : list Z) : bool :=
  match l with
  | a :: (b :: _) as l' => (b <? a) && strictly_decreasing l'
  | _ => true
  end.

(** ** The closed form of the specification *)

(** [r * (20/12 * 12/12) * (d / s) + r * (70/12 * 20/12) * d], read as
    the Python expression it is: operands left to right, [*] and [/]
    before [+]. *)
Definition closed_form (s d : spec_float) (r : Z) : result spec_float :=
  a0 <- int_mul r (B64.mul (B64.div (B64.of_Z 20) (B64.of_Z 12))
                           (B64.div (B64.of_Z 12) (B64.of_Z 12))) ;;
  t <- truediv d s ;;
  let a := B64.mul a0 t in
  f0 <- int_mul r (B64.mul (B64.div (B64.of_Z 70) (B64.of_Z 12))
                           (B64.div (B64.of_Z 20) (B64.of_Z 12))) ;;
  let f := B64.mul f0 d in
  Ok (B64.add a f).

(** ** The expressions the specification compares the calculator with *)

(** The value returned when neither exception is raised, as a function
    of the speed, the distance and the density already converted to a
    float. *)
Definition wetness_value (s d rf : spec_float) : spec_float :=
  B64.add (B64.mul (B64.mul rf top_area) (B64.div d s))
          (B64.mul (B64.mul rf front_area) d).

(** [r * (20/12 * 12/12) * (d / s)]: the term that depends on speed. *)
Definition above_term (s d : spec_float) (r : Z) : result spec_float :=
  a0 <- int_mul r (B64.mul (B64.div (B64.of_Z 20) (B64.of_Z 12))
                           (B64.div (B64.of_Z 12) (B64.of_Z 12))) ;;
  t <- truediv d s ;;
  Ok (B64.mul a0 t).

(** [r * (70/12 * 20/12) * d]: the front-impact term. *)
Definition front_term (d : spec_float) (r : Z) : result spec_float :=
  f0 <- int_mul r (B64.mul (B64.div (B64.of_Z 70) (B64.of_Z 12))
                           (B64.div (B64.of_Z 20) (B64.of_Z 12))) ;;
  Ok (B64.mul f0 d).

(** [density * simulate_wetness(speed, distance, 1)] *)
Definition scaled_unit_wetness (s d : spec_float) (r : Z) : result spec_float :=
  w1 <- simulate_wetness s d 1 ;; int_mul r w1.

(** [simulate_wetness(s, d, r) - r * (20/12 * 12/12) * (d / s)] *)
Definition front_residue (s d : spec_float) (r : Z) : result spec_float :=
  w <- simulate_wetness s d r ;;
  a <- above_term s d r ;;
  Ok (B64.sub w a).

(** The least magnitude of an int that [float(n)] rejects: halfway
    between the largest float and [2^1024]. *)
Definition float_overflow_threshold : Z := 2 ^ 1024 - 2 ^ 970.

(** ** Rounding, read on integers

    The operations of [SpecFloat] round through [binary_round_aux],
    which shifts a mantissa to the right and keeps a round bit and a
    sticky bit.  The definitions below describe its result directly:
    a non-negative real [a/b * 2^e] is rounded to the float whose
    position among the non-negative floats (its ordinal) is
    [round_ord a b e]. *)

(** Twice the floor of [A/B], plus one when the quotient is not an
    integer: the quotient with a sticky bit. *)
Definition jam (A B : Z) : Z := 2 * (A / B) + (if A mod B =? 0 then 0 else 1).

(** Round to nearest, ties to even, a number given as [4m + l] with [l]
    in [0..3] locating it between [m] and [m + 1]. *)
Definition rne (J : Z) : Z :=
  J / 4 + (match J mod 4 with
           | 0 | 1 => 0
           | 2 => if Z.even (J / 4) then 0 else 1
           | _ => 1
           end).

(** The shift record and the location coded by [J = 4m + 2r + s]. *)
Definition record_of (J : Z) : shr_record :=
  {| shr_m := J / 4; shr_r := 2 <=? J mod 4; shr_s := Z.odd J |}.

Definition location_of (J : Z) : location :=
  match J mod 4 with
  | 0 => loc_Exact
  | 1 => loc_Inexact Lt
  | 2 => loc_Inexact Eq
  | _ => loc_Inexact Gt
  end.

Definition emin : Z := -1074.

(** The exponent binary64 gives to a number with integer part [m] at
    exponent [e]. *)
Definition exp_of (m e : Z) : Z := fexp 53 1024 (Zdigits2 m + e).

(** The non-negative floats in increasing order: ordinal [0] is zero,
    [1] the least subnormal, [2047 * 2^52] and above infinity. *)
Definition ord_inf : Z := 2047 * 2 ^ 52.

Definition float_of_ord (sx : bool) (o : Z) : spec_float :=
  if o =? 0 then S754_zero sx
  else
    let e := if o <? 2 ^ 52 then emin else emin + o / 2 ^ 52 - 1 in
    let m := if o <? 2 ^ 52 then o else o mod 2 ^ 52 + 2 ^ 52 in
    if e <=? 971 then S754_finite sx (Z.to_pos m) e else S754_infinity sx.

Definition ordinal (f : spec_float) : Z :=
  match f with
  | S754_zero _ => 0
  | S754_finite _ m e => (e - emin) * 2 ^ 52 + Z.pos m
  | S754_infinity _ => ord_inf
  | S754_nan => 0
  end.

(** Zero of either sign, a positive binary64 number, or plus
    infinity. *)
Definition nonneg (f : spec_float) : bool :=
  match f with
  | S754_zero _ => true
  | S754_finite false m e => bounded 53 1024 m e
  | S754_infinity false => true
  | _ => false
  end.

(** The ordinal of [a/b * 2^e] rounded to nearest even. *)
Definition round_ord (a b e : Z) : Z :=
  let E := exp_of (a / b) e in
  (E - emin) * 2 ^ 52 + rne (jam (2 * a) (b * 2 ^ (E - e))).

(** The same for the dyadic number [a * 2^e]. *)
Definition round_dy (a e : Z) : Z :=
  let ez := Z.min e (exp_of a e) in round_ord (a * 2 ^ (e - ez)) 1 ez.

(** The exponent at which [SFdiv] computes its quotient, and the
    ordinal of the rounded quotient of [mx * 2^ex] by [my * 2^ey]. *)
Definition div_exp (mx ex my ey : Z) : Z :=
  Z.min (fexp 53 1024 (Zdigits2 mx + ex - (Zdigits2 my + ey))) (ex - ey).

Definition round_div (mx ex my ey : Z) : Z :=
  let e' := div_exp mx ex my ey in
  round_ord (mx * 2 ^ (ex - ey - e')) my e'.

(** ** Values of floats

    The rational number a finite float stands for; the other floats are
    given the value 0. *)
Definition pow2Q (e : Z) : Q := (2 ^ e)%Q.

Definition F2Q (x : spec_float) : Q :=
  match x with
  | S754_finite s m e =>
      ((if s then (-1) else 1) * inject_Z (Z.pos m) * pow2Q e)%Q
  | _ => 0%Q
  end.

(** Half a unit in the last place, relative to the value: [2^-53]. *)
Definition u53 : Q := (1 # 9007199254740992)%Q.

(** ** Ranges

    A positive finite float, and a float between two others. *)
Definition posfin (x : spec_float) : Prop :=
  nonneg x = true /\ 0 < ordinal x < ord_inf.

Definition within (l u x : spec_float) : Prop :=
  nonneg x = true /\ ordinal l <= ordinal x <= ordinal u.

(** The range of speeds and distances for the rounding bounds:
    [2^-256] to [2^256]; densities range from 1 to [2^256]. *)
Definition range_lo : spec_float := S754_finite false (2 ^ 52) (-308).
Definition range_hi : spec_float := S754_finite false (2 ^ 52) 204.
Definition density_hi : Z := 2 ^ 256.

(** [x] is within [2^-53] of [y], relatively. *)
Definition rel (x y : Q) : Prop := (Qabs (x - y) <= u53 * y)%Q.

(** ** The distance as the script passes it

    [distance_ft] is annotated as a float and its default is the int
    [500]: a caller passes an int or a float.  An int distance meets a
    float in [distance_ft / speed_ft_s] and in [... * distance_ft], and
    is converted to a float there, which raises [OverflowError] when it
    is too large. *)
Inductive number : Set :=
| PyInt (n : Z)
| PyFloat (x : spec_float).

Definition to_float (v : number) : result spec_float :=
  match v with
  | PyInt n => float_of_int n
  | PyFloat x => Ok x
  end.

(** [v / y] with [y] a float: [v] is converted first, so that an int
    too large raises [OverflowError] even when [y] is zero. *)
Definition num_truediv (v : number) (y : spec_float) : result spec_float :=
  x <- to_float v ;; truediv x y.

(** [x * v] with [x] a float. *)
Definition float_mul_num (x : spec_float) (v : number) : result spec_float :=
  y <- to_float v ;; Ok (B64.mul x y).

(** [simulate_wetness] at a distance that is an int or a float,
    statement by statement. *)
Definition simulate_wetness_num (speed_ft_s : spec_float) (distance_ft : number)
    (rain_density : Z) : result spec_float :=
  time_in_rain <- num_truediv distance_ft speed_ft_s ;;
  above0 <- int_mul rain_density top_area ;;
  let rain_from_above := B64.mul above0 time_in_rain in
  front0 <- int_mul rain_density front_area ;;
  rain_from_front <- float_mul_num front0 distance_ft ;;
  Ok (B64.add rain_from_above rain_from_front).

(** An int distance too large for a float, and the float a distance
    stands for otherwise. *)
Definition distance_overflows (v : number) : bool :=
  match v with
  | PyInt n => float_overflow_threshold <=? Z.abs n
  | PyFloat _ => false
  end.

Definition distance_value (v : number) : spec_float :=
  match v with
  | PyInt n => B64.of_Z n
  | PyFloat x => x
  end.

(** The least density whose product with [front_area] is infinite,
    about [1.849e307]: halfway between two neighbouring floats, the
    upper one being the least float whose product with [front_area]
    rounds to infinity. *)
Definition front_overflow_density : Z := 14823276487802319 * 2 ^ 967.

(** ** The calculator over the rationals

    The body of [simulate_wetness] with exact arithmetic in place of
    floating point. *)
Definition exact_wetness (speed_ft_s distance_ft rain_density : Q) : Q :=
  let height := (70 / 12)%Q in
  let width := (20 / 12)%Q in
  let depth := (12 / 12)%Q in
  let time_in_rain := (distance_ft / speed_ft_s)%Q in
  let top_area := (width * depth)%Q in
  let front_area := (height * width)%Q in
  let rain_from_above := (rain_density * top_area * time_in_rain)%Q in
  let rain_from_front := (rain_density * front_area * distance_ft)%Q in
  (rain_from_above + rain_from_front)%Q.

(** [x] lies between [l * X] and [h * X]. *)
Definition between (l h x X : Q) : Prop := (l * X <= x /\ x <= h * X)%Q.

(** The comprehension and the print loop of the driver, for any list of
    speeds in place of [speeds]. *)
Definition wetness_values_for (speeds : list spec_float) : result (list spec_float) :=
  mapM (fun speed => simulate_wetness speed default_distance default_density) speeds.

Definition printed_wetness_for (speeds : list spec_float) : result (list Z) :=
  ws <- wetness_values_for speeds ;; mapM int_of_float ws.

Fixpoint increasing (l : list spec_float) : bool :=
  match l with
  | a :: (b :: _) as l' => B64.ltb a b && increasing l'
  | _ => true
  end.

Fixpoint non_increasing (l : list Z) : bool :=
  match l with
  | a :: (b :: _) as l' => (b <=? a) && non_increasing l'
  | _ => true
  end.

(** * Proofs *)

(** ** Digits, sticky quotients and rounding to even *)

Lemma digits2_size p : digits2_pos p = Pos.size p.
Proof. induction p; simpl; congruence. Qed.

Lemma digits_log2 m : 0 < m -> Zdigits2 m = Z.log2 m + 1.
Proof.
  destruct m as [|p|p]; try lia. intros _.
  destruct p; simpl; rewrite ?digits2_size; lia.
Qed.

Lemma digits_nonneg m : 0 <= Zdigits2 m.
Proof. destruct m; simpl; lia. Qed.

Lemma digits_pos m : 0 < m -> 0 < Zdigits2 m.
Proof. destruct m; simpl; lia. Qed.

Lemma digits_bounds m : 0 < m -> 2 ^ (Zdigits2 m - 1) <= m < 2 ^ Zdigits2 m.
Proof.
  intros H. rewrite (digits_log2 m H).
  replace (Z.log2 m + 1 - 1) with (Z.log2 m) by lia.
  apply (Z.log2_spec m H).
Qed.

Lemma digits_unique m d : 2 ^ (d - 1) <= m < 2 ^ d -> 0 < m -> Zdigits2 m = d.
Proof.
  intros H Hm. rewrite (digits_log2 m Hm).
  assert (0 < d).
  { destruct (Z_lt_le_dec 0 d); auto.
    assert (2 ^ d <= 2 ^ 0) by (apply Z.pow_le_mono_r; lia).
    simpl in *. lia. }
  assert (Z.log2 m = d - 1); [|lia].
  apply Z.log2_unique; [lia|]. replace (Z.succ (d - 1)) with d by lia. exact H.
Qed.

Lemma digits_mono m1 m2 : 0 <= m1 <= m2 -> Zdigits2 m1 <= Zdigits2 m2.
Proof.
  intros [H1 H2]. destruct (Z.eq_dec m1 0) as [->|Hn].
  - apply digits_nonneg.
  - rewrite !digits_log2 by lia.
    assert (Z.log2 m1 <= Z.log2 m2) by (apply Z.log2_le_mono; lia). lia.
Qed.

Lemma digits_le_iff m d : 0 <= m -> 0 <= d -> (Zdigits2 m <= d <-> m < 2 ^ d).
Proof.
  intros Hm Hd. destruct (Z.eq_dec m 0) as [->|Hn].
  - simpl. split; intros; [apply Z.pow_pos_nonneg|]; lia.
  - pose proof (digits_bounds m ltac:(lia)) as [Hl Hu].
    split; intros H.
    + eapply Z.lt_le_trans; [exact Hu|]. apply Z.pow_le_mono_r; lia.
    + destruct (Z_lt_le_dec d (Zdigits2 m)); [|lia].
      assert (2 ^ d <= 2 ^ (Zdigits2 m - 1)) by (apply Z.pow_le_mono_r; lia). lia.
Qed.

Lemma digits_ge_iff m d : 0 <= m -> 0 < d -> (d <= Zdigits2 m <-> 2 ^ (d - 1) <= m).
Proof.
  intros Hm Hd.
  pose proof (digits_le_iff m (d - 1) Hm ltac:(lia)). lia.
Qed.

Lemma digits_mul_pow2 m k : 0 < m -> 0 <= k -> Zdigits2 (m * 2 ^ k) = Zdigits2 m + k.
Proof.
  intros Hm Hk. pose proof (digits_bounds m Hm) as [Hl Hu].
  assert (0 < 2 ^ k) by (apply Z.pow_pos_nonneg; lia).
  pose proof (digits_pos m Hm).
  apply digits_unique; [|nia].
  replace (Zdigits2 m + k - 1) with (Zdigits2 m - 1 + k) by lia.
  rewrite !Z.pow_add_r by lia. nia.
Qed.

Lemma digits_div_pow2 m k : 0 <= m -> 0 <= k -> k <= Zdigits2 m ->
  Zdigits2 (m / 2 ^ k) = Zdigits2 m - k.
Proof.
  intros Hm Hk Hd.
  assert (Hp : 0 < 2 ^ k) by (apply Z.pow_pos_nonneg; lia).
  destruct (Z.eq_dec m 0) as [->|Hn].
  - simpl in *. assert (k = 0) by lia. subst. reflexivity.
  - pose proof (digits_bounds m ltac:(lia)) as [Hl Hu].
    destruct (Z.eq_dec k (Zdigits2 m)) as [->|Hne].
    + rewrite Z.div_small by lia. simpl. lia.
    + assert (Hq : 2 ^ (Zdigits2 m - k - 1) <= m / 2 ^ k < 2 ^ (Zdigits2 m - k)).
      { split.
        - apply Z.div_le_lower_bound; [lia|].
          rewrite <- Z.pow_add_r by lia.
          replace (k + (Zdigits2 m - k - 1)) with (Zdigits2 m - 1) by lia. exact Hl.
        - apply Z.div_lt_upper_bound; [lia|].
          rewrite <- Z.pow_add_r by lia.
          replace (k + (Zdigits2 m - k)) with (Zdigits2 m) by lia. exact Hu. }
      apply digits_unique; [exact Hq|].
      assert (0 < 2 ^ (Zdigits2 m - k - 1)) by (apply Z.pow_pos_nonneg; lia). lia.
Qed.

(** jam *)
Lemma jam_nonneg A B : 0 <= A -> 0 < B -> 0 <= jam A B.
Proof.
  intros. unfold jam. assert (0 <= A / B) by (apply Z.div_pos; lia).
  destruct (A mod B =? 0); lia.
Qed.

Lemma jam_mono A1 B1 A2 B2 : 0 < B1 -> 0 < B2 -> A1 * B2 <= A2 * B1 -> jam A1 B1 <= jam A2 B2.
Proof.
  intros H1 H2 H. unfold jam.
  pose proof (Z.div_mod A1 B1 ltac:(lia)). pose proof (Z.mod_pos_bound A1 B1 H1).
  pose proof (Z.div_mod A2 B2 ltac:(lia)). pose proof (Z.mod_pos_bound A2 B2 H2).
  assert (A1 / B1 <= A2 / B2).
  { rewrite <- (Z.div_mul_cancel_r A1 B1 B2), <- (Z.div_mul_cancel_r A2 B2 B1) by lia.
    rewrite (Z.mul_comm B2 B1). apply Z.div_le_mono; nia. }
  destruct (A1 mod B1 =? 0) eqn:E1; destruct (A2 mod B2 =? 0) eqn:E2; try lia.
  apply Z.eqb_neq in E1. apply Z.eqb_eq in E2.
  destruct (Z.eq_dec (A1 / B1) (A2 / B2)) as [Eq|]; [|lia]. exfalso.
  rewrite Eq in *. assert (0 < A1 mod B1) by lia.
  assert (A1 * B2 = B1 * B2 * (A2 / B2) + A1 mod B1 * B2) by nia.
  assert (A2 * B1 = B1 * B2 * (A2 / B2)) by nia. nia.
Qed.

Lemma jam_scale A B C : 0 < B -> 0 < C -> jam (A * C) (B * C) = jam A B.
Proof.
  intros. unfold jam. rewrite Z.div_mul_cancel_r by lia.
  rewrite Z.mul_mod_distr_r by lia.
  destruct (A mod B =? 0) eqn:E.
  - apply Z.eqb_eq in E. rewrite E. reflexivity.
  - apply Z.eqb_neq in E. destruct (A mod B * C =? 0) eqn:E'; [|reflexivity].
    apply Z.eqb_eq in E'. nia.
Qed.

Lemma jam_jam A B C : 0 <= A -> 0 < B -> 0 < C -> jam (jam A B) (2 * C) = jam A (B * C).
Proof.
  intros HA HB HC. unfold jam at 1 3.
  assert (Hq : 0 <= A / B) by (apply Z.div_pos; lia).
  assert (E1 : jam A B / (2 * C) = A / B / C).
  { unfold jam. rewrite <- Z.div_div by lia. f_equal.
    destruct (A mod B =? 0).
    - rewrite Z.add_0_r, Z.mul_comm, Z.div_mul by lia. reflexivity.
    - rewrite Z.mul_comm, Z.div_add_l by lia. rewrite (Z.div_small 1 2) by lia. lia. }
  assert (E2 : jam A B mod (2 * C) = 2 * ((A / B) mod C) + (if A mod B =? 0 then 0 else 1)).
  { pose proof (Z.div_mod (jam A B) (2 * C) ltac:(lia)) as D. rewrite E1 in D.
    pose proof (Z.div_mod (A / B) C ltac:(lia)) as D'.
    set (r := jam A B mod (2 * C)) in *. unfold jam in D.
    destruct (A mod B =? 0); nia. }
  rewrite E1, E2, Z.div_div by lia. f_equal.
  rewrite Z.rem_mul_r by lia.
  pose proof (Z.mod_pos_bound (A / B) C HC). pose proof (Z.mod_pos_bound A B HB).
  destruct (Z.eqb_spec (A mod B) 0);
  repeat match goal with
         | |- context [?x =? 0] => destruct (Z.eqb_spec x 0)
         end; try reflexivity; exfalso; nia.
Qed.

Lemma jam_two J : jam J 2 = J.
Proof.
  unfold jam. pose proof (Z.div_mod J 2 ltac:(lia)). pose proof (Z.mod_pos_bound J 2 ltac:(lia)).
  destruct (J mod 2 =? 0) eqn:E; [apply Z.eqb_eq in E|apply Z.eqb_neq in E]; lia.
Qed.

Lemma jam_div4 a B : 0 < B -> jam (2 * a) B / 4 = a / B.
Proof.
  intros HB. unfold jam.
  replace 4 with (2 * 2) by lia. rewrite <- Z.div_div by lia.
  replace (a / B) with (2 * a / B / 2).
  2:{ rewrite Z.div_div by lia. rewrite (Z.mul_comm B 2). rewrite Z.div_mul_cancel_l by lia. reflexivity. }
  f_equal. destruct (2 * a mod B =? 0).
  - rewrite Z.add_0_r, Z.mul_comm, Z.div_mul by lia. reflexivity.
  - rewrite Z.mul_comm, Z.div_add_l by lia. rewrite (Z.div_small 1 2) by lia. lia.
Qed.

Lemma jam_exact a : jam (2 * a) 1 = 4 * a.
Proof. unfold jam. rewrite Z.div_1_r, Z.mod_1_r, Z.eqb_refl. lia. Qed.

(** rne *)
Lemma mod4_cases J : J mod 4 = 0 \/ J mod 4 = 1 \/ J mod 4 = 2 \/ J mod 4 = 3.
Proof. pose proof (Z.mod_pos_bound J 4 ltac:(lia)). lia. Qed.

Lemma rne_bounds J : J / 4 <= rne J <= J / 4 + 1.
Proof.
  unfold rne. destruct (mod4_cases J) as [H|[H|[H|H]]]; rewrite H; cbn; try lia.
  destruct (Z.even (J / 4)); lia.
Qed.

Lemma rne_exact m : rne (4 * m) = m.
Proof.
  unfold rne. rewrite (Z.mul_comm 4 m), Z.mod_mul, Z.div_mul by lia. lia.
Qed.

Lemma rne_mono J1 J2 : J1 <= J2 -> rne J1 <= rne J2.
Proof.
  intros H.
  pose proof (Z.div_mod J1 4 ltac:(lia)) as D1. pose proof (Z.div_mod J2 4 ltac:(lia)) as D2.
  pose proof (rne_bounds J1) as B1. pose proof (rne_bounds J2) as B2.
  destruct (Z.eq_dec (J1 / 4) (J2 / 4)) as [E|NE].
  - unfold rne. rewrite E in *.
    destruct (mod4_cases J1) as [H1|[H1|[H1|H1]]]; destruct (mod4_cases J2) as [H2|[H2|[H2|H2]]];
      rewrite H1, H2 in *; cbn; try lia; destruct (Z.even (J2 / 4)); lia.
  - assert (J1 / 4 < J2 / 4).
    { assert (J1 / 4 <= J2 / 4) by (apply Z.div_le_mono; lia). lia. }
    (* rne J1 <= J1/4 + 1 <= J2/4 <= rne J2 *) lia.
Qed.

Lemma fexp_eq e : fexp 53 1024 e = Z.max (e - 53) (-1074).
Proof. reflexivity. Qed.

Lemma exp_of_eq m e : exp_of m e = Z.max (Zdigits2 m + e - 53) (-1074).
Proof. reflexivity. Qed.

Lemma record_of_enc m (r s : bool) :
  record_of (4 * m + 2 * Z.b2z r + Z.b2z s) = Build_shr_record m r s.
Proof.
  unfold record_of.
  assert (D : (4 * m + 2 * Z.b2z r + Z.b2z s) / 4 = m).
  { symmetry. apply (Z.div_unique _ 4 m (2 * Z.b2z r + Z.b2z s)); destruct r, s; simpl; lia. }
  assert (M : (4 * m + 2 * Z.b2z r + Z.b2z s) mod 4 = 2 * Z.b2z r + Z.b2z s).
  { symmetry. apply (Z.mod_unique _ 4 m (2 * Z.b2z r + Z.b2z s)); destruct r, s; simpl; lia. }
  rewrite D, M. f_equal.
  - destruct r, s; reflexivity.
  - replace (4 * m + 2 * Z.b2z r + Z.b2z s) with (Z.b2z s + 2 * (2 * m + Z.b2z r)) by lia.
    rewrite Z.odd_add_mul_2. destruct s; reflexivity.
Qed.

Lemma enc_record_of J :
  J = 4 * shr_m (record_of J) + 2 * Z.b2z (shr_r (record_of J)) + Z.b2z (shr_s (record_of J)).
Proof.
  unfold record_of; simpl.
  pose proof (Z.div_mod J 4 ltac:(lia)) as D.
  assert (O : Z.odd J = Z.odd (J mod 4)).
  { rewrite D at 1. replace (4 * (J / 4) + J mod 4) with (J mod 4 + 2 * (2 * (J / 4))) by lia.
    apply Z.odd_add_mul_2. }
  rewrite O.
  destruct (mod4_cases J) as [H|[H|[H|H]]]; rewrite H in *; simpl; lia.
Qed.

Lemma shr_1_record_of J : 0 <= J -> shr_1 (record_of J) = record_of (jam J 4).
Proof.
  intros HJ.
  assert (Hm : 0 <= J / 4) by (apply Z.div_pos; lia).
  rewrite (enc_record_of J) at 2.
  remember (record_of J) as R eqn:HR. 
  assert (Hm' : shr_m R = J / 4) by (subst R; reflexivity).
  destruct R as [m r s]. simpl in *. subst m.
  assert (Hc : (4 * (J / 4) + 2 * Z.b2z r + Z.b2z s) mod 4 = 2 * Z.b2z r + Z.b2z s).
  { symmetry. apply (Z.mod_unique _ 4 (J / 4)); destruct r, s; simpl; lia. }
  assert (Hd : (4 * (J / 4) + 2 * Z.b2z r + Z.b2z s) / 4 = J / 4).
  { symmetry. apply (Z.div_unique _ 4 (J / 4) (2 * Z.b2z r + Z.b2z s)); destruct r, s; simpl; lia. }
  unfold jam. rewrite Hc, Hd.
  assert (Hj : (if 2 * Z.b2z r + Z.b2z s =? 0 then 0 else 1) = Z.b2z (r || s)).
  { destruct r, s; reflexivity. }
  rewrite Hj.
  destruct (J / 4) as [|p|p] eqn:Em; try lia.
  - change (2 * 0 + Z.b2z (r || s)) with (4 * 0 + 2 * Z.b2z false + Z.b2z (r || s)).
    rewrite record_of_enc. reflexivity.
  - destruct p as [p|p|].
    + replace (2 * Z.pos p~1 + Z.b2z (r || s)) with (4 * Z.pos p + 2 * Z.b2z true + Z.b2z (r || s))
        by (simpl Z.b2z at 1; lia).
      rewrite record_of_enc. reflexivity.
    + replace (2 * Z.pos p~0 + Z.b2z (r || s)) with (4 * Z.pos p + 2 * Z.b2z false + Z.b2z (r || s))
        by (simpl Z.b2z at 1; lia).
      rewrite record_of_enc. reflexivity.
    + change (2 * 1 + Z.b2z (r || s)) with (4 * 0 + 2 * Z.b2z true + Z.b2z (r || s)).
      rewrite record_of_enc. reflexivity.
Qed.

Lemma iter_shr_1 n J : 0 <= J ->
  iter_pos shr_1 n (record_of J) = record_of (jam J (2 * 2 ^ Z.pos n)).
Proof.
  revert J. induction n as [n IH|n IH|]; intros J HJ; cbn [iter_pos].
  - rewrite shr_1_record_of by assumption.
    assert (0 <= jam J 4) by (apply jam_nonneg; lia).
    assert (0 < 2 ^ Z.pos n) by (apply Z.pow_pos_nonneg; lia).
    rewrite IH by assumption.
    rewrite IH by (apply jam_nonneg; lia).
    rewrite jam_jam by lia.
    replace (2 * 2 ^ Z.pos n * 2 ^ Z.pos n) with (2 * (2 ^ Z.pos n * 2 ^ Z.pos n)) by lia.
    rewrite (jam_jam J 4) by lia.
    replace (2 * 2 ^ Z.pos n~1) with (4 * (2 ^ Z.pos n * 2 ^ Z.pos n)); [reflexivity|].
    rewrite <- Z.pow_add_r by lia.
    replace (Z.pos n~1) with (1 + (Z.pos n + Z.pos n)) by lia.
    rewrite (Z.pow_add_r 2 1) by lia. change (2 ^ 1) with 2. lia.
  - assert (0 < 2 ^ Z.pos n) by (apply Z.pow_pos_nonneg; lia).
    rewrite IH by assumption.
    rewrite IH by (apply jam_nonneg; lia).
    rewrite jam_jam by lia.
    replace (2 * 2 ^ Z.pos n~0) with (2 * 2 ^ Z.pos n * 2 ^ Z.pos n); [reflexivity|].
    replace (Z.pos n~0) with (Z.pos n + Z.pos n) by lia.
    rewrite (Z.pow_add_r 2 (Z.pos n)) by lia. lia.
  - rewrite shr_1_record_of by assumption. reflexivity.
Qed.

Lemma shr_record_of J e n : 0 <= J -> 0 <= n ->
  shr (record_of J) e n = (record_of (jam J (2 * 2 ^ n)), e + n).
Proof.
  intros HJ Hn. destruct n as [|p|p]; try lia.
  - simpl. rewrite jam_two, Z.add_0_r. reflexivity.
  - unfold shr. rewrite iter_shr_1 by assumption. reflexivity.
Qed.

Lemma shr_neg mrs e n : n <= 0 -> shr mrs e n = (mrs, e).
Proof. destruct n; try lia; reflexivity. Qed.

Lemma record_of_location_of J : shr_record_of_loc (J / 4) (location_of J) = record_of J.
Proof.
  rewrite (enc_record_of J) at 3. rewrite record_of_enc.
  unfold location_of, record_of; simpl.
  pose proof (Z.div_mod J 4 ltac:(lia)) as D.
  assert (O : Z.odd J = Z.odd (J mod 4)).
  { rewrite D at 1. replace (4 * (J / 4) + J mod 4) with (J mod 4 + 2 * (2 * (J / 4))) by lia.
    apply Z.odd_add_mul_2. }
  rewrite O.
  destruct (mod4_cases J) as [H|[H|[H|H]]]; rewrite H; reflexivity.
Qed.

Lemma round_record_of J :
  round_nearest_even (shr_m (record_of J)) (loc_of_shr_record (record_of J)) = rne J.
Proof.
  unfold rne, record_of; simpl.
  pose proof (Z.div_mod J 4 ltac:(lia)) as D.
  assert (O : Z.odd J = Z.odd (J mod 4)).
  { rewrite D at 1. replace (4 * (J / 4) + J mod 4) with (J mod 4 + 2 * (2 * (J / 4))) by lia.
    apply Z.odd_add_mul_2. }
  rewrite O.
  destruct (mod4_cases J) as [H|[H|[H|H]]]; rewrite H; simpl; try lia.
  destruct (Z.even (J / 4)); lia.
Qed.

Lemma pow2_pos k : 0 <= k -> 0 < 2 ^ k.
Proof. intros. apply Z.pow_pos_nonneg; lia. Qed.

Lemma shifted_lt a b e :
  0 <= a -> 0 < b -> e <= exp_of (a / b) e ->
  a / (b * 2 ^ (exp_of (a / b) e - e)) < 2 ^ 53.
Proof.
  intros Ha Hb He. set (E := exp_of (a / b) e) in *.
  assert (Hm : 0 <= a / b) by (apply Z.div_pos; lia).
  pose proof (pow2_pos (E - e) ltac:(lia)).
  rewrite <- Z.div_div by lia.
  apply Z.div_lt_upper_bound; [lia|].
  rewrite <- Z.pow_add_r by lia.
  pose proof (digits_nonneg (a / b)).
  assert (Zdigits2 (a / b) <= E - e + 53) by (unfold E; rewrite exp_of_eq; lia).
  apply (digits_le_iff (a / b) (E - e + 53)); lia.
Qed.

Lemma shifted_ge a b e :
  0 <= a -> 0 < b -> e <= exp_of (a / b) e -> emin < exp_of (a / b) e ->
  2 ^ 52 <= a / (b * 2 ^ (exp_of (a / b) e - e)).
Proof.
  intros Ha Hb He Hn. set (E := exp_of (a / b) e) in *.
  assert (Hm : 0 <= a / b) by (apply Z.div_pos; lia).
  pose proof (pow2_pos (E - e) ltac:(lia)).
  rewrite <- Z.div_div by lia.
  assert (HE : E = Zdigits2 (a / b) + e - 53) by (unfold E, emin in *; rewrite exp_of_eq in *; lia).
  apply Z.div_le_lower_bound; [lia|].
  rewrite <- Z.pow_add_r by lia.
  replace (E - e + 52) with (E - e + 52 + 1 - 1) by lia.
  apply (digits_ge_iff (a / b) (E - e + 52 + 1)); lia.
Qed.

Lemma bra_ord sx a b e :
  0 <= a -> 0 < b -> e <= exp_of (a / b) e ->
  binary_round_aux 53 1024 sx (a / b) e (location_of (jam (2 * a) b)) =
  float_of_ord sx (round_ord a b e).
Proof.
  intros Ha Hb He.
  pose proof (shifted_lt a b e Ha Hb He) as Hlt.
  pose proof (shifted_ge a b e Ha Hb He) as Hge.
  unfold round_ord. set (E := exp_of (a / b) e) in *.
  assert (HEmin : emin <= E) by (unfold E, emin; rewrite exp_of_eq; lia).
  pose proof (pow2_pos (E - e) ltac:(lia)) as Hp.
  set (J1 := jam (2 * a) (b * 2 ^ (E - e))).
  assert (HJ0 : 0 <= jam (2 * a) b) by (apply jam_nonneg; lia).
  assert (HJ1 : 0 <= J1) by (apply jam_nonneg; nia).
  assert (Hm1 : J1 / 4 = a / (b * 2 ^ (E - e))) by (apply jam_div4; nia).
  assert (H0m1 : 0 <= J1 / 4) by (apply Z.div_pos; lia).
  pose proof (rne_bounds J1) as Hk.
  unfold binary_round_aux, shr_fexp.
  rewrite <- (jam_div4 a b Hb) at 1. rewrite record_of_location_of.
  fold (exp_of (a / b) e). fold E.
  rewrite shr_record_of by lia.
  rewrite jam_jam by lia. fold J1.
  rewrite round_record_of.
  set (k := rne J1) in *.
  change (shr_record_of_loc k loc_Exact) with (Build_shr_record k false false).
  destruct (Z.eq_dec k (2 ^ 53)) as [Hk53|Hk53].
  - (* the mantissa was rounded up to the next binade *)
    rewrite Hk53.
    replace (e + (E - e)) with E by lia.
    assert (Hn2 : fexp 53 1024 (Zdigits2 (2 ^ 53) + E) - E = 1).
    { rewrite fexp_eq. change (Zdigits2 (2 ^ 53)) with 54. unfold emin in *. lia. }
    rewrite Hn2.
    change (shr {| shr_m := 2 ^ 53; shr_r := false; shr_s := false |} E 1)
      with ({| shr_m := 2 ^ 52; shr_r := false; shr_s := false |}, E + 1).
    cbv beta iota zeta. cbn [shr_m].
    unfold float_of_ord.
    assert (Ho : (E - emin) * 2 ^ 52 + 2 ^ 53 = (E - emin + 2) * 2 ^ 52).
    { change (2 ^ 53) with (2 * 2 ^ 52). lia. }
    rewrite Ho. rewrite Z.div_mul, Z.mod_mul by (change (2 ^ 52) with 4503599627370496; lia).
    assert (P : 0 < 2 ^ 52) by (apply pow2_pos; lia).
    destruct (Z.eqb_spec ((E - emin + 2) * 2 ^ 52) 0) as [Z0|_]; [nia|].
    destruct (Z.ltb_spec ((E - emin + 2) * 2 ^ 52) (2 ^ 52)) as [Z0|_]; [nia|].
    replace (emin + (E - emin + 2) - 1) with (E + 1) by lia.
    change (Z.sub 1024 53) with 971.
    change (2 ^ 52) with (Z.pos (Z.to_pos (0 + 2 ^ 52))). reflexivity.
  - assert (Hklt : k < 2 ^ 53) by lia.
    assert (Hk0 : 0 <= k) by lia.
    assert (Hn2 : fexp 53 1024 (Zdigits2 k + (e + (E - e))) - (e + (E - e)) <= 0).
    { rewrite fexp_eq.
      assert (Zdigits2 k <= 53) by (apply digits_le_iff; lia).
      unfold emin in *. lia. }
    rewrite shr_neg by exact Hn2.
    cbv beta iota zeta. cbn [shr_m].
    replace (e + (E - e)) with E by lia.
    change (Z.sub 1024 53) with 971.
    unfold float_of_ord.
    assert (P : 0 < 2 ^ 52) by (apply pow2_pos; lia).
    destruct (Z_le_gt_dec E emin) as [HE|HE].
    + (* subnormal range *)
      assert (E = emin) by lia. subst E.
      replace ((exp_of (a / b) e - emin) * 2 ^ 52 + k) with k by lia.
      destruct (Z.eqb_spec k 0) as [K0|K0].
      * rewrite K0. reflexivity.
      * destruct k as [|kp|kp]; try lia.
        rewrite H. 
        destruct (Z.ltb_spec (Z.pos kp) (2 ^ 52)) as [L|L].
        -- reflexivity.
        -- assert (Hq : Z.pos kp / 2 ^ 52 = 1).
           { symmetry. apply (Z.div_unique _ _ 1 (Z.pos kp - 2 ^ 52)); [|lia].
             change (2 ^ 53) with (2 * 2 ^ 52) in Hklt. lia. }
           assert (Hr : Z.pos kp mod 2 ^ 52 = Z.pos kp - 2 ^ 52).
           { symmetry. apply (Z.mod_unique _ _ 1); [|lia].
             change (2 ^ 53) with (2 * 2 ^ 52) in Hklt. lia. }
           rewrite Hq, Hr.
           replace (emin + 1 - 1) with emin by lia.
           replace (Z.pos kp - 2 ^ 52 + 2 ^ 52) with (Z.pos kp) by lia.
           reflexivity.
    + (* normal range *)
      specialize (Hge ltac:(lia)).
      assert (Hk52 : 2 ^ 52 <= k) by lia.
      set (o := (E - emin) * 2 ^ 52 + k).
      assert (Hq : o / 2 ^ 52 = E - emin + 1).
      { symmetry. apply (Z.div_unique _ _ _ (k - 2 ^ 52)); [|unfold o; lia].
        change (2 ^ 53) with (2 * 2 ^ 52) in Hklt. lia. }
      assert (Hr : o mod 2 ^ 52 = k - 2 ^ 52).
      { symmetry. apply (Z.mod_unique _ _ (E - emin + 1)); [|unfold o; lia].
        change (2 ^ 53) with (2 * 2 ^ 52) in Hklt. lia. }
      destruct (Z.eqb_spec o 0) as [Z0|_]; [unfold o in *; nia|].
      destruct (Z.ltb_spec o (2 ^ 52)) as [Z0|_]; [unfold o in *; nia|].
      rewrite Hq, Hr.
      replace (emin + (E - emin + 1) - 1) with E by lia.
      replace (k - 2 ^ 52 + 2 ^ 52) with k by lia.
      destruct k as [|kp|kp]; try lia. reflexivity.
Qed.

Lemma exp_of_ge_emin m e : emin <= exp_of m e.
Proof. rewrite exp_of_eq. unfold emin. lia. Qed.

Lemma exp_of_mono m1 m2 e : 0 <= m1 <= m2 -> exp_of m1 e <= exp_of m2 e.
Proof. intros H. pose proof (digits_mono m1 m2 H). rewrite !exp_of_eq. lia. Qed.

Lemma exp_of_refine a b e k :
  0 <= a -> 0 < b -> 0 <= k -> e <= exp_of (a / b) e ->
  exp_of (a * 2 ^ k / b) (e - k) = exp_of (a / b) e.
Proof.
  intros Ha Hb Hk He.
  pose proof (pow2_pos k Hk) as Hp.
  assert (Hm : 0 <= a / b) by (apply Z.div_pos; lia).
  pose proof (Z.div_mod a b ltac:(lia)) as D. pose proof (Z.mod_pos_bound a b Hb) as Hr.
  assert (Hl : a / b * 2 ^ k <= a * 2 ^ k / b).
  { apply Z.div_le_lower_bound; nia. }
  assert (Hu : a * 2 ^ k / b < (a / b + 1) * 2 ^ k).
  { apply Z.div_lt_upper_bound; nia. }
  destruct (Z.eq_dec (a / b) 0) as [Hz|Hz].
  - rewrite Hz in *. rewrite exp_of_eq in He. change (Zdigits2 0) with 0 in He.
    assert (0 <= a * 2 ^ k / b) by lia.
    assert (Zdigits2 (a * 2 ^ k / b) <= k) by (apply digits_le_iff; lia).
    rewrite !exp_of_eq. change (Zdigits2 0) with 0. lia.
  - pose proof (digits_bounds (a / b) ltac:(lia)) as [Bl Bu].
    pose proof (digits_pos (a / b) ltac:(lia)) as Dp.
    assert (Zdigits2 (a * 2 ^ k / b) = Zdigits2 (a / b) + k).
    { apply digits_unique; [|nia].
      replace (Zdigits2 (a / b) + k - 1) with (Zdigits2 (a / b) - 1 + k) by lia.
      rewrite !Z.pow_add_r by lia. nia. }
    rewrite !exp_of_eq. lia.
Qed.

Lemma round_ord_refine a b e k :
  0 <= a -> 0 < b -> 0 <= k -> e <= exp_of (a / b) e ->
  round_ord (a * 2 ^ k) b (e - k) = round_ord a b e.
Proof.
  intros Ha Hb Hk He. unfold round_ord.
  rewrite exp_of_refine by assumption.
  set (E := exp_of (a / b) e) in *.
  replace (E - (e - k)) with (E - e + k) by lia.
  rewrite Z.pow_add_r by lia.
  replace (2 * (a * 2 ^ k)) with (2 * a * 2 ^ k) by lia.
  rewrite Z.mul_assoc.
  rewrite jam_scale; [reflexivity| |apply pow2_pos; lia].
  pose proof (pow2_pos (E - e) ltac:(lia)). nia.
Qed.

Lemma round_ord_mono_same a1 b1 a2 b2 e :
  0 <= a1 -> 0 < b1 -> 0 <= a2 -> 0 < b2 ->
  e <= exp_of (a1 / b1) e -> e <= exp_of (a2 / b2) e ->
  a1 * b2 <= a2 * b1 ->
  round_ord a1 b1 e <= round_ord a2 b2 e.
Proof.
  intros Ha1 Hb1 Ha2 Hb2 He1 He2 Hle.
  assert (Hm : 0 <= a1 / b1 <= a2 / b2).
  { split; [apply Z.div_pos; lia|].
    rewrite <- (Z.div_mul_cancel_r a1 b1 b2), <- (Z.div_mul_cancel_r a2 b2 b1) by lia.
    rewrite (Z.mul_comm b2 b1). apply Z.div_le_mono; nia. }
  pose proof (exp_of_mono _ _ e Hm) as HE.
  pose proof (shifted_lt a1 b1 e Ha1 Hb1 He1) as Hlt1.
  pose proof (shifted_ge a2 b2 e Ha2 Hb2 He2) as Hge2.
  pose proof (exp_of_ge_emin (a1 / b1) e) as Hmin.
  unfold round_ord.
  set (E1 := exp_of (a1 / b1) e) in *. set (E2 := exp_of (a2 / b2) e) in *.
  pose proof (pow2_pos (E1 - e) ltac:(lia)) as P1.
  pose proof (pow2_pos (E2 - e) ltac:(lia)) as P2.
  pose proof (rne_bounds (jam (2 * a1) (b1 * 2 ^ (E1 - e)))) as K1.
  pose proof (rne_bounds (jam (2 * a2) (b2 * 2 ^ (E2 - e)))) as K2.
  rewrite jam_div4 in K1, K2 by nia.
  destruct (Z.eq_dec E1 E2) as [Heq|Hne].
  - rewrite <- Heq.
    assert (rne (jam (2 * a1) (b1 * 2 ^ (E1 - e))) <= rne (jam (2 * a2) (b2 * 2 ^ (E1 - e)))); [|lia].
    apply rne_mono, jam_mono; nia.
  - specialize (Hge2 ltac:(lia)).
    assert (P : 0 < 2 ^ 52) by (apply pow2_pos; lia).
    change (2 ^ 53) with (2 * 2 ^ 52) in Hlt1.
    assert ((E1 - emin + 1) * 2 ^ 52 <= (E2 - emin) * 2 ^ 52) by nia.
    lia.
Qed.

Lemma round_ord_mono a1 b1 e1 a2 b2 e2 c :
  0 <= a1 -> 0 < b1 -> 0 <= a2 -> 0 < b2 ->
  e1 <= exp_of (a1 / b1) e1 -> e2 <= exp_of (a2 / b2) e2 ->
  c <= e1 -> c <= e2 ->
  a1 * b2 * 2 ^ (e1 - c) <= a2 * b1 * 2 ^ (e2 - c) ->
  round_ord a1 b1 e1 <= round_ord a2 b2 e2.
Proof.
  intros Ha1 Hb1 Ha2 Hb2 He1 He2 Hc1 Hc2 Hle.
  pose proof (pow2_pos (e1 - c) ltac:(lia)) as P1.
  pose proof (pow2_pos (e2 - c) ltac:(lia)) as P2.
  rewrite <- (round_ord_refine a1 b1 e1 (e1 - c)) by (assumption || lia).
  rewrite <- (round_ord_refine a2 b2 e2 (e2 - c)) by (assumption || lia).
  replace (e1 - (e1 - c)) with c by lia.
  replace (e2 - (e2 - c)) with c by lia.
  apply round_ord_mono_same; try nia; try assumption.
  - replace c with (e1 - (e1 - c)) at 1 3 by lia. rewrite exp_of_refine by (assumption || lia). lia.
  - replace c with (e2 - (e2 - c)) at 1 3 by lia. rewrite exp_of_refine by (assumption || lia). lia.
Qed.

Lemma round_ord_nonneg a b e : 0 <= a -> 0 < b -> e <= exp_of (a / b) e -> 0 <= round_ord a b e.
Proof.
  intros Ha Hb He. unfold round_ord.
  pose proof (exp_of_ge_emin (a / b) e).
  pose proof (pow2_pos (exp_of (a / b) e - e) ltac:(lia)).
  pose proof (rne_bounds (jam (2 * a) (b * 2 ^ (exp_of (a / b) e - e)))) as K.
  rewrite jam_div4 in K by nia.
  assert (0 <= a / (b * 2 ^ (exp_of (a / b) e - e))) by (apply Z.div_pos; nia).
  assert (0 < 2 ^ 52) by (apply pow2_pos; lia). nia.
Qed.

Lemma bounded_spec m e :
  bounded 53 1024 m e = true ->
  -1074 <= e <= 971 /\ Z.pos m < 2 ^ 53 /\ (-1074 < e -> 2 ^ 52 <= Z.pos m) /\
  exp_of (Z.pos m) e = e.
Proof.
  unfold bounded, canonical_mantissa. intros H.
  apply andb_true_iff in H. destruct H as [H1 H2].
  apply Z.eqb_eq in H1. apply Z.leb_le in H2. change (Z.sub 1024 53) with 971 in H2.
  change (fexp 53 1024 (Z.pos (digits2_pos m) + e)) with (exp_of (Z.pos m) e) in H1.
  pose proof H1 as H1'. rewrite exp_of_eq in H1.
  pose proof (digits_pos (Z.pos m) ltac:(lia)).
  repeat split; try lia.
  - apply digits_le_iff; lia.
  - intros. change 52 with (53 - 1). apply digits_ge_iff; lia.
Qed.

Lemma bounded_intro m e :
  -1074 <= e <= 971 -> 0 < m < 2 ^ 53 -> (-1074 < e -> 2 ^ 52 <= m) ->
  bounded 53 1024 (Z.to_pos m) e = true.
Proof.
  intros He Hm Hn. unfold bounded, canonical_mantissa.
  apply andb_true_iff. split; [|apply Z.leb_le; change (Z.sub 1024 53) with 971; lia].
  apply Z.eqb_eq.
  change (Z.pos (digits2_pos (Z.to_pos m))) with (Zdigits2 (Z.pos (Z.to_pos m))).
  rewrite Z2Pos.id by lia. rewrite fexp_eq.
  assert (Zdigits2 m <= 53) by (apply digits_le_iff; lia).
  destruct (Z.eq_dec e (-1074)) as [->|Hne]; [lia|].
  assert (53 <= Zdigits2 m) by (apply digits_ge_iff; [lia|lia|apply Hn; lia]).
  lia.
Qed.

Lemma ordinal_float_of_ord o : 0 <= o -> ordinal (float_of_ord false o) = Z.min o ord_inf.
Proof.
  intros Ho. unfold float_of_ord, ord_inf.
  assert (P : 0 < 2 ^ 52) by (apply pow2_pos; lia).
  destruct (Z.eqb_spec o 0) as [->|Hz]; [simpl; lia|].
  destruct (Z.ltb_spec o (2 ^ 52)) as [Hs|Hs].
  - change (emin <=? 971) with true. cbv iota. simpl ordinal.
    rewrite Z2Pos.id by lia. unfold emin. lia.
  - pose proof (Z.div_mod o (2 ^ 52) ltac:(lia)) as D.
    pose proof (Z.mod_pos_bound o (2 ^ 52) P) as R.
    destruct (Z.leb_spec (emin + o / 2 ^ 52 - 1) 971) as [Hf|Hf]; simpl ordinal.
    + rewrite Z2Pos.id by lia. unfold emin in *. lia.
    + unfold emin, ord_inf in *. lia.
Qed.

Lemma nonneg_float_of_ord o : 0 <= o -> nonneg (float_of_ord false o) = true.
Proof.
  intros Ho. unfold float_of_ord.
  assert (P : 0 < 2 ^ 52) by (apply pow2_pos; lia).
  destruct (Z.eqb_spec o 0) as [->|Hz]; [reflexivity|].
  destruct (Z.ltb_spec o (2 ^ 52)) as [Hs|Hs].
  - change (emin <=? 971) with true. cbv iota. simpl nonneg.
    apply bounded_intro; unfold emin; lia.
  - pose proof (Z.div_mod o (2 ^ 52) ltac:(lia)) as D.
    pose proof (Z.mod_pos_bound o (2 ^ 52) P) as R.
    assert (1 <= o / 2 ^ 52) by (apply Z.div_le_lower_bound; lia).
    destruct (Z.leb_spec (emin + o / 2 ^ 52 - 1) 971) as [Hf|Hf]; simpl nonneg; [|reflexivity].
    apply bounded_intro; unfold emin in *; lia.
Qed.

Lemma float_of_ord_nan sx o : float_of_ord sx o <> S754_nan.
Proof.
  unfold float_of_ord. destruct (o =? 0); [discriminate|].
  match goal with |- context [if ?c then S754_finite _ _ _ else _] => destruct c end; discriminate.
Qed.

(** Comparison of non-negative numbers is comparison of ordinals. *)
Lemma nonneg_ordinal_bounds f : nonneg f = true -> 0 <= ordinal f <= ord_inf.
Proof.
  assert (P : 0 < 2 ^ 52) by (apply pow2_pos; lia).
  destruct f as [s|s| |s m e]; simpl; unfold ord_inf; try lia; try discriminate.
  destruct s; [discriminate|]. intros H. apply bounded_spec in H.
  change (2 ^ 53) with (2 * 2 ^ 52) in H. unfold emin. nia.
Qed.

Lemma nonneg_finite_lt_inf s m e : nonneg (S754_finite s m e) = true -> ordinal (S754_finite s m e) < ord_inf.
Proof.
  assert (P : 0 < 2 ^ 52) by (apply pow2_pos; lia).
  simpl. destruct s; [discriminate|]. intros H. apply bounded_spec in H.
  change (2 ^ 53) with (2 * 2 ^ 52) in H. unfold emin, ord_inf. nia.
Qed.

Lemma nonneg_finite_pos s m e : nonneg (S754_finite s m e) = true -> 0 < ordinal (S754_finite s m e).
Proof.
  assert (P : 0 < 2 ^ 52) by (apply pow2_pos; lia).
  simpl. destruct s; [discriminate|]. intros H. apply bounded_spec in H.
  unfold emin. nia.
Qed.

Lemma compare_ordinal f g :
  nonneg f = true -> nonneg g = true -> SFcompare f g = Some (ordinal f ?= ordinal g).
Proof.
  intros Hf Hg.
  assert (P : 0 < 2 ^ 52) by (apply pow2_pos; lia).
  destruct f as [sf|sf| |sf mf ef]; destruct g as [sg|sg| |sg mg eg];
    try discriminate; try (destruct sf; try discriminate); try (destruct sg; try discriminate);
    try reflexivity.
  - pose proof (nonneg_finite_pos _ _ _ Hg). cbn [SFcompare]. f_equal. symmetry.
    apply Z.compare_lt_iff. cbn [ordinal] in *. lia.
  - pose proof (nonneg_finite_pos _ _ _ Hg). cbn [SFcompare]. f_equal. symmetry.
    apply Z.compare_lt_iff. cbn [ordinal] in *. lia.
  - pose proof (nonneg_finite_lt_inf _ _ _ Hg). cbn [SFcompare]. f_equal. symmetry.
    apply Z.compare_gt_iff. cbn [ordinal] in *. lia.
  - pose proof (nonneg_finite_pos _ _ _ Hf). cbn [SFcompare]. f_equal. symmetry.
    apply Z.compare_gt_iff. cbn [ordinal] in *. lia.
  - pose proof (nonneg_finite_pos _ _ _ Hf). cbn [SFcompare]. f_equal. symmetry.
    apply Z.compare_gt_iff. cbn [ordinal] in *. lia.
  - pose proof (nonneg_finite_lt_inf _ _ _ Hf). cbn [SFcompare]. f_equal. symmetry.
    apply Z.compare_lt_iff. cbn [ordinal] in *. lia.
  - simpl in Hf, Hg. apply bounded_spec in Hf, Hg.
    change (2 ^ 53) with (2 * 2 ^ 52) in Hf, Hg.
    cbn [SFcompare ordinal]. f_equal. unfold emin.
    destruct (Z.compare_spec ef eg) as [E|E|E].
    + subst eg. rewrite Pos.compare_cont_spec. unfold Pos.switch_Eq.
      change (mf ?= mg)%positive with (Z.pos mf ?= Z.pos mg).
      destruct (Z.compare_spec (Z.pos mf) (Z.pos mg)) as [C|C|C]; symmetry.
      * apply Z.compare_eq_iff. lia.
      * apply Z.compare_lt_iff. lia.
      * apply Z.compare_gt_iff. lia.
    + symmetry. apply Z.compare_lt_iff. nia.
    + symmetry. apply Z.compare_gt_iff. nia.
Qed.

Lemma leb_ordinal f g : nonneg f = true -> nonneg g = true -> SFleb f g = (ordinal f <=? ordinal g).
Proof.
  intros Hf Hg. unfold SFleb. rewrite (compare_ordinal f g Hf Hg).
  unfold Z.leb. destruct (ordinal f ?= ordinal g); reflexivity.
Qed.

Lemma ltb_ordinal f g : nonneg f = true -> nonneg g = true -> SFltb f g = (ordinal f <? ordinal g).
Proof.
  intros Hf Hg. unfold SFltb. rewrite (compare_ordinal f g Hf Hg).
  unfold Z.ltb. destruct (ordinal f ?= ordinal g); reflexivity.
Qed.

(** Ordinals and values: for finite numbers the ordinal order is the
    order of the values [m * 2^e]. *)
Lemma ordinal_le_value m1 e1 m2 e2 c :
  bounded 53 1024 m1 e1 = true -> bounded 53 1024 m2 e2 = true ->
  c <= e1 -> c <= e2 ->
  ordinal (S754_finite false m1 e1) <= ordinal (S754_finite false m2 e2) ->
  Z.pos m1 * 2 ^ (e1 - c) <= Z.pos m2 * 2 ^ (e2 - c).
Proof.
  intros B1 B2 C1 C2 H. apply bounded_spec in B1, B2.
  assert (P : 0 < 2 ^ 52) by (apply pow2_pos; lia).
  change (2 ^ 53) with (2 * 2 ^ 52) in B1, B2.
  cbn [ordinal] in H. unfold emin in H.
  pose proof (pow2_pos (e1 - c) ltac:(lia)) as P1.
  destruct (Z_lt_le_dec e2 e1) as [L|L]; [exfalso; nia|].
  destruct (Z.eq_dec e1 e2) as [->|Hne]; [nia|].
  replace (e2 - c) with (e2 - e1 - 1 + 1 + (e1 - c)) by lia.
  rewrite !Z.pow_add_r by lia. change (2 ^ 1) with 2.
  pose proof (pow2_pos (e2 - e1 - 1) ltac:(lia)).
  assert (Z.pos m1 < Z.pos m2 * (2 ^ (e2 - e1 - 1) * 2)) by nia.
  nia.
Qed.

(** * The operations as rounded ordinals *)

Lemma location_of_exact a : location_of (jam (2 * a) 1) = loc_Exact.
Proof.
  rewrite jam_exact. unfold location_of. rewrite (Z.mul_comm 4 a), Z.mod_mul by lia. reflexivity.
Qed.

Lemma bra_exact sx a e :
  0 <= a -> e <= exp_of a e ->
  binary_round_aux 53 1024 sx a e loc_Exact = float_of_ord sx (round_ord a 1 e).
Proof.
  intros Ha He.
  rewrite <- (bra_ord sx a 1 e Ha ltac:(lia)) by (rewrite Z.div_1_r; exact He).
  rewrite Z.div_1_r, location_of_exact. reflexivity.
Qed.

Lemma pos_iter_xO m d : Z.pos (Pos.iter xO m d) = Z.pos m * 2 ^ Z.pos d.
Proof.
  induction d as [|d IH] using Pos.peano_ind.
  - simpl. rewrite Pos2Z.inj_xO. change (2 ^ 1) with 2. lia.
  - rewrite Pos.iter_succ, Pos2Z.inj_xO, IH, Pos2Z.inj_succ, Z.pow_succ_r by lia. lia.
Qed.

Lemma shl_align_spec m e e' :
  snd (shl_align m e e') = Z.min e e' /\
  Z.pos (fst (shl_align m e e')) = Z.pos m * 2 ^ (e - Z.min e e').
Proof.
  unfold shl_align. destruct (e' - e) as [|p|p] eqn:Hd; cbn [fst snd].
  - replace (Z.min e e') with e by lia. rewrite Z.sub_diag. change (2 ^ 0) with 1. lia.
  - replace (Z.min e e') with e by lia. rewrite Z.sub_diag. change (2 ^ 0) with 1. lia.
  - replace (Z.min e e') with e' by lia. rewrite pos_iter_xO.
    replace (e - e') with (Z.pos p) by lia. lia.
Qed.

Lemma round_dy_pre a e :
  0 < a ->
  let ez := Z.min e (exp_of a e) in
  0 <= e - ez /\ exp_of (a * 2 ^ (e - ez)) ez = exp_of a e.
Proof.
  intros Ha ez. assert (Hk : 0 <= e - ez) by (unfold ez; lia).
  split; [exact Hk|].
  rewrite !exp_of_eq, digits_mul_pow2 by lia. lia.
Qed.

Lemma binary_round_ord sx m e :
  binary_round 53 1024 sx m e = float_of_ord sx (round_dy (Z.pos m) e).
Proof.
  unfold binary_round, round_dy.
  change (fexp 53 1024 (Z.pos (digits2_pos m) + e)) with (exp_of (Z.pos m) e).
  pose proof (shl_align_spec m e (exp_of (Z.pos m) e)) as [Hs Hf].
  destruct (shl_align m e (exp_of (Z.pos m) e)) as [mz ez]. cbn [fst snd] in Hs, Hf.
  subst ez. rewrite Hf.
  pose proof (round_dy_pre (Z.pos m) e ltac:(lia)) as [Hk HE]. cbv zeta in Hk, HE.
  apply bra_exact.
  - rewrite <- Hf. lia.
  - rewrite HE. lia.
Qed.

Lemma round_dy_exact a e : 0 < a -> e <= exp_of a e -> round_dy a e = round_ord a 1 e.
Proof.
  intros Ha He. unfold round_dy. replace (Z.min e (exp_of a e)) with e by lia.
  rewrite Z.sub_diag. change (2 ^ 0) with 1. rewrite Z.mul_1_r. reflexivity.
Qed.

Lemma round_dy_nonneg a e : 0 < a -> 0 <= round_dy a e.
Proof.
  intros Ha. unfold round_dy.
  pose proof (round_dy_pre a e Ha) as [Hk HE]. cbv zeta in Hk, HE.
  pose proof (pow2_pos _ Hk).
  apply round_ord_nonneg; try nia. rewrite Z.div_1_r, HE. lia.
Qed.

Lemma round_dy_mono a1 e1 a2 e2 c :
  0 < a1 -> 0 < a2 -> c <= e1 -> c <= e2 -> c <= emin ->
  a1 * 2 ^ (e1 - c) <= a2 * 2 ^ (e2 - c) ->
  round_dy a1 e1 <= round_dy a2 e2.
Proof.
  intros Ha1 Ha2 C1 C2 Cm H. unfold round_dy.
  pose proof (round_dy_pre a1 e1 Ha1) as [Hk1 HE1]. pose proof (round_dy_pre a2 e2 Ha2) as [Hk2 HE2].
  cbv zeta in Hk1, HE1, Hk2, HE2.
  pose proof (exp_of_ge_emin a1 e1). pose proof (exp_of_ge_emin a2 e2).
  set (z1 := Z.min e1 (exp_of a1 e1)) in *. set (z2 := Z.min e2 (exp_of a2 e2)) in *.
  pose proof (pow2_pos _ Hk1). pose proof (pow2_pos _ Hk2).
  apply (round_ord_mono _ _ _ _ _ _ c); try nia; try lia.
  - rewrite Z.div_1_r, HE1. lia.
  - rewrite Z.div_1_r, HE2. lia.
  - rewrite !Z.mul_1_r.
    rewrite <- !Z.mul_assoc, <- !Z.pow_add_r by lia.
    replace (e1 - z1 + (z1 - c)) with (e1 - c) by lia.
    replace (e2 - z2 + (z2 - c)) with (e2 - c) by lia. exact H.
Qed.

(** Multiplication of finite numbers *)
Lemma mul_pre mx ex my ey :
  bounded 53 1024 mx ex = true -> bounded 53 1024 my ey = true ->
  ex + ey <= exp_of (Z.pos mx * Z.pos my) (ex + ey).
Proof.
  intros Bx By. apply bounded_spec in Bx, By.
  destruct Bx as (Hex & Hmx & Hnx & Ecx). destruct By as (Hey & Hmy & Hny & Ecy).
  rewrite exp_of_eq in *.
  pose proof (digits_bounds (Z.pos mx) ltac:(lia)) as [Lx _].
  pose proof (digits_bounds (Z.pos my) ltac:(lia)) as [Ly _].
  pose proof (digits_pos (Z.pos mx) ltac:(lia)). pose proof (digits_pos (Z.pos my) ltac:(lia)).
  assert (Zdigits2 (Z.pos mx) + Zdigits2 (Z.pos my) - 1 <= Zdigits2 (Z.pos mx * Z.pos my)).
  { apply digits_ge_iff; [lia|lia|].
    replace (Zdigits2 (Z.pos mx) + Zdigits2 (Z.pos my) - 1 - 1)
      with ((Zdigits2 (Z.pos mx) - 1) + (Zdigits2 (Z.pos my) - 1)) by lia.
    rewrite Z.pow_add_r by lia.
    pose proof (pow2_pos (Zdigits2 (Z.pos mx) - 1) ltac:(lia)).
    pose proof (pow2_pos (Zdigits2 (Z.pos my) - 1) ltac:(lia)). nia. }
  lia.
Qed.

Lemma mul_finite_ord mx ex my ey :
  bounded 53 1024 mx ex = true -> bounded 53 1024 my ey = true ->
  SFmul 53 1024 (S754_finite false mx ex) (S754_finite false my ey) =
  float_of_ord false (round_dy (Z.pos mx * Z.pos my) (ex + ey)).
Proof.
  intros Bx By. pose proof (mul_pre mx ex my ey Bx By) as Hp.
  rewrite round_dy_exact by (lia || exact Hp).
  cbn [SFmul xorb]. rewrite Pos2Z.inj_mul. apply bra_exact; [lia|exact Hp].
Qed.

(** Addition of finite non-negative numbers *)
Lemma add_finite_ord mx ex my ey :
  SFadd 53 1024 (S754_finite false mx ex) (S754_finite false my ey) =
  float_of_ord false
    (round_dy (Z.pos mx * 2 ^ (ex - Z.min ex ey) + Z.pos my * 2 ^ (ey - Z.min ex ey)) (Z.min ex ey)).
Proof.
  cbn [SFadd cond_Zopp].
  pose proof (shl_align_spec mx ex (Z.min ex ey)) as [_ Hx].
  pose proof (shl_align_spec my ey (Z.min ex ey)) as [_ Hy].
  replace (Z.min ex (Z.min ex ey)) with (Z.min ex ey) in Hx by lia.
  replace (Z.min ey (Z.min ex ey)) with (Z.min ex ey) in Hy by lia.
  rewrite <- Hx, <- Hy. rewrite <- Pos2Z.inj_add.
  cbn [binary_normalize]. apply binary_round_ord.
Qed.

(** Conversion of a positive integer *)
Lemma of_Z_ord n : 0 < n -> binary_normalize 53 1024 n 0 false = float_of_ord false (round_dy n 0).
Proof.
  intros Hn. destruct n as [|p|p]; try lia. cbn [binary_normalize]. apply binary_round_ord.
Qed.

(** [SpecFloat] names the integer operations through [IntDef]; the
    lemmas of [ZArith] go through [BinInt]. *)
Ltac zstd :=
  change IntDef.Z.eqb with Z.eqb in *;
  change IntDef.Z.leb with Z.leb in *;
  change IntDef.Z.compare with Z.compare in *;
  change IntDef.Z.even with Z.even in *;
  change IntDef.Z.add with Z.add in *;
  change IntDef.Z.sub with Z.sub in *;
  change IntDef.Z.mul with Z.mul in *;
  change IntDef.Z.min with Z.min in *;
  change IntDef.Z.max with Z.max in *;
  change IntDef.Z.shiftl with Z.shiftl in *;
  change IntDef.Z.div_eucl with Z.div_eucl in *.

(** Division of finite numbers *)
Lemma add_mod4 q c : 0 <= c < 4 -> (4 * q + c) mod 4 = c.
Proof. intros H. symmetry. apply (Z.mod_unique _ 4 q); lia. Qed.

Lemma new_location_loc a b :
  0 <= a -> 0 < b -> new_location b (a mod b) = location_of (jam (2 * a) b).
Proof.
  intros Ha Hb.
  pose proof (Z.div_mod a b ltac:(lia)) as D. pose proof (Z.mod_pos_bound a b Hb) as R.
  set (q := a / b) in *. set (r := a mod b) in *. clearbody q r.
  assert (Hj : jam (2 * a) b =
               4 * q + (if r =? 0 then 0 else
                        match 2 * r ?= b with Lt => 1 | Eq => 2 | Gt => 3 end)).
  { unfold jam. destruct (Z.compare_spec (2 * r) b) as [C|C|C].
    - assert (Hq : 2 * a / b = 2 * q + 1).
      { symmetry. apply (Z.div_unique _ _ _ 0); lia. }
      assert (Hm : 2 * a mod b = 0).
      { symmetry. apply (Z.mod_unique _ _ (2 * q + 1)); lia. }
      rewrite Hq, Hm. destruct (Z.eqb_spec r 0); simpl; lia.
    - assert (Hq : 2 * a / b = 2 * q).
      { symmetry. apply (Z.div_unique _ _ _ (2 * r)); lia. }
      assert (Hm : 2 * a mod b = 2 * r).
      { symmetry. apply (Z.mod_unique _ _ (2 * q)); lia. }
      rewrite Hq, Hm. destruct (Z.eqb_spec r 0); destruct (Z.eqb_spec (2 * r) 0); lia.
    - assert (Hq : 2 * a / b = 2 * q + 1).
      { symmetry. apply (Z.div_unique _ _ _ (2 * r - b)); lia. }
      assert (Hm : 2 * a mod b = 2 * r - b).
      { symmetry. apply (Z.mod_unique _ _ (2 * q + 1)); lia. }
      rewrite Hq, Hm. destruct (Z.eqb_spec r 0); destruct (Z.eqb_spec (2 * r - b) 0); lia. }
  unfold location_of. rewrite Hj.
  unfold new_location. zstd.
  destruct (Z.even b) eqn:Ev; unfold new_location_even, new_location_odd; zstd.
  - destruct (Z.eqb_spec r 0) as [Hr|Hr]; [rewrite add_mod4 by lia; reflexivity|].
    destruct (Z.compare_spec (2 * r) b); rewrite add_mod4 by lia; reflexivity.
  - destruct (Z.eqb_spec r 0) as [Hr|Hr]; [rewrite add_mod4 by lia; reflexivity|].
    assert (Ho : Z.odd b = true) by (rewrite <- Z.negb_even, Ev; reflexivity).
    apply Z.odd_spec in Ho. destruct Ho as [h Hh].
    destruct (Z.compare_spec (2 * r) b) as [C|C|C]; rewrite add_mod4 by lia;
      destruct (Z.compare_spec (2 * r + 1) b); try reflexivity; lia.
Qed.

Lemma div_pre mx ex my ey :
  0 < mx -> 0 < my ->
  let e' := div_exp mx ex my ey in
  0 <= ex - ey - e' /\ e' <= exp_of (mx * 2 ^ (ex - ey - e') / my) e'.
Proof.
  intros Hx Hy e'.
  assert (He' : e' = Z.min (Z.max (Zdigits2 mx + ex - (Zdigits2 my + ey) - 53) (-1074)) (ex - ey))
    by reflexivity.
  clearbody e'.
  assert (Hs : 0 <= ex - ey - e') by lia.
  split; [exact Hs|].
  remember (ex - ey - e') as s eqn:Es.
  pose proof (pow2_pos s Hs) as Ps.
  pose proof (digits_bounds mx Hx) as [Lx Ux]. pose proof (digits_bounds my Hy) as [Ly Uy].
  pose proof (digits_pos mx Hx) as Dx. pose proof (digits_pos my Hy) as Dy.
  remember (Zdigits2 mx) as dx eqn:Edx. remember (Zdigits2 my) as dy eqn:Edy.
  remember (mx * 2 ^ s / my) as q eqn:Eq.
  assert (Hq0 : 0 <= q) by (subst q; apply Z.div_pos; nia).
  assert (Hd : dx + s - dy <= Zdigits2 q).
  { destruct (Z_le_gt_dec (dx + s - dy) 0) as [L|G].
    - pose proof (digits_nonneg q). lia.
    - apply digits_ge_iff; [lia|lia|]. subst q.
      apply Z.div_le_lower_bound; [lia|].
      assert (M : my * 2 ^ (dx + s - dy - 1) <= 2 ^ dy * 2 ^ (dx + s - dy - 1)).
      { apply Z.mul_le_mono_nonneg_r; [apply Z.lt_le_incl, pow2_pos|]; lia. }
      rewrite <- Z.pow_add_r in M by lia.
      replace (dy + (dx + s - dy - 1)) with (dx - 1 + s) in M by lia.
      rewrite Z.pow_add_r in M by lia. nia. }
  rewrite exp_of_eq. lia.
Qed.

Lemma shift_case m s :
  0 <= s ->
  match s with
  | 0 => m
  | Z.pos _ => Z.shiftl m s
  | Z.neg _ => 0
  end = m * 2 ^ s.
Proof.
  intros Hs. destruct s as [|p|p]; cbv iota; try lia.
  apply Z.shiftl_mul_pow2. lia.
Qed.

Lemma div_finite_ord mx ex my ey :
  SFdiv 53 1024 (S754_finite false mx ex) (S754_finite false my ey) =
  float_of_ord false (round_div (Z.pos mx) ex (Z.pos my) ey).
Proof.
  pose proof (div_pre (Z.pos mx) ex (Z.pos my) ey ltac:(lia) ltac:(lia)) as [Hs Hp].
  cbv zeta in Hs, Hp.
  unfold round_div. cbn [SFdiv xorb]. unfold SFdiv_core_binary. zstd.
  fold (div_exp (Z.pos mx) ex (Z.pos my) ey).
  set (e' := div_exp (Z.pos mx) ex (Z.pos my) ey) in *.
  set (s := ex - ey - e') in *.
  assert (Hm : match s with
               | 0 => Z.pos mx
               | Z.pos _ => Z.shiftl (Z.pos mx) s
               | Z.neg _ => 0
               end = Z.pos mx * 2 ^ s).
  { apply shift_case. exact Hs. }
  rewrite Hm.
  pose proof (pow2_pos s Hs) as Ps.
  destruct (Z.div_eucl (Z.pos mx * 2 ^ s) (Z.pos my)) as [q r] eqn:Ed.
  assert (Hq : q = Z.pos mx * 2 ^ s / Z.pos my) by (unfold Z.div; rewrite Ed; reflexivity).
  assert (Hr : r = (Z.pos mx * 2 ^ s) mod Z.pos my) by (unfold Z.modulo; rewrite Ed; reflexivity).
  subst q r. rewrite new_location_loc by nia.
  apply bra_ord; (nia || exact Hp).
Qed.

Lemma round_div_nonneg mx ex my ey : 0 < mx -> 0 < my -> 0 <= round_div mx ex my ey.
Proof.
  intros Hx Hy. pose proof (div_pre mx ex my ey Hx Hy) as [Hs Hp]. cbv zeta in Hs, Hp.
  unfold round_div. pose proof (pow2_pos _ Hs). apply round_ord_nonneg; (nia || exact Hp).
Qed.

Lemma round_div_anti md ed m1 e1 m2 e2 :
  0 < md ->
  bounded 53 1024 m1 e1 = true -> bounded 53 1024 m2 e2 = true ->
  ordinal (S754_finite false m1 e1) <= ordinal (S754_finite false m2 e2) ->
  round_div md ed (Z.pos m2) e2 <= round_div md ed (Z.pos m1) e1.
Proof.
  intros Hd B1 B2 Hle.
  pose proof (div_pre md ed (Z.pos m1) e1 Hd ltac:(lia)) as [Hs1 Hp1].
  pose proof (div_pre md ed (Z.pos m2) e2 Hd ltac:(lia)) as [Hs2 Hp2].
  cbv zeta in Hs1, Hp1, Hs2, Hp2. unfold round_div.
  set (x1 := div_exp md ed (Z.pos m1) e1) in *. set (x2 := div_exp md ed (Z.pos m2) e2) in *.
  pose proof (pow2_pos _ Hs1). pose proof (pow2_pos _ Hs2).
  set (c := Z.min x1 x2).
  apply (round_ord_mono _ _ _ _ _ _ c); try nia; try lia; try assumption.
  pose proof (ordinal_le_value m1 e1 m2 e2 (e1 + e2 + c - ed) B1 B2 ltac:(lia) ltac:(lia) Hle) as V.
  replace (e1 - (e1 + e2 + c - ed)) with (ed - e2 - c) in V by lia.
  replace (e2 - (e1 + e2 + c - ed)) with (ed - e1 - c) in V by lia.
  replace (md * 2 ^ (ed - e2 - x2) * Z.pos m1 * 2 ^ (x2 - c))
    with (md * (Z.pos m1 * (2 ^ (ed - e2 - x2) * 2 ^ (x2 - c)))) by lia.
  replace (md * 2 ^ (ed - e1 - x1) * Z.pos m2 * 2 ^ (x1 - c))
    with (md * (Z.pos m2 * (2 ^ (ed - e1 - x1) * 2 ^ (x1 - c)))) by lia.
  rewrite <- !Z.pow_add_r by lia.
  replace (ed - e2 - x2 + (x2 - c)) with (ed - e2 - c) by lia.
  replace (ed - e1 - x1 + (x1 - c)) with (ed - e1 - c) by lia.
  nia.
Qed.

(** * Monotonicity of the operations on non-negative numbers *)

Lemma ordinal_round o : 0 <= o -> 0 <= ordinal (float_of_ord false o) <= ord_inf.
Proof.
  intros Ho. rewrite ordinal_float_of_ord by exact Ho.
  unfold ord_inf. assert (0 < 2 ^ 52) by (apply pow2_pos; lia). lia.
Qed.

Lemma ordinal_round_mono o1 o2 :
  0 <= o1 -> o1 <= o2 -> ordinal (float_of_ord false o1) <= ordinal (float_of_ord false o2).
Proof. intros H1 H2. rewrite !ordinal_float_of_ord by lia. lia. Qed.

Lemma round_dy_id m e :
  bounded 53 1024 m e = true -> round_dy (Z.pos m) e = ordinal (S754_finite false m e).
Proof.
  intros B. apply bounded_spec in B. destruct B as (_ & _ & _ & HE).
  rewrite round_dy_exact by lia. unfold round_ord. rewrite Z.div_1_r, HE, Z.sub_diag.
  change (1 * 2 ^ 0) with 1. rewrite jam_exact, rne_exact. reflexivity.
Qed.

Lemma nonneg_finite_bounded s m e : nonneg (S754_finite s m e) = true -> s = false /\ bounded 53 1024 m e = true.
Proof. destruct s; simpl; [discriminate|auto]. Qed.

Lemma nonneg_inf s : nonneg (S754_infinity s) = true -> s = false.
Proof. destruct s; simpl; [discriminate|auto]. Qed.

(** Multiplication *)
Lemma mul_nonneg x y :
  nonneg x = true -> nonneg y = true ->
  SFmul 53 1024 x y = S754_nan \/ nonneg (SFmul 53 1024 x y) = true.
Proof.
  intros Hx Hy.
  destruct x as [sx|sx| |sx mx ex]; destruct y as [sy|sy| |sy my ey]; try discriminate;
    try (apply nonneg_inf in Hx; subst sx); try (apply nonneg_inf in Hy; subst sy);
    try (apply nonneg_finite_bounded in Hx; destruct Hx as [-> Bx]);
    try (apply nonneg_finite_bounded in Hy; destruct Hy as [-> By]);
    try (left; reflexivity); try (right; reflexivity).
  right. rewrite mul_finite_ord by assumption. apply nonneg_float_of_ord, round_dy_nonneg. lia.
Qed.

Ltac ord_facts :=
  repeat match goal with
         | H : nonneg (S754_finite ?s ?m ?e) = true |- _ =>
             lazymatch goal with
             | _ : 0 < ordinal (S754_finite s m e) |- _ => fail
             | _ => pose proof (nonneg_finite_pos s m e H);
                    pose proof (nonneg_finite_lt_inf s m e H)
             end
         end.

Ltac nan_case :=
  exfalso;
  match goal with
  | N : ?x <> S754_nan |- _ => apply N; reflexivity
  end.

Ltac ord_case :=
  cbn [SFmul SFdiv SFadd ordinal] in *; unfold ord_inf in *; lia.

Lemma mul_mono_r x t1 t2 :
  nonneg x = true -> nonneg t1 = true -> nonneg t2 = true ->
  ordinal t1 <= ordinal t2 ->
  SFmul 53 1024 x t1 <> S754_nan -> SFmul 53 1024 x t2 <> S754_nan ->
  ordinal (SFmul 53 1024 x t1) <= ordinal (SFmul 53 1024 x t2).
Proof.
  intros Hx H1 H2 Hle N1 N2.
  destruct (mul_nonneg x t1 Hx H1) as [?|M1]; [contradiction|].
  destruct (mul_nonneg x t2 Hx H2) as [?|M2]; [contradiction|].
  pose proof (nonneg_ordinal_bounds _ M1) as P1. pose proof (nonneg_ordinal_bounds _ M2) as P2.
  destruct x as [sx|sx| |sx mx ex]; destruct t1 as [s1|s1| |s1 m1 e1];
    destruct t2 as [s2|s2| |s2 m2 e2]; try discriminate; try nan_case;
    ord_facts; try solve [ord_case].
  apply nonneg_finite_bounded in Hx, H1, H2.
  destruct Hx as [-> Bx]. destruct H1 as [-> B1]. destruct H2 as [-> B2].
  rewrite !mul_finite_ord by assumption.
  apply ordinal_round_mono; [apply round_dy_nonneg; lia|].
  pose proof (bounded_spec _ _ B1) as S1. pose proof (bounded_spec _ _ B2) as S2.
  pose proof (bounded_spec _ _ Bx) as Sx.
  apply (round_dy_mono _ _ _ _ (ex - 3000)); unfold emin; try lia.
  pose proof (ordinal_le_value m1 e1 m2 e2 (-3000) B1 B2 ltac:(lia) ltac:(lia) Hle) as V.
  replace (ex + e1 - (ex - 3000)) with (e1 - -3000) by lia.
  replace (ex + e2 - (ex - 3000)) with (e2 - -3000) by lia.
  nia.
Qed.

Lemma mul_comm x y : SFmul 53 1024 x y = SFmul 53 1024 y x.
Proof.
  destruct x as [sx|sx| |sx mx ex]; destruct y as [sy|sy| |sy my ey]; cbn [SFmul];
    rewrite ?(xorb_comm sx sy); try reflexivity.
  rewrite (Pos.mul_comm mx my), (Z.add_comm ex ey). reflexivity.
Qed.

Lemma mul_mono_l x1 x2 t :
  nonneg t = true -> nonneg x1 = true -> nonneg x2 = true ->
  ordinal x1 <= ordinal x2 ->
  SFmul 53 1024 x1 t <> S754_nan -> SFmul 53 1024 x2 t <> S754_nan ->
  ordinal (SFmul 53 1024 x1 t) <= ordinal (SFmul 53 1024 x2 t).
Proof.
  intros. rewrite (mul_comm x1 t), (mul_comm x2 t) in *. apply mul_mono_r; assumption.
Qed.

(** Division *)
Lemma div_nonneg x y :
  nonneg x = true -> nonneg y = true -> 0 < ordinal y ->
  SFdiv 53 1024 x y = S754_nan \/ nonneg (SFdiv 53 1024 x y) = true.
Proof.
  intros Hx Hy Hpos.
  destruct x as [sx|sx| |sx mx ex]; destruct y as [sy|sy| |sy my ey]; try discriminate;
    try (cbn [ordinal] in Hpos; lia);
    try (apply nonneg_inf in Hx; subst sx); try (apply nonneg_inf in Hy; subst sy);
    try (apply nonneg_finite_bounded in Hx; destruct Hx as [-> Bx]);
    try (apply nonneg_finite_bounded in Hy; destruct Hy as [-> By]);
    try (left; reflexivity); try (right; reflexivity).
  right. rewrite div_finite_ord. apply nonneg_float_of_ord, round_div_nonneg; lia.
Qed.

Lemma div_anti x s1 s2 :
  nonneg x = true -> nonneg s1 = true -> nonneg s2 = true ->
  0 < ordinal s1 -> ordinal s1 <= ordinal s2 ->
  SFdiv 53 1024 x s1 <> S754_nan -> SFdiv 53 1024 x s2 <> S754_nan ->
  ordinal (SFdiv 53 1024 x s2) <= ordinal (SFdiv 53 1024 x s1).
Proof.
  intros Hx H1 H2 Hpos Hle N1 N2.
  destruct (div_nonneg x s1 Hx H1 Hpos) as [?|M1]; [contradiction|].
  destruct (div_nonneg x s2 Hx H2 ltac:(lia)) as [?|M2]; [contradiction|].
  pose proof (nonneg_ordinal_bounds _ M1) as P1. pose proof (nonneg_ordinal_bounds _ M2) as P2.
  destruct x as [sx|sx| |sx mx ex]; destruct s1 as [a1|a1| |a1 m1 e1];
    destruct s2 as [a2|a2| |a2 m2 e2]; try discriminate; try nan_case;
    ord_facts; try solve [ord_case].
  apply nonneg_finite_bounded in Hx, H1, H2.
  destruct Hx as [-> Bx]. destruct H1 as [-> B1]. destruct H2 as [-> B2].
  rewrite !div_finite_ord.
  apply ordinal_round_mono; [apply round_div_nonneg; lia|].
  apply round_div_anti; try assumption; lia.
Qed.

(** Addition *)
Lemma add_nonneg x y : nonneg x = true -> nonneg y = true -> nonneg (SFadd 53 1024 x y) = true.
Proof.
  intros Hx Hy.
  destruct x as [sx|sx| |sx mx ex]; destruct y as [sy|sy| |sy my ey]; try discriminate;
    try (apply nonneg_inf in Hx; subst sx); try (apply nonneg_inf in Hy; subst sy);
    try (apply nonneg_finite_bounded in Hx; destruct Hx as [-> Bx]);
    try (apply nonneg_finite_bounded in Hy; destruct Hy as [-> By]);
    try reflexivity; try assumption.
  - destruct sx, sy; reflexivity.
  - rewrite add_finite_ord. apply nonneg_float_of_ord, round_dy_nonneg.
    pose proof (pow2_pos (ex - Z.min ex ey) ltac:(lia)).
    pose proof (pow2_pos (ey - Z.min ex ey) ltac:(lia)). nia.
Qed.

Lemma add_finite_ge mx ex my ey :
  bounded 53 1024 my ey = true ->
  ordinal (S754_finite false my ey) <=
  ordinal (SFadd 53 1024 (S754_finite false mx ex) (S754_finite false my ey)).
Proof.
  intros By. pose proof (nonneg_finite_lt_inf false my ey By) as Hlt.
  rewrite add_finite_ord.
  pose proof (pow2_pos (ex - Z.min ex ey) ltac:(lia)) as Px.
  pose proof (pow2_pos (ey - Z.min ex ey) ltac:(lia)) as Py.
  rewrite ordinal_float_of_ord by (apply round_dy_nonneg; nia).
  rewrite <- (round_dy_id my ey By) in *.
  apply bounded_spec in By.
  assert (round_dy (Z.pos my) ey <=
          round_dy (Z.pos mx * 2 ^ (ex - Z.min ex ey) + Z.pos my * 2 ^ (ey - Z.min ex ey)) (Z.min ex ey)); [|lia].
  apply (round_dy_mono _ _ _ _ (Z.min (Z.min ex ey) emin)); unfold emin; try nia; try lia.
  set (z := Z.min ex ey) in *. set (c := Z.min z (-1074)).
  replace (ey - c) with (ey - z + (z - c)) by lia.
  rewrite Z.pow_add_r by lia.
  pose proof (pow2_pos (z - c) ltac:(lia)). nia.
Qed.

Lemma add_mono_l x1 x2 y :
  nonneg x1 = true -> nonneg x2 = true -> nonneg y = true ->
  ordinal x1 <= ordinal x2 ->
  ordinal (SFadd 53 1024 x1 y) <= ordinal (SFadd 53 1024 x2 y).
Proof.
  intros H1 H2 Hy Hle.
  pose proof (nonneg_ordinal_bounds _ (add_nonneg x1 y H1 Hy)) as P1.
  pose proof (nonneg_ordinal_bounds _ (add_nonneg x2 y H2 Hy)) as P2.
  destruct y as [sy|sy| |sy my ey]; destruct x1 as [s1|s1| |s1 m1 e1];
    destruct x2 as [s2|s2| |s2 m2 e2]; try discriminate;
    try (apply nonneg_inf in Hy; subst sy); try (apply nonneg_inf in H1; subst s1);
    try (apply nonneg_inf in H2; subst s2);
    ord_facts; try solve [ord_case]; try solve [destruct s1, s2, sy; ord_case].
  - (* 0 + y <= x2 + y *)
    apply nonneg_finite_bounded in Hy, H2. destruct Hy as [-> By]. destruct H2 as [-> B2].
    change (SFadd 53 1024 (S754_zero s1) (S754_finite false my ey)) with (S754_finite false my ey).
    apply add_finite_ge. exact By.
  - apply nonneg_finite_bounded in Hy, H1, H2.
    destruct Hy as [-> By]. destruct H1 as [-> B1]. destruct H2 as [-> B2].
    rewrite !add_finite_ord.
    pose proof (bounded_spec _ _ B1) as S1. pose proof (bounded_spec _ _ B2) as S2.
    pose proof (bounded_spec _ _ By) as Sy.
    pose proof (pow2_pos (e1 - Z.min e1 ey) ltac:(lia)).
    pose proof (pow2_pos (ey - Z.min e1 ey) ltac:(lia)).
    pose proof (pow2_pos (e2 - Z.min e2 ey) ltac:(lia)).
    pose proof (pow2_pos (ey - Z.min e2 ey) ltac:(lia)).
    apply ordinal_round_mono; [apply round_dy_nonneg; nia|].
    apply (round_dy_mono _ _ _ _ (-1074)); unfold emin; try nia; try lia.
    pose proof (ordinal_le_value m1 e1 m2 e2 (-1074) B1 B2 ltac:(lia) ltac:(lia) Hle) as V.
    rewrite !Z.mul_add_distr_r, <- !Z.mul_assoc, <- !Z.pow_add_r by lia.
    replace (e1 - Z.min e1 ey + (Z.min e1 ey - -1074)) with (e1 - -1074) by lia.
    replace (ey - Z.min e1 ey + (Z.min e1 ey - -1074)) with (ey - -1074) by lia.
    replace (e2 - Z.min e2 ey + (Z.min e2 ey - -1074)) with (e2 - -1074) by lia.
    replace (ey - Z.min e2 ey + (Z.min e2 ey - -1074)) with (ey - -1074) by lia.
    lia.
Qed.

(** Conversion of integers *)
Lemma of_Z_nonneg n : 0 <= n -> nonneg (binary_normalize 53 1024 n 0 false) = true.
Proof.
  intros Hn. destruct (Z.eq_dec n 0) as [->|Hz]; [reflexivity|].
  rewrite of_Z_ord by lia. apply nonneg_float_of_ord, round_dy_nonneg. lia.
Qed.

Lemma of_Z_mono n1 n2 :
  0 <= n1 <= n2 ->
  ordinal (binary_normalize 53 1024 n1 0 false) <= ordinal (binary_normalize 53 1024 n2 0 false).
Proof.
  intros [H1 H2].
  pose proof (nonneg_ordinal_bounds _ (of_Z_nonneg n2 ltac:(lia))).
  destruct (Z.eq_dec n1 0) as [->|Hz]; [cbn [binary_normalize ordinal]; lia|].
  rewrite !of_Z_ord by lia.
  apply ordinal_round_mono; [apply round_dy_nonneg; lia|].
  assert (0 < 2 ^ (0 - -1074)) by (apply pow2_pos; lia).
  apply (round_dy_mono _ _ _ _ (-1074)); unfold emin; nia.
Qed.

(** ** Signs: the same rounding, negated *)

Lemma float_of_ord_cases sx o :
  0 <= o ->
  (ord_inf <= o /\ float_of_ord sx o = S754_infinity sx) \/
  (o < ord_inf /\ B64.is_finite (float_of_ord sx o) = true).
Proof.
  intros Ho. unfold float_of_ord, ord_inf.
  assert (P : 0 < 2 ^ 52) by (apply pow2_pos; lia).
  destruct (Z.eqb_spec o 0) as [->|Hz]; [right; split; [lia|reflexivity]|].
  destruct (Z.ltb_spec o (2 ^ 52)) as [Hs|Hs].
  - right. change (emin <=? 971) with true. split; [lia|reflexivity].
  - pose proof (Z.div_mod o (2 ^ 52) ltac:(lia)) as D.
    pose proof (Z.mod_pos_bound o (2 ^ 52) P) as R.
    destruct (Z.leb_spec (emin + o / 2 ^ 52 - 1) 971) as [Hf|Hf]; unfold emin in *.
    + right. split; [lia|reflexivity].
    + left. split; [lia|reflexivity].
Qed.

Lemma float_of_ord_shape sx o :
  0 < o < ord_inf ->
  exists m e, float_of_ord sx o = S754_finite sx m e /\ bounded 53 1024 m e = true.
Proof.
  intros Ho. pose proof (nonneg_float_of_ord o ltac:(lia)) as N.
  destruct (float_of_ord_cases false o ltac:(lia)) as [[? ?]|[_ F]]; [lia|].
  unfold float_of_ord in *.
  destruct (Z.eqb_spec o 0); [lia|].
  match goal with
  | |- context [if ?c then S754_finite _ ?m ?e else _] =>
      destruct c; [exists m, e; split; [reflexivity|exact N]|discriminate F]
  end.
Qed.

Lemma of_Z_sign r :
  r <> 0 -> B64.of_Z r = float_of_ord (r <? 0) (round_dy (Z.abs r) 0).
Proof.
  intros Hr. unfold B64.of_Z. destruct r as [|p|p]; [contradiction| |];
    cbn [binary_normalize]; apply binary_round_ord.
Qed.

Lemma mul_finite_sign sx mx ex sy my ey :
  bounded 53 1024 mx ex = true -> bounded 53 1024 my ey = true ->
  SFmul 53 1024 (S754_finite sx mx ex) (S754_finite sy my ey) =
  float_of_ord (xorb sx sy) (round_dy (Z.pos mx * Z.pos my) (ex + ey)).
Proof.
  intros Bx By. pose proof (mul_pre mx ex my ey Bx By) as Hp.
  rewrite round_dy_exact by (lia || exact Hp).
  cbn [SFmul]. rewrite Pos2Z.inj_mul. apply bra_exact; [lia|exact Hp].
Qed.

(** ** The calculator, case by case *)

Lemma simulate_wetness_eq s d r :
  simulate_wetness s d r =
  if B64.is_zero s then Raise ZeroDivisionError
  else match float_of_int r with
       | Ok rf => Ok (wetness_value s d rf)
       | Raise e => Raise e
       end.
Proof.
  unfold simulate_wetness, truediv, int_mul, wetness_value.
  destruct (B64.is_zero s); [reflexivity|]. cbn [bind].
  destruct (float_of_int r); reflexivity.
Qed.

Lemma top_area_eq : top_area = S754_finite false 7505999378950827 (-52).
Proof. vm_compute. reflexivity. Qed.

Lemma front_area_eq : front_area = S754_finite false 5473124547151644 (-49).
Proof. vm_compute. reflexivity. Qed.

Lemma nonneg_top_area : nonneg top_area = true.
Proof. vm_compute. reflexivity. Qed.

Lemma nonneg_front_area : nonneg front_area = true.
Proof. vm_compute. reflexivity. Qed.

(** [float(n)] fails exactly from the threshold on. *)
Lemma float_of_int_spec r :
  float_of_int r =
  if float_overflow_threshold <=? Z.abs r then Raise OverflowError else Ok (B64.of_Z r).
Proof.
  unfold float_of_int.
  destruct (Z.eq_dec r 0) as [->|Hr]; [reflexivity|].
  rewrite (of_Z_sign r Hr).
  assert (Ha : 0 < Z.abs r) by lia.
  pose proof (round_dy_nonneg (Z.abs r) 0 Ha) as Ho.
  assert (P : 0 < 2 ^ (0 - -1074)) by (apply pow2_pos; lia).
  destruct (Z.leb_spec float_overflow_threshold (Z.abs r)) as [Hbig|Hsmall].
  - assert (Hm : round_dy float_overflow_threshold 0 <= round_dy (Z.abs r) 0).
    { apply (round_dy_mono _ _ _ _ (-1074)); unfold emin; try lia.
      vm_compute. reflexivity. }
    assert (Ht : ord_inf <= round_dy float_overflow_threshold 0)
      by (vm_compute; discriminate).
    destruct (float_of_ord_cases (r <? 0) _ Ho) as [[_ ->]|[? _]]; [reflexivity|lia].
  - assert (Hm : round_dy (Z.abs r) 0 <= round_dy (float_overflow_threshold - 1) 0).
    { apply (round_dy_mono _ _ _ _ (-1074)); unfold emin; lia. }
    assert (Ht : round_dy (float_overflow_threshold - 1) 0 < ord_inf)
      by (vm_compute; reflexivity).
    destruct (float_of_ord_cases (r <? 0) _ Ho) as [[? _]|[_ F]]; [lia|].
    destruct (float_of_ord (r <? 0) (round_dy (Z.abs r) 0)); try reflexivity; discriminate F.
Qed.

(** ** Non-negative inputs *)

Lemma leb_zero_nonneg x :
  B64.valid x = true -> B64.leb B64.zero x = true -> nonneg x = true.
Proof.
  destruct x as [s|s| |s m e]; try reflexivity; try discriminate;
    destruct s; try discriminate; try reflexivity.
  intros V _. exact V.
Qed.

Lemma ltb_zero_pos x :
  B64.valid x = true -> B64.ltb B64.zero x = true -> nonneg x = true /\ 0 < ordinal x.
Proof.
  assert (P : 0 < 2 ^ 52) by (apply pow2_pos; lia).
  destruct x as [s|s| |s m e]; try discriminate; destruct s; try discriminate.
  - intros _ _. split; [reflexivity|]. cbn [ordinal]. unfold ord_inf. lia.
  - intros V _. split; [exact V|]. apply (nonneg_finite_pos false m e V).
Qed.

Lemma ltb_pos_nonneg a b :
  nonneg a = true -> 0 < ordinal a -> B64.valid b = true -> B64.ltb a b = true ->
  nonneg b = true /\ ordinal a < ordinal b.
Proof.
  intros Na Pa Vb L.
  assert (Nb : nonneg b = true).
  { destruct a as [sa|sa| |sa ma ea]; try discriminate; try (cbn [ordinal] in Pa; lia);
      destruct b as [sb|sb| |sb mb eb]; try discriminate;
      destruct sa; try discriminate; destruct sb; try discriminate; try reflexivity.
    exact Vb. }
  split; [exact Nb|].
  unfold B64.ltb in L. rewrite (ltb_ordinal a b Na Nb) in L. apply Z.ltb_lt. exact L.
Qed.

Lemma nonneg_leb_zero w : nonneg w = true -> B64.leb B64.zero w = true.
Proof.
  intros N. unfold B64.leb. rewrite (leb_ordinal B64.zero w eq_refl N).
  apply Z.leb_le. pose proof (nonneg_ordinal_bounds w N). cbn [ordinal B64.zero]. lia.
Qed.

Lemma nonneg_not_nan x : nonneg x = true -> x <> S754_nan.
Proof. intros N ->. discriminate N. Qed.

Lemma is_nan_false x : B64.is_nan x = false -> x <> S754_nan.
Proof. intros H ->. discriminate H. Qed.

Lemma add_not_nan x y : SFadd 53 1024 x y <> S754_nan -> x <> S754_nan /\ y <> S754_nan.
Proof.
  intros H. split; intros ->; apply H; [reflexivity|]. destruct x; reflexivity.
Qed.

Lemma mul_not_nan x y : SFmul 53 1024 x y <> S754_nan -> x <> S754_nan /\ y <> S754_nan.
Proof.
  intros H. split; intros ->; apply H; [reflexivity|]. destruct x; reflexivity.
Qed.


Lemma of_int_nonneg r : 0 <= r -> nonneg (B64.of_Z r) = true.
Proof. exact (of_Z_nonneg r). Qed.

(** Every intermediate value of a run on non-negative inputs is
    non-negative, unless the result is NaN. *)
Lemma wetness_parts s d rf :
  nonneg s = true -> 0 < ordinal s -> nonneg d = true -> nonneg rf = true ->
  wetness_value s d rf <> S754_nan ->
  nonneg (B64.div d s) = true /\
  nonneg (B64.mul rf top_area) = true /\
  nonneg (B64.mul (B64.mul rf top_area) (B64.div d s)) = true /\
  nonneg (B64.mul (B64.mul rf front_area) d) = true.
Proof.
  intros Ns Ps Nd Nr Hw. unfold wetness_value in Hw.
  change B64.add with (SFadd 53 1024) in *. change B64.mul with (SFmul 53 1024) in *.
  change B64.div with (SFdiv 53 1024) in *.
  apply add_not_nan in Hw. destruct Hw as [HA HB].
  pose proof (mul_not_nan _ _ HA) as [HRt Ht].
  pose proof (mul_not_nan _ _ HB) as [HRf _].
  destruct (div_nonneg d s Nd Ns Ps) as [?|Nt]; [contradiction|].
  destruct (mul_nonneg rf top_area Nr nonneg_top_area) as [?|NRt]; [contradiction|].
  destruct (mul_nonneg rf front_area Nr nonneg_front_area) as [?|NRf]; [contradiction|].
  destruct (mul_nonneg _ _ NRt Nt) as [?|NA]; [contradiction|].
  destruct (mul_nonneg _ _ NRf Nd) as [?|NB]; [contradiction|].
  auto.
Qed.

Lemma add_zero_l y : nonneg y = true -> ordinal (SFadd 53 1024 (S754_zero false) y) = ordinal y.
Proof. destruct y as [s|s| |s m e]; try discriminate; try reflexivity. destruct s; reflexivity. Qed.

(** A run that returns: the density converts, and the result is the
    value of the formula. *)
Lemma simulate_wetness_ok s d r w :
  simulate_wetness s d r = Ok w ->
  B64.is_zero s = false /\ float_of_int r = Ok (B64.of_Z r) /\
  w = wetness_value s d (B64.of_Z r).
Proof.
  rewrite simulate_wetness_eq, float_of_int_spec.
  destruct (B64.is_zero s); [discriminate|].
  destruct (float_overflow_threshold <=? Z.abs r); [discriminate|].
  intros H. injection H as <-. auto.
Qed.

(** The products of the density and the two areas stay finite for
    densities up to [10^307] in magnitude. *)
Lemma small_density_area r area :
  Z.abs r <= 10 ^ 307 ->
  nonneg area = true -> B64.is_finite area = true ->
  ordinal (SFmul 53 1024 (B64.of_Z (10 ^ 307)) area) < ord_inf ->
  B64.is_finite (B64.mul (B64.of_Z r) area) = true.
Proof.
  intros Hr Na Fa Hmax.
  change B64.mul with (SFmul 53 1024).
  destruct (Z.eq_dec r 0) as [->|Hz].
  { destruct area as [s|s| |s m e]; try discriminate Fa; reflexivity. }
  assert (Habs : 0 < Z.abs r) by lia.
  pose proof (of_Z_mono (Z.abs r) (10 ^ 307) ltac:(lia)) as Hm.
  assert (Hbig : ordinal (binary_normalize 53 1024 (10 ^ 307) 0 false) < ord_inf)
    by (vm_compute; reflexivity).
  rewrite (of_Z_ord (Z.abs r) Habs) in Hm.
  pose proof (round_dy_nonneg (Z.abs r) 0 Habs) as Ho.
  rewrite ordinal_float_of_ord in Hm by exact Ho.
  assert (Hpos : 0 < round_dy (Z.abs r) 0).
  { assert (round_dy 1 0 <= round_dy (Z.abs r) 0).
    { assert (0 < 2 ^ (0 - -1074)) by (apply pow2_pos; lia).
      apply (round_dy_mono _ _ _ _ (-1074)); unfold emin; nia. }
    assert (0 < round_dy 1 0) by (vm_compute; reflexivity). lia. }
  destruct (float_of_ord_shape (r <? 0) (round_dy (Z.abs r) 0) ltac:(lia)) as (m & e & Hs & Bm).
  destruct (float_of_ord_shape false (round_dy (Z.abs r) 0) ltac:(lia)) as (m' & e' & Hs' & Bm').
  assert (Hme : m' = m /\ e' = e).
  { unfold float_of_ord in Hs, Hs'.
    destruct (round_dy (Z.abs r) 0 =? 0); [discriminate|].
    match type of Hs with
    | (if ?c then _ else _) = _ => destruct c; [|discriminate]
    end.
    injection Hs as <- <-. injection Hs' as <- <-. auto. }
  destruct Hme as [-> ->].
  rewrite (of_Z_sign r Hz), Hs.
  destruct area as [sa|sa| |sa ma ea]; try discriminate Fa; [reflexivity|].
  apply nonneg_finite_bounded in Na. destruct Na as [-> Ba].
  rewrite mul_finite_sign by assumption.
  (* the positive product is below the product at 10^307 *)
  assert (Hle : ordinal (SFmul 53 1024 (S754_finite false m e) (S754_finite false ma ea)) <=
                ordinal (SFmul 53 1024 (B64.of_Z (10 ^ 307)) (S754_finite false ma ea))).
  { apply mul_mono_l; try assumption; try reflexivity.
    - rewrite <- Hs'. rewrite ordinal_float_of_ord by exact Ho.
      change (B64.of_Z (10 ^ 307)) with (binary_normalize 53 1024 (10 ^ 307) 0 false). lia.
    - rewrite mul_finite_ord by assumption. apply float_of_ord_nan.
    - assert (Hb : exists m0 e0, B64.of_Z (10 ^ 307) = S754_finite false m0 e0 /\
                                 bounded 53 1024 m0 e0 = true)
        by (eexists; eexists; split; vm_compute; reflexivity).
      destruct Hb as (m0 & e0 & -> & B0).
      rewrite mul_finite_ord by assumption. apply float_of_ord_nan. }
  rewrite mul_finite_ord in Hle by assumption.
  assert (Hq : 0 <= round_dy (Z.pos m * Z.pos ma) (e + ea)) by (apply round_dy_nonneg; lia).
  rewrite ordinal_float_of_ord in Hle by exact Hq.
  destruct (float_of_ord_cases (xorb (r <? 0) false) _ Hq) as [[? _]|[_ F]]; [lia|exact F].
Qed.

Lemma small_density_finite r :
  Z.abs r <= 10 ^ 307 ->
  B64.is_finite (B64.mul (B64.of_Z r) top_area) = true /\
  B64.is_finite (B64.mul (B64.of_Z r) front_area) = true.
Proof.
  intros Hr. split; apply small_density_area; try assumption;
    try (vm_compute; reflexivity).
Qed.

Lemma div_zero_l d s :
  B64.is_zero d = true -> B64.is_zero s = false -> B64.is_nan s = false ->
  B64.is_zero (B64.div d s) = true.
Proof. destruct d; try discriminate. destruct s; try discriminate; reflexivity. Qed.

Lemma mul_finite_zero x z :
  B64.is_finite x = true -> B64.is_zero z = true -> B64.is_zero (B64.mul x z) = true.
Proof. destruct z; try discriminate. destruct x; try discriminate; reflexivity. Qed.

Lemma add_zero_zero x y :
  B64.is_zero x = true -> B64.is_zero y = true -> B64.is_zero (B64.add x y) = true.
Proof.
  destruct x as [sx| | |]; try discriminate. destruct y as [sy| | |]; try discriminate.
  destruct sx, sy; reflexivity.
Qed.

(** ** The error of one rounding *)

Lemma jam_split a b :
  0 <= a -> 0 < b ->
  jam (2 * a) b =
  4 * (a / b) + (if a mod b =? 0 then 0 else
                 match 2 * (a mod b) ?= b with Lt => 1 | Eq => 2 | Gt => 3 end).
Proof.
  intros Ha Hb.
  pose proof (Z.div_mod a b ltac:(lia)) as D. pose proof (Z.mod_pos_bound a b Hb) as R.
  set (q := a / b) in *. set (r := a mod b) in *. clearbody q r.
  unfold jam. destruct (Z.compare_spec (2 * r) b) as [C|C|C].
  - assert (Hq : 2 * a / b = 2 * q + 1).
    { symmetry. apply (Z.div_unique _ _ _ 0); lia. }
    assert (Hm : 2 * a mod b = 0).
    { symmetry. apply (Z.mod_unique _ _ (2 * q + 1)); lia. }
    rewrite Hq, Hm. destruct (Z.eqb_spec r 0); simpl; lia.
  - assert (Hq : 2 * a / b = 2 * q).
    { symmetry. apply (Z.div_unique _ _ _ (2 * r)); lia. }
    assert (Hm : 2 * a mod b = 2 * r).
    { symmetry. apply (Z.mod_unique _ _ (2 * q)); lia. }
    rewrite Hq, Hm. destruct (Z.eqb_spec r 0); destruct (Z.eqb_spec (2 * r) 0); lia.
  - assert (Hq : 2 * a / b = 2 * q + 1).
    { symmetry. apply (Z.div_unique _ _ _ (2 * r - b)); lia. }
    assert (Hm : 2 * a mod b = 2 * r - b).
    { symmetry. apply (Z.mod_unique _ _ (2 * q + 1)); lia. }
    rewrite Hq, Hm. destruct (Z.eqb_spec r 0); destruct (Z.eqb_spec (2 * r - b) 0); lia.
Qed.

(** Rounding to nearest moves a quotient by at most one half. *)
Lemma rne_jam_err a b :
  0 <= a -> 0 < b -> Z.abs (2 * rne (jam (2 * a) b) * b - 2 * a) <= b.
Proof.
  intros Ha Hb. rewrite (jam_split a b Ha Hb).
  pose proof (Z.div_mod a b ltac:(lia)) as D. pose proof (Z.mod_pos_bound a b Hb) as R.
  set (q := a / b) in *. set (r := a mod b) in *. clearbody q r.
  unfold rne.
  destruct (Z.eqb_spec r 0) as [Hr|Hr].
  - replace (4 * q + 0) with (q * 4) by lia. rewrite Z.div_mul, Z.mod_mul by lia.
    cbn. nia.
  - destruct (Z.compare_spec (2 * r) b) as [C|C|C].
    + assert (Dq : (4 * q + 2) / 4 = q) by (symmetry; apply (Z.div_unique _ _ _ 2); lia).
      rewrite Dq, add_mod4 by lia. cbn. destruct (Z.even q); nia.
    + assert (Dq : (4 * q + 1) / 4 = q) by (symmetry; apply (Z.div_unique _ _ _ 1); lia).
      rewrite Dq, add_mod4 by lia. cbn. nia.
    + assert (Dq : (4 * q + 3) / 4 = q) by (symmetry; apply (Z.div_unique _ _ _ 3); lia).
      rewrite Dq, add_mod4 by lia. cbn. nia.
Qed.

(** Powers of two as rationals *)
Lemma pow2Q_pos e : (0 < pow2Q e)%Q.
Proof. unfold pow2Q. apply Qpower_0_lt. reflexivity. Qed.

Lemma pow2Q_add a b : (pow2Q (a + b) == pow2Q a * pow2Q b)%Q.
Proof. unfold pow2Q. apply Qpower_plus. discriminate. Qed.

Lemma pow2Q_Z k : 0 <= k -> (pow2Q k == inject_Z (2 ^ k))%Q.
Proof. intros Hk. unfold pow2Q. rewrite Zpower_Qpower by exact Hk. reflexivity. Qed.

Lemma pow2Q_succ e : (pow2Q (e + 1) == 2 * pow2Q e)%Q.
Proof. rewrite pow2Q_add. change (pow2Q 1) with 2%Q. ring. Qed.

(** The finite float at a given ordinal. *)
Lemma float_of_ord_decode sx o :
  0 < o < ord_inf ->
  exists m e, float_of_ord sx o = S754_finite sx m e /\
    ((o < 2 ^ 52 /\ e = emin /\ Z.pos m = o) \/
     (2 ^ 52 <= o /\ e = emin + o / 2 ^ 52 - 1 /\ Z.pos m = o mod 2 ^ 52 + 2 ^ 52)).
Proof.
  intros Ho. assert (P : 0 < 2 ^ 52) by (apply pow2_pos; lia).
  destruct (float_of_ord_cases sx o ltac:(lia)) as [[? _]|[_ F]]; [lia|].
  unfold float_of_ord in *.
  destruct (Z.eqb_spec o 0); [lia|].
  destruct (Z.ltb_spec o (2 ^ 52)) as [L|L].
  - change (emin <=? 971) with true. cbv iota.
    exists (Z.to_pos o), emin. split; [reflexivity|]. left. rewrite Z2Pos.id by lia. auto.
  - pose proof (Z.mod_pos_bound o (2 ^ 52) P).
    destruct (emin + o / 2 ^ 52 - 1 <=? 971); [|discriminate F].
    exists (Z.to_pos (o mod 2 ^ 52 + 2 ^ 52)), (emin + o / 2 ^ 52 - 1).
    split; [reflexivity|]. right. rewrite Z2Pos.id by lia. auto.
Qed.

Lemma F2Q_float_of_ord E k :
  emin <= E -> 0 <= k <= 2 ^ 53 -> (emin < E -> 2 ^ 52 <= k) ->
  (E - emin) * 2 ^ 52 + k < ord_inf ->
  (F2Q (float_of_ord false ((E - emin) * 2 ^ 52 + k)) == inject_Z k * pow2Q E)%Q.
Proof.
  intros HE Hk Hn Ho. assert (P : 0 < 2 ^ 52) by (apply pow2_pos; lia).
  change (2 ^ 53) with (2 * 2 ^ 52) in Hk.
  set (o := (E - emin) * 2 ^ 52 + k) in *.
  destruct (Z.eq_dec o 0) as [Hz|Hz].
  - rewrite Hz. assert (k = 0) by (unfold o in Hz; nia). subst k.
    unfold float_of_ord. change (0 =? 0) with true. cbn [F2Q].
    change (inject_Z 0) with 0%Q. ring.
  - destruct (float_of_ord_decode false o ltac:(unfold o in *; nia)) as (m & e & -> & [(L & -> & Hm)|(L & -> & Hm)]).
    + cbn [F2Q]. rewrite Hm.
      assert (E = emin) by (unfold o in *; nia). subst E.
      assert (o = k) by (unfold o; lia). rewrite H. ring.
    + cbn [F2Q]. rewrite Hm.
      destruct (Z.eq_dec k (2 * 2 ^ 52)) as [Hk2|Hk2].
      * assert (Hq : o / 2 ^ 52 = E - emin + 2).
        { symmetry. apply (Z.div_unique _ _ _ 0); unfold o; lia. }
        assert (Hr : o mod 2 ^ 52 = 0).
        { symmetry. apply (Z.mod_unique _ _ (E - emin + 2)); unfold o; lia. }
        rewrite Hq, Hr, Hk2.
        replace (emin + (E - emin + 2) - 1) with (E + 1) by lia.
        rewrite pow2Q_succ. change (0 + 2 ^ 52) with (2 ^ 52).
        rewrite inject_Z_mult. change (inject_Z 2) with 2%Q. ring.
      * assert (Hk52 : 2 ^ 52 <= k).
        { destruct (Z_le_gt_dec E emin); [unfold o in L; nia|apply Hn; lia]. }
        assert (Hq : o / 2 ^ 52 = E - emin + 1).
        { symmetry. apply (Z.div_unique _ _ _ (k - 2 ^ 52)); unfold o; lia. }
        assert (Hr : o mod 2 ^ 52 = k - 2 ^ 52).
        { symmetry. apply (Z.mod_unique _ _ (E - emin + 1)); unfold o; lia. }
        rewrite Hq, Hr.
        replace (emin + (E - emin + 1) - 1) with E by lia.
        replace (k - 2 ^ 52 + 2 ^ 52) with k by lia. ring.
Qed.

Lemma Qabs_le_iff (x y : Q) : (Qabs x <= y <-> - y <= x <= y)%Q.
Proof. apply Qabs_Qle_condition. Qed.

(** From the integer bounds to the relative error of a quotient. *)
Lemma quotient_error (k a B : Z) :
  0 < B -> Z.abs (2 * k * B - 2 * a) <= B -> 2 ^ 52 * B <= a ->
  (Qabs (inject_Z k - inject_Z a / inject_Z B) <= u53 * (inject_Z a / inject_Z B))%Q.
Proof.
  intros HB H1 H2.
  assert (H1a : 2 * k * B <= B + 2 * a) by lia.
  assert (H1b : 2 * a <= B + 2 * k * B) by lia.
  rewrite Zle_Qle in H1a, H1b, H2.
  repeat first [rewrite inject_Z_plus in H1a | rewrite inject_Z_mult in H1a].
  repeat first [rewrite inject_Z_plus in H1b | rewrite inject_Z_mult in H1b].
  repeat first [rewrite inject_Z_plus in H2 | rewrite inject_Z_mult in H2].
  assert (HBq : (0 < inject_Z B)%Q) by (rewrite Zlt_Qlt in HB; exact HB).
  set (kq := inject_Z k) in *. set (aq := inject_Z a) in *. set (Bq := inject_Z B) in *.
  change (inject_Z 2) with 2%Q in *.
  change (inject_Z (2 ^ 52)) with 4503599627370496%Q in *.
  assert (Hy : (aq / Bq * Bq == aq)%Q) by (field; lra).
  set (y := (aq / Bq)%Q) in *. clearbody y kq aq Bq.
  apply Qabs_le_iff. unfold u53.
  split; apply (Qmult_le_r _ _ Bq HBq).
  - assert (E1 : (- ((1 # 9007199254740992) * y) * Bq == - (1 # 9007199254740992) * aq)%Q)
      by (rewrite <- Hy; ring).
    assert (E2 : ((kq - y) * Bq == kq * Bq - aq)%Q) by (rewrite <- Hy; ring).
    rewrite E1, E2. lra.
  - assert (E1 : ((1 # 9007199254740992) * y * Bq == (1 # 9007199254740992) * aq)%Q)
      by (rewrite <- Hy; ring).
    assert (E2 : ((kq - y) * Bq == kq * Bq - aq)%Q) by (rewrite <- Hy; ring).
    rewrite E1, E2. lra.
Qed.

Lemma scale_error (k y p : Q) :
  (0 < p)%Q -> (Qabs (k - y) <= u53 * y)%Q ->
  (Qabs (k * p - y * p) <= u53 * (y * p))%Q.
Proof.
  intros Hp H. apply Qabs_le_iff in H. destruct H as [Hl Hu]. apply Qabs_le_iff.
  split.
  - assert (E : (- (u53 * (y * p)) == (- (u53 * y)) * p)%Q) by ring.
    assert (E' : (k * p - y * p == (k - y) * p)%Q) by ring.
    rewrite E, E'. apply Qmult_le_compat_r; [exact Hl|lra].
  - assert (E : (u53 * (y * p) == (u53 * y) * p)%Q) by ring.
    assert (E' : (k * p - y * p == (k - y) * p)%Q) by ring.
    rewrite E, E'. apply Qmult_le_compat_r; [exact Hu|lra].
Qed.

(** The float at [round_ord a b e] is within [2^-53], relatively, of
    [a/b * 2^e], as soon as it is a normal number. *)
Lemma round_ord_error a b e :
  0 <= a -> 0 < b -> e <= exp_of (a / b) e ->
  round_ord a b e < ord_inf ->
  emin < exp_of (a / b) e \/ 2 ^ 52 < round_ord a b e ->
  (Qabs (F2Q (float_of_ord false (round_ord a b e)) - inject_Z a / inject_Z b * pow2Q e)
   <= u53 * (inject_Z a / inject_Z b * pow2Q e))%Q.
Proof.
  intros Ha Hb He Ho Hn.
  pose proof (shifted_lt a b e Ha Hb He) as Hlt.
  pose proof (shifted_ge a b e Ha Hb He) as Hge.
  pose proof (exp_of_ge_emin (a / b) e) as HEmin.
  unfold round_ord in *. set (E := exp_of (a / b) e) in *.
  pose proof (pow2_pos (E - e) ltac:(lia)) as Pn.
  set (B := b * 2 ^ (E - e)) in *.
  assert (HB : 0 < B) by (unfold B; nia).
  set (k := rne (jam (2 * a) B)) in *.
  pose proof (rne_bounds (jam (2 * a) B)) as Kb. fold k in Kb.
  rewrite jam_div4 in Kb by exact HB.
  assert (H0 : 0 <= a / B) by (apply Z.div_pos; lia).
  assert (P : 0 < 2 ^ 52) by (apply pow2_pos; lia).
  pose proof (rne_jam_err a B Ha HB) as I1. fold k in I1.
  assert (I2 : 2 ^ 52 * B <= a).
  { pose proof (Z.mul_div_le a B HB).
    destruct (Z_le_gt_dec E emin) as [L|G].
    - assert (E = emin) by lia. destruct Hn as [?|Hn]; [lia|].
      assert (2 ^ 52 + 1 <= k) by lia. nia.
    - specialize (Hge ltac:(lia)). nia. }
  rewrite F2Q_float_of_ord by lia.
  assert (Hx : (inject_Z a / inject_Z b * pow2Q e == inject_Z a / inject_Z B * pow2Q E)%Q).
  { assert (HP : (pow2Q E == pow2Q e * inject_Z (2 ^ (E - e)))%Q).
    { rewrite <- (pow2Q_Z (E - e)) by lia. rewrite <- pow2Q_add.
      replace (e + (E - e)) with E by lia. reflexivity. }
    rewrite HP. unfold B. rewrite inject_Z_mult.
    assert ((0 < inject_Z b)%Q) by (rewrite Zlt_Qlt in Hb; exact Hb).
    assert ((0 < inject_Z (2 ^ (E - e)))%Q) by (rewrite Zlt_Qlt in Pn; exact Pn).
    field. split; lra. }
  rewrite Hx. apply scale_error; [apply pow2Q_pos|].
  apply quotient_error; assumption.
Qed.

Lemma Qabs_zero_le (x y : Q) : (x == y)%Q -> (0 <= y)%Q -> (Qabs (x - y) <= u53 * y)%Q.
Proof.
  intros E Hy. apply Qabs_le_iff. unfold u53. split; lra.
Qed.

Lemma shift_value a e z :
  z <= e -> (inject_Z (a * 2 ^ (e - z)) * pow2Q z == inject_Z a * pow2Q e)%Q.
Proof.
  intros Hz. rewrite inject_Z_mult, <- (pow2Q_Z (e - z)) by lia.
  rewrite <- Qmult_assoc, <- pow2Q_add. replace (e - z + z) with e by lia. reflexivity.
Qed.

(** Rounding a dyadic number whose exponent is not below [emin]: the
    result is exact in the subnormal range and within [2^-53] above. *)
Lemma round_dy_error a e :
  0 < a -> emin <= e -> round_dy a e < ord_inf ->
  (Qabs (F2Q (float_of_ord false (round_dy a e)) - inject_Z a * pow2Q e)
   <= u53 * (inject_Z a * pow2Q e))%Q.
Proof.
  intros Ha He Ho. unfold round_dy in *.
  pose proof (round_dy_pre a e Ha) as [Hk HE]. cbv zeta in Hk, HE.
  pose proof (exp_of_ge_emin a e) as Hmin.
  set (z := Z.min e (exp_of a e)) in *.
  pose proof (pow2_pos (e - z) Hk) as Pk.
  assert (Ha' : 0 <= a * 2 ^ (e - z)) by nia.
  assert (Hpre : z <= exp_of (a * 2 ^ (e - z) / 1) z) by (rewrite Z.div_1_r, HE; unfold z; lia).
  rewrite <- (shift_value a e z) by (unfold z; lia).
  destruct (Z_le_gt_dec (exp_of a e) emin) as [L|G].
  - (* subnormal: nothing is lost *)
    assert (Hz : z = emin) by (unfold z; lia).
    assert (Hx : exp_of (a * 2 ^ (e - z) / 1) z = emin) by (rewrite Z.div_1_r, HE; lia).
    pose proof (shifted_lt (a * 2 ^ (e - z)) 1 z Ha' ltac:(lia) Hpre) as Hlt.
    unfold round_ord in *. rewrite Hx, Hz in *.
    rewrite Z.sub_diag in *. change (1 * 2 ^ 0) with 1 in *.
    rewrite Z.div_1_r in Hlt. rewrite jam_exact, rne_exact in *.
    apply Qabs_zero_le.
    + rewrite <- Hz at 1 3. rewrite <- Hx at 1.
      change (exp_of (a * 2 ^ (e - z) / 1) z - emin) with (exp_of (a * 2 ^ (e - z) / 1) z - emin).
      rewrite Hx, Hz. apply (F2Q_float_of_ord emin); try lia.
    + apply Qmult_le_0_compat; [|apply Qlt_le_weak, pow2Q_pos].
      change 0%Q with (inject_Z 0). rewrite <- Zle_Qle. lia.
  - pose proof (round_ord_error (a * 2 ^ (e - z)) 1 z Ha' ltac:(lia) Hpre Ho) as Herr.
    assert (Hd : (inject_Z (a * 2 ^ (e - z)) / inject_Z 1 * pow2Q z ==
                  inject_Z (a * 2 ^ (e - z)) * pow2Q z)%Q).
    { change (inject_Z 1) with 1%Q. field. }
    rewrite Hd in Herr. apply Herr. left. rewrite Z.div_1_r, HE. unfold emin in *. lia.
Qed.

Lemma F2Q_finite m e : (F2Q (S754_finite false m e) == inject_Z (Z.pos m) * pow2Q e)%Q.
Proof. cbn [F2Q]. ring. Qed.

Lemma F2Q_nonneg x : nonneg x = true -> (0 <= F2Q x)%Q.
Proof.
  destruct x as [s|s| |s m e]; cbn [F2Q]; try lra. destruct s; [discriminate|]. intros _.
  pose proof (pow2Q_pos e). assert ((0 < inject_Z (Z.pos m))%Q) by reflexivity.
  assert ((0 <= inject_Z (Z.pos m) * pow2Q e)%Q) by (apply Qmult_le_0_compat; lra). lra.
Qed.

(** A product that is a normal number is within [2^-53] of the exact
    product. *)
Lemma mul_error mx ex my ey :
  bounded 53 1024 mx ex = true -> bounded 53 1024 my ey = true ->
  let x := S754_finite false mx ex in
  let y := S754_finite false my ey in
  2 ^ 52 < ordinal (SFmul 53 1024 x y) < ord_inf ->
  (Qabs (F2Q (SFmul 53 1024 x y) - F2Q x * F2Q y) <= u53 * (F2Q x * F2Q y))%Q.
Proof.
  intros Bx By x y Hr. unfold x, y in *.
  pose proof (mul_pre mx ex my ey Bx By) as Hp.
  rewrite mul_finite_ord in * by assumption.
  rewrite round_dy_exact in * by (lia || exact Hp).
  assert (Ho : 0 <= round_ord (Z.pos mx * Z.pos my) 1 (ex + ey)).
  { apply round_ord_nonneg; try lia. rewrite Z.div_1_r. exact Hp. }
  rewrite ordinal_float_of_ord in Hr by exact Ho.
  pose proof (round_ord_error (Z.pos mx * Z.pos my) 1 (ex + ey) ltac:(lia) ltac:(lia)
                ltac:(rewrite Z.div_1_r; exact Hp) ltac:(lia) ltac:(right; lia)) as Herr.
  assert (Hd : (inject_Z (Z.pos mx * Z.pos my) / inject_Z 1 * pow2Q (ex + ey) ==
                F2Q (S754_finite false mx ex) * F2Q (S754_finite false my ey))%Q).
  { rewrite !F2Q_finite, inject_Z_mult, pow2Q_add. change (inject_Z 1) with 1%Q. field. }
  rewrite Hd in Herr. exact Herr.
Qed.

(** A finite sum of two positive numbers is within [2^-53] of the
    exact sum. *)
Lemma add_error mx ex my ey :
  bounded 53 1024 mx ex = true -> bounded 53 1024 my ey = true ->
  let x := S754_finite false mx ex in
  let y := S754_finite false my ey in
  ordinal (SFadd 53 1024 x y) < ord_inf ->
  (Qabs (F2Q (SFadd 53 1024 x y) - (F2Q x + F2Q y)) <= u53 * (F2Q x + F2Q y))%Q.
Proof.
  intros Bx By x y Hr. unfold x, y in *.
  pose proof (bounded_spec _ _ Bx) as Sx. pose proof (bounded_spec _ _ By) as Sy.
  rewrite add_finite_ord in *.
  set (z := Z.min ex ey) in *.
  pose proof (pow2_pos (ex - z) ltac:(unfold z; lia)) as Px.
  pose proof (pow2_pos (ey - z) ltac:(unfold z; lia)) as Py.
  set (S := Z.pos mx * 2 ^ (ex - z) + Z.pos my * 2 ^ (ey - z)) in *.
  assert (HS : 0 < S) by (unfold S; nia).
  rewrite ordinal_float_of_ord in Hr by (apply round_dy_nonneg; exact HS).
  pose proof (round_dy_error S z HS ltac:(unfold z, emin; lia) ltac:(lia)) as Herr.
  assert (Hd : (inject_Z S * pow2Q z ==
                F2Q (S754_finite false mx ex) + F2Q (S754_finite false my ey))%Q).
  { unfold S. rewrite inject_Z_plus, Qmult_plus_distr_l.
    rewrite (shift_value (Z.pos mx) ex z), (shift_value (Z.pos my) ey z) by (unfold z; lia).
    rewrite !F2Q_finite. reflexivity. }
  rewrite Hd in Herr. exact Herr.
Qed.

(** ** Ranges of the operations *)

Lemma round_div_mono m1 e1 m2 e2 md ed :
  0 < md ->
  bounded 53 1024 m1 e1 = true -> bounded 53 1024 m2 e2 = true ->
  ordinal (S754_finite false m1 e1) <= ordinal (S754_finite false m2 e2) ->
  round_div (Z.pos m1) e1 md ed <= round_div (Z.pos m2) e2 md ed.
Proof.
  intros Hd B1 B2 Hle.
  pose proof (div_pre (Z.pos m1) e1 md ed ltac:(lia) Hd) as [Hs1 Hp1].
  pose proof (div_pre (Z.pos m2) e2 md ed ltac:(lia) Hd) as [Hs2 Hp2].
  cbv zeta in Hs1, Hp1, Hs2, Hp2. unfold round_div.
  set (x1 := div_exp (Z.pos m1) e1 md ed) in *. set (x2 := div_exp (Z.pos m2) e2 md ed) in *.
  pose proof (pow2_pos _ Hs1). pose proof (pow2_pos _ Hs2).
  set (c := Z.min x1 x2).
  apply (round_ord_mono _ _ _ _ _ _ c); try nia; try lia; try assumption.
  pose proof (ordinal_le_value m1 e1 m2 e2 (ed + c) B1 B2 ltac:(lia) ltac:(lia) Hle) as V.
  replace (Z.pos m1 * 2 ^ (e1 - ed - x1) * md * 2 ^ (x1 - c))
    with (md * (Z.pos m1 * (2 ^ (e1 - ed - x1) * 2 ^ (x1 - c)))) by lia.
  replace (Z.pos m2 * 2 ^ (e2 - ed - x2) * md * 2 ^ (x2 - c))
    with (md * (Z.pos m2 * (2 ^ (e2 - ed - x2) * 2 ^ (x2 - c)))) by lia.
  rewrite <- !Z.pow_add_r by lia.
  replace (e1 - ed - x1 + (x1 - c)) with (e1 - (ed + c)) by lia.
  replace (e2 - ed - x2 + (x2 - c)) with (e2 - (ed + c)) by lia.
  nia.
Qed.

Lemma div_mono_l x1 x2 s :
  nonneg x1 = true -> nonneg x2 = true -> nonneg s = true -> 0 < ordinal s ->
  ordinal x1 <= ordinal x2 ->
  SFdiv 53 1024 x1 s <> S754_nan -> SFdiv 53 1024 x2 s <> S754_nan ->
  ordinal (SFdiv 53 1024 x1 s) <= ordinal (SFdiv 53 1024 x2 s).
Proof.
  intros H1 H2 Hs Hpos Hle N1 N2.
  destruct (div_nonneg x1 s H1 Hs Hpos) as [?|M1]; [contradiction|].
  destruct (div_nonneg x2 s H2 Hs Hpos) as [?|M2]; [contradiction|].
  pose proof (nonneg_ordinal_bounds _ M1) as P1. pose proof (nonneg_ordinal_bounds _ M2) as P2.
  destruct s as [ss|ss| |ss ms es]; destruct x1 as [s1|s1| |s1 m1 e1];
    destruct x2 as [s2|s2| |s2 m2 e2]; try discriminate; try nan_case;
    ord_facts; try solve [ord_case].
  apply nonneg_finite_bounded in Hs, H1, H2.
  destruct Hs as [-> Bs]. destruct H1 as [-> B1]. destruct H2 as [-> B2].
  rewrite !div_finite_ord.
  apply ordinal_round_mono; [apply round_div_nonneg; lia|].
  apply round_div_mono; try assumption; lia.
Qed.

Lemma add_comm x y :
  nonneg x = true -> nonneg y = true -> SFadd 53 1024 x y = SFadd 53 1024 y x \/
  (B64.is_zero x = true /\ B64.is_zero y = true).
Proof.
  intros Hx Hy.
  destruct x as [sx|sx| |sx mx ex]; destruct y as [sy|sy| |sy my ey]; try discriminate;
    try (right; split; reflexivity); left; try reflexivity.
  - apply nonneg_inf in Hx, Hy. subst. reflexivity.
  - apply nonneg_finite_bounded in Hx, Hy. destruct Hx as [-> _]. destruct Hy as [-> _].
    cbn [SFadd cond_Zopp]. rewrite (Z.min_comm ey ex).
    rewrite (Z.add_comm (Z.pos (fst (shl_align my ey (Z.min ex ey))))). reflexivity.
Qed.

Lemma add_mono_r x y1 y2 :
  nonneg x = true -> nonneg y1 = true -> nonneg y2 = true ->
  ordinal y1 <= ordinal y2 ->
  ordinal (SFadd 53 1024 x y1) <= ordinal (SFadd 53 1024 x y2).
Proof.
  intros Hx H1 H2 Hle.
  pose proof (add_mono_l y1 y2 x H1 H2 Hx Hle) as M.
  assert (C : forall y, nonneg y = true ->
              ordinal (SFadd 53 1024 x y) = ordinal (SFadd 53 1024 y x)).
  { intros y Hy. destruct (add_comm x y Hx Hy) as [->|[Zx Zy]]; [reflexivity|].
    destruct x; try discriminate. destruct y; try discriminate.
    destruct s, s0; reflexivity. }
  rewrite (C y1 H1), (C y2 H2). exact M.
Qed.

Lemma posfin_shape x :
  posfin x -> exists m e, x = S754_finite false m e /\ bounded 53 1024 m e = true.
Proof.
  intros [N [L U]]. destruct x as [s|s| |s m e]; try discriminate N;
    try (cbn [ordinal] in L, U; lia).
  apply nonneg_finite_bounded in N. destruct N as [-> B]. eauto.
Qed.

Lemma within_posfin l u x : posfin l -> posfin u -> within l u x -> posfin x.
Proof. intros [_ [Ll _]] [_ [_ Uu]] [N [L U]]. split; [exact N|lia]. Qed.

Lemma posfin_mul_not_nan x y : posfin x -> posfin y -> SFmul 53 1024 x y <> S754_nan.
Proof.
  intros Hx Hy. destruct (posfin_shape x Hx) as (mx & ex & -> & Bx).
  destruct (posfin_shape y Hy) as (my & ey & -> & By).
  rewrite mul_finite_ord by assumption. apply float_of_ord_nan.
Qed.

Lemma posfin_div_not_nan x y : posfin x -> posfin y -> SFdiv 53 1024 x y <> S754_nan.
Proof.
  intros Hx Hy. destruct (posfin_shape x Hx) as (mx & ex & -> & Bx).
  destruct (posfin_shape y Hy) as (my & ey & -> & By).
  rewrite div_finite_ord. apply float_of_ord_nan.
Qed.

Lemma mul_within l1 u1 x l2 u2 y :
  posfin l1 -> posfin u1 -> posfin l2 -> posfin u2 ->
  within l1 u1 x -> within l2 u2 y ->
  within (SFmul 53 1024 l1 l2) (SFmul 53 1024 u1 u2) (SFmul 53 1024 x y).
Proof.
  intros Pl1 Pu1 Pl2 Pu2 Wx Wy.
  pose proof (within_posfin _ _ _ Pl1 Pu1 Wx) as Px.
  pose proof (within_posfin _ _ _ Pl2 Pu2 Wy) as Py.
  destruct Wx as [Nx [Lx Ux]]. destruct Wy as [Ny [Ly Uy]].
  split.
  - destruct (mul_nonneg x y Nx Ny) as [E|N]; [|exact N].
    exfalso. exact (posfin_mul_not_nan x y Px Py E).
  - split.
    + transitivity (ordinal (SFmul 53 1024 x l2)).
      * apply mul_mono_l; try assumption; try apply Pl1; try apply Pl2;
          apply posfin_mul_not_nan; assumption.
      * apply mul_mono_r; try assumption; try apply Pl2;
          apply posfin_mul_not_nan; assumption.
    + transitivity (ordinal (SFmul 53 1024 x u2)).
      * apply mul_mono_r; try assumption; try apply Pu2;
          apply posfin_mul_not_nan; assumption.
      * apply mul_mono_l; try assumption; try apply Pu1; try apply Pu2;
          apply posfin_mul_not_nan; assumption.
Qed.

Lemma div_within l1 u1 x l2 u2 y :
  posfin l1 -> posfin u1 -> posfin l2 -> posfin u2 ->
  within l1 u1 x -> within l2 u2 y ->
  within (SFdiv 53 1024 l1 u2) (SFdiv 53 1024 u1 l2) (SFdiv 53 1024 x y).
Proof.
  intros Pl1 Pu1 Pl2 Pu2 Wx Wy.
  pose proof (within_posfin _ _ _ Pl1 Pu1 Wx) as Px.
  pose proof (within_posfin _ _ _ Pl2 Pu2 Wy) as Py.
  destruct Wx as [Nx [Lx Ux]]. destruct Wy as [Ny [Ly Uy]].
  split.
  - destruct (div_nonneg x y Nx Ny ltac:(apply Py)) as [E|N]; [|exact N].
    exfalso. exact (posfin_div_not_nan x y Px Py E).
  - split.
    + transitivity (ordinal (SFdiv 53 1024 x u2)).
      * apply div_mono_l; try assumption; try apply Pl1; try apply Pu2;
          apply posfin_div_not_nan; assumption.
      * apply div_anti; try assumption; try apply Pu2; try apply Py;
          apply posfin_div_not_nan; assumption.
    + transitivity (ordinal (SFdiv 53 1024 x l2)).
      * apply div_anti; try assumption; try apply Pl2;
          apply posfin_div_not_nan; assumption.
      * apply div_mono_l; try assumption; try apply Pu1; try apply Pl2;
          apply posfin_div_not_nan; assumption.
Qed.

Lemma add_within l1 u1 x l2 u2 y :
  posfin l1 -> posfin u1 -> posfin l2 -> posfin u2 ->
  within l1 u1 x -> within l2 u2 y ->
  within (SFadd 53 1024 l1 l2) (SFadd 53 1024 u1 u2) (SFadd 53 1024 x y).
Proof.
  intros Pl1 Pu1 Pl2 Pu2 Wx Wy.
  destruct Wx as [Nx [Lx Ux]]. destruct Wy as [Ny [Ly Uy]].
  split; [apply add_nonneg; assumption|]. split.
  - transitivity (ordinal (SFadd 53 1024 x l2)).
    + apply add_mono_l; try assumption; try apply Pl1; apply Pl2.
    + apply add_mono_r; try assumption; apply Pl2.
  - transitivity (ordinal (SFadd 53 1024 x u2)).
    + apply add_mono_r; try assumption; apply Pu2.
    + apply add_mono_l; try assumption; try apply Pu1; apply Pu2.
Qed.

Lemma of_Z_within lo hi r :
  0 <= lo -> lo <= r <= hi -> within (B64.of_Z lo) (B64.of_Z hi) (B64.of_Z r).
Proof.
  intros Hlo Hr. split; [apply of_int_nonneg; lia|].
  split; apply of_Z_mono; lia.
Qed.

(** An input between the two ends of the range. *)
Lemma leb_within l u x :
  posfin l -> nonneg u = true -> B64.valid x = true ->
  B64.leb l x = true -> B64.leb x u = true -> within l u x.
Proof.
  intros Pl Nu V Hl Hu.
  assert (N : nonneg x = true).
  { destruct (posfin_shape l Pl) as (ml & el & -> & _).
    destruct x as [s|s| |s m e]; try discriminate; try reflexivity;
      destruct s; try discriminate; try reflexivity. exact V. }
  unfold B64.leb in *.
  rewrite leb_ordinal in Hl, Hu by (assumption || apply Pl).
  apply Z.leb_le in Hl, Hu. split; [exact N|lia].
Qed.

(** Subtraction of a smaller positive number *)
Lemma sub_finite_ord mx ex my ey :
  bounded 53 1024 mx ex = true -> bounded 53 1024 my ey = true ->
  ordinal (S754_finite false my ey) <= ordinal (S754_finite false mx ex) ->
  let z := Z.min ex ey in
  let D := Z.pos mx * 2 ^ (ex - z) - Z.pos my * 2 ^ (ey - z) in
  0 <= D /\
  SFsub 53 1024 (S754_finite false mx ex) (S754_finite false my ey) =
  if D =? 0 then S754_zero false else float_of_ord false (round_dy D z).
Proof.
  intros Bx By Hle z D.
  pose proof (ordinal_le_value my ey mx ex z By Bx ltac:(unfold z; lia) ltac:(unfold z; lia) Hle) as V.
  assert (HD : 0 <= D) by (unfold D; lia).
  split; [exact HD|].
  cbn [SFsub cond_Zopp].
  pose proof (shl_align_spec mx ex (Z.min ex ey)) as [_ Hx].
  pose proof (shl_align_spec my ey (Z.min ex ey)) as [_ Hy].
  replace (Z.min ex (Z.min ex ey)) with z in Hx by (unfold z; lia).
  replace (Z.min ey (Z.min ex ey)) with z in Hy by (unfold z; lia).
  zstd. fold z in Hx, Hy |- *. rewrite Hx, Hy. fold D.
  destruct D as [|p|p] eqn:ED; try lia; cbn [binary_normalize Z.eqb].
  - reflexivity.
  - apply binary_round_ord.
Qed.

Lemma sub_error mx ex my ey :
  bounded 53 1024 mx ex = true -> bounded 53 1024 my ey = true ->
  let x := S754_finite false mx ex in
  let y := S754_finite false my ey in
  ordinal y <= ordinal x ->
  (0 <= F2Q x - F2Q y)%Q /\
  (Qabs (F2Q (SFsub 53 1024 x y) - (F2Q x - F2Q y)) <= u53 * (F2Q x - F2Q y))%Q.
Proof.
  intros Bx By x y Hle. unfold x, y in *.
  pose proof (bounded_spec _ _ Bx) as Sx. pose proof (bounded_spec _ _ By) as Sy.
  pose proof (nonneg_finite_lt_inf false mx ex Bx) as Hfin.
  destruct (sub_finite_ord mx ex my ey Bx By Hle) as [HD ->]. cbv zeta in *.
  set (z := Z.min ex ey) in *.
  pose proof (pow2_pos (ex - z) ltac:(unfold z; lia)) as Px.
  pose proof (pow2_pos (ey - z) ltac:(unfold z; lia)) as Py.
  set (D := Z.pos mx * 2 ^ (ex - z) - Z.pos my * 2 ^ (ey - z)) in *.
  assert (Hd : (inject_Z D * pow2Q z ==
                F2Q (S754_finite false mx ex) - F2Q (S754_finite false my ey))%Q).
  { unfold D. unfold Z.sub. rewrite inject_Z_plus, inject_Z_opp.
    assert (E : ((inject_Z (Z.pos mx * 2 ^ (ex + - z)) + - inject_Z (Z.pos my * 2 ^ (ey + - z))) * pow2Q z ==
                 inject_Z (Z.pos mx * 2 ^ (ex - z)) * pow2Q z - inject_Z (Z.pos my * 2 ^ (ey - z)) * pow2Q z)%Q)
      by (unfold Z.sub; ring).
    rewrite E.
    rewrite (shift_value (Z.pos mx) ex z), (shift_value (Z.pos my) ey z) by (unfold z; lia).
    rewrite !F2Q_finite. reflexivity. }
  assert (Hpos : (0 <= inject_Z D * pow2Q z)%Q).
  { apply Qmult_le_0_compat; [|apply Qlt_le_weak, pow2Q_pos].
    change 0%Q with (inject_Z 0). rewrite <- Zle_Qle. exact HD. }
  split; [rewrite <- Hd; exact Hpos|].
  rewrite <- Hd.
  destruct (Z.eqb_spec D 0) as [E0|E0].
  - apply Qabs_zero_le; [|exact Hpos]. rewrite E0. cbn [F2Q].
    change (inject_Z 0) with 0%Q. ring.
  - assert (HDp : 0 < D) by lia.
    apply round_dy_error; [exact HDp|unfold z, emin; lia|].
    assert (M : round_dy D z <= round_dy (Z.pos mx) ex).
    { apply (round_dy_mono _ _ _ _ (-1074)); unfold emin, z; try lia.
      replace (ex - -1074) with ((ex - z) + (z - -1074)) by lia.
      rewrite Z.pow_add_r by (unfold z; lia).
      pose proof (pow2_pos (z - -1074) ltac:(unfold z; lia)).
      fold z. unfold D. nia. }
    rewrite (round_dy_id mx ex Bx) in M. lia.
Qed.

(** The same bounds for positive finite operands *)
Lemma mul_rel x y :
  posfin x -> posfin y ->
  2 ^ 52 < ordinal (SFmul 53 1024 x y) < ord_inf ->
  rel (F2Q (SFmul 53 1024 x y)) (F2Q x * F2Q y).
Proof.
  intros Hx Hy. destruct (posfin_shape x Hx) as (mx & ex & -> & Bx).
  destruct (posfin_shape y Hy) as (my & ey & -> & By0).
  apply mul_error; assumption.
Qed.

Lemma add_rel x y :
  posfin x -> posfin y ->
  ordinal (SFadd 53 1024 x y) < ord_inf ->
  rel (F2Q (SFadd 53 1024 x y)) (F2Q x + F2Q y).
Proof.
  intros Hx Hy. destruct (posfin_shape x Hx) as (mx & ex & -> & Bx).
  destruct (posfin_shape y Hy) as (my & ey & -> & By0).
  apply add_error; assumption.
Qed.

Lemma sub_rel x y :
  posfin x -> posfin y -> ordinal y <= ordinal x ->
  (0 <= F2Q x - F2Q y)%Q /\ rel (F2Q (SFsub 53 1024 x y)) (F2Q x - F2Q y).
Proof.
  intros Hx Hy. destruct (posfin_shape x Hx) as (mx & ex & -> & Bx).
  destruct (posfin_shape y Hy) as (my & ey & -> & By0).
  apply sub_error; assumption.
Qed.

Lemma within_normal l u x :
  within l u x -> 2 ^ 52 < ordinal l -> ordinal u < ord_inf ->
  2 ^ 52 < ordinal x < ord_inf.
Proof. intros [_ [L U]] Hl Hu. lia. Qed.

(** ** Compositions of rounding errors *)

Lemma rel_bounds x y :
  rel x y -> ((1 - u53) * y <= x /\ x <= (1 + u53) * y)%Q.
Proof. unfold rel. intros H. apply Qabs_le_iff in H. destruct H. split; lra. Qed.

(** The two sides of the scaling law are both within three roundings
    of [R * (p * t + q * d)]. *)
Lemma linearity_bound (R p q t d P1 A1 Q1 B1 w1 A2 B2 w0 w2 : Q) :
  (0 <= R)%Q -> (0 <= p)%Q -> (0 <= q)%Q -> (0 <= t)%Q -> (0 <= d)%Q ->
  rel P1 (R * p) -> rel A1 (P1 * t) -> rel Q1 (R * q) -> rel B1 (Q1 * d) ->
  rel w1 (A1 + B1) ->
  rel A2 (p * t) -> rel B2 (q * d) -> rel w0 (A2 + B2) -> rel w2 (R * w0) ->
  (Qabs (w1 - w2) <= (1 # 2 ^ 50) * w2)%Q.
Proof.
  intros HR Hp Hq Ht Hd HP1 HA1 HQ1 HB1 Hw1 HA2 HB2 Hw0 Hw2.
  apply rel_bounds in HP1, HA1, HQ1, HB1, Hw1, HA2, HB2, Hw0, Hw2.
  unfold u53 in *.
  assert (M1 : (0 <= R * p * t)%Q) by (repeat apply Qmult_le_0_compat; assumption).
  assert (M2 : (0 <= R * q * d)%Q) by (repeat apply Qmult_le_0_compat; assumption).
  destruct HP1 as [L U].
  pose proof (Qmult_le_compat_r _ _ t L Ht) as LP. pose proof (Qmult_le_compat_r _ _ t U Ht) as UP.
  destruct HQ1 as [L' U'].
  pose proof (Qmult_le_compat_r _ _ d L' Hd) as LQ. pose proof (Qmult_le_compat_r _ _ d U' Hd) as UQ.
  assert (L0 : ((1 - (1 # 9007199254740992)) * ((1 - (1 # 9007199254740992)) * (p * t + q * d)) <= w0)%Q) by lra.
  assert (U0 : (w0 <= (1 + (1 # 9007199254740992)) * ((1 + (1 # 9007199254740992)) * (p * t + q * d)))%Q) by lra.
  pose proof (Qmult_le_compat_r _ _ R L0 HR) as LR. pose proof (Qmult_le_compat_r _ _ R U0 HR) as UR.
  apply Qabs_le_iff. change (2 ^ 50)%positive with 1125899906842624%positive.
  split; lra.
Qed.

(** Taking the speed term back out of the wetness leaves the front
    term, up to two roundings. *)
Lemma residue_bound (A B w res : Q) :
  (0 <= A)%Q -> (0 <= B)%Q ->
  rel w (A + B) -> (0 <= w - A)%Q -> rel res (w - A) ->
  (Qabs (res - B) <= (1 # 2 ^ 51) * w)%Q.
Proof.
  intros HA HB Hw Hpos Hres.
  apply rel_bounds in Hw, Hres. unfold u53 in *.
  apply Qabs_le_iff. change (2 ^ 51)%positive with 2251799813685248%positive.
  split; lra.
Qed.

(** ** Runs inside the range *)

Ltac conc := vm_compute; first [reflexivity | discriminate].
Ltac pf := split; [conc | split; conc].

Lemma posfin_not_zero x : posfin x -> B64.is_zero x = false.
Proof. intros H. destruct (posfin_shape x H) as (m & e & -> & _). reflexivity. Qed.

Lemma posfin_finite x : posfin x -> B64.is_finite x = true.
Proof. intros H. destruct (posfin_shape x H) as (m & e & -> & _). reflexivity. Qed.

Lemma one_mul_top : B64.mul (B64.of_Z 1) top_area = top_area.
Proof. conc. Qed.

Lemma one_mul_front : B64.mul (B64.of_Z 1) front_area = front_area.
Proof. conc. Qed.

Lemma within_refl x : nonneg x = true -> within x x x.
Proof. intros N. split; [exact N|lia]. Qed.

Lemma in_range_run s d r :
  B64.valid s = true -> B64.leb range_lo s = true -> B64.leb s range_hi = true ->
  1 <= r <= density_hi ->
  within range_lo range_hi s /\
  within (B64.of_Z 1) (B64.of_Z density_hi) (B64.of_Z r) /\
  simulate_wetness s d r = Ok (wetness_value s d (B64.of_Z r)) /\
  float_of_int r = Ok (B64.of_Z r).
Proof.
  intros Vs Ls Us Hr.
  assert (Ws : within range_lo range_hi s) by (apply leb_within; try assumption; try conc; pf).
  assert (Ps : posfin s) by (apply (within_posfin range_lo range_hi); try assumption; pf).
  assert (Hth : density_hi < float_overflow_threshold) by conc.
  assert (Hf : float_of_int r = Ok (B64.of_Z r)).
  { rewrite float_of_int_spec.
    destruct (Z.leb_spec float_overflow_threshold (Z.abs r)); [lia|reflexivity]. }
  repeat split; try apply Ws; try assumption.
  - apply of_int_nonneg. lia.
  - apply of_Z_mono. lia.
  - apply of_Z_mono. lia.
  - rewrite simulate_wetness_eq, Hf, (posfin_not_zero s Ps). reflexivity.
Qed.

(** The intermediate values of a run inside the range, with the
    bounds that keep every product a normal number.  The density, as a
    float, lies between 1 and [B64.of_Z rh]. *)
Section Parts.

Variable rh : Z.
Hypothesis PH : posfin (B64.of_Z rh).
Hypothesis PPh : posfin (SFmul 53 1024 (B64.of_Z rh) top_area).
Hypothesis PQh : posfin (SFmul 53 1024 (B64.of_Z rh) front_area).
Hypothesis PAh :
  posfin (SFmul 53 1024 (SFmul 53 1024 (B64.of_Z rh) top_area)
            (SFdiv 53 1024 range_hi range_lo)).
Hypothesis PBh :
  posfin (SFmul 53 1024 (SFmul 53 1024 (B64.of_Z rh) front_area) range_hi).
Hypothesis Pwh : posfin (wetness_value range_lo range_hi (B64.of_Z rh)).

Lemma in_range_parts s d R :
  within range_lo range_hi s -> within range_lo range_hi d ->
  within (B64.of_Z 1) (B64.of_Z rh) R ->
  let t := B64.div d s in
  let P := B64.mul R top_area in
  let A := B64.mul P t in
  let Q := B64.mul R front_area in
  let B := B64.mul Q d in
  let w := B64.add A B in
  (posfin R /\ posfin d /\ posfin t /\ posfin P /\ posfin A /\ posfin Q /\ posfin B /\ posfin w) /\
  (rel (F2Q P) (F2Q R * F2Q top_area) /\ rel (F2Q A) (F2Q P * F2Q t) /\
   rel (F2Q Q) (F2Q R * F2Q front_area) /\ rel (F2Q B) (F2Q Q * F2Q d) /\
   rel (F2Q w) (F2Q A + F2Q B)) /\
  ordinal A <= ordinal w /\
  within (wetness_value range_hi range_lo (B64.of_Z 1))
         (wetness_value range_lo range_hi (B64.of_Z rh)) w.
Proof.
  intros Ws Wd WR t P A Q B w.
  unfold wetness_value in *.
  change B64.add with (SFadd 53 1024) in *. change B64.mul with (SFmul 53 1024) in *.
  change B64.div with (SFdiv 53 1024) in *.
  assert (Plo : posfin range_lo) by pf. assert (Phi : posfin range_hi) by pf.
  assert (P1 : posfin (B64.of_Z 1)) by pf.
  assert (Ptop : posfin top_area) by pf. assert (Pfront : posfin front_area) by pf.
  pose proof (within_refl top_area nonneg_top_area) as Wtop.
  pose proof (within_refl front_area nonneg_front_area) as Wfront.
  pose proof (div_within _ _ _ _ _ _ Plo Phi Plo Phi Wd Ws) as Wt. fold t in Wt.
  pose proof (mul_within _ _ _ _ _ _ P1 PH Ptop Ptop WR Wtop) as WP. fold P in WP.
  pose proof (mul_within _ _ _ _ _ _ P1 PH Pfront Pfront WR Wfront) as WQ. fold Q in WQ.
  assert (Ptl : posfin (SFdiv 53 1024 range_lo range_hi)) by pf.
  assert (Pth : posfin (SFdiv 53 1024 range_hi range_lo)) by pf.
  assert (PPl : posfin (SFmul 53 1024 (B64.of_Z 1) top_area)) by pf.
  assert (PQl : posfin (SFmul 53 1024 (B64.of_Z 1) front_area)) by pf.
  pose proof (mul_within _ _ _ _ _ _ PPl PPh Ptl Pth WP Wt) as WA. fold A in WA.
  pose proof (mul_within _ _ _ _ _ _ PQl PQh Plo Phi WQ Wd) as WB. fold B in WB.
  assert (PAl : posfin (SFmul 53 1024 (SFmul 53 1024 (B64.of_Z 1) top_area)
                          (SFdiv 53 1024 range_lo range_hi))) by pf.
  assert (PBl : posfin (SFmul 53 1024 (SFmul 53 1024 (B64.of_Z 1) front_area) range_lo)) by pf.
  pose proof (add_within _ _ _ _ _ _ PAl PAh PBl PBh WA WB) as Ww. fold w in Ww.
  assert (Pwl : posfin (SFadd 53 1024
                          (SFmul 53 1024 (SFmul 53 1024 (B64.of_Z 1) top_area)
                             (SFdiv 53 1024 range_lo range_hi))
                          (SFmul 53 1024 (SFmul 53 1024 (B64.of_Z 1) front_area) range_lo))) by pf.
  pose proof (within_posfin _ _ _ P1 PH WR) as PR.
  pose proof (within_posfin _ _ _ Plo Phi Wd) as Pd.
  pose proof (within_posfin _ _ _ Ptl Pth Wt) as Pt.
  pose proof (within_posfin _ _ _ PPl PPh WP) as PP.
  pose proof (within_posfin _ _ _ PQl PQh WQ) as PQ.
  pose proof (within_posfin _ _ _ PAl PAh WA) as PA.
  pose proof (within_posfin _ _ _ PBl PBh WB) as PB.
  pose proof (within_posfin _ _ _ Pwl Pwh Ww) as Pw.
  split; [repeat split; try apply PR; try apply Pd; try apply Pt; try apply PP; try apply PA;
          try apply PQ; try apply PB; try apply Pw|].
  split; [|split; [|exact Ww]].
  - repeat split.
    + apply mul_rel; try assumption. apply (within_normal _ _ _ WP); [conc|apply PPh].
    + apply mul_rel; try assumption. apply (within_normal _ _ _ WA); [conc|apply PAh].
    + apply mul_rel; try assumption. apply (within_normal _ _ _ WQ); [conc|apply PQh].
    + apply mul_rel; try assumption. apply (within_normal _ _ _ WB); [conc|apply PBh].
    + apply add_rel; try assumption. apply Pw.
  - (* A <= A + B *)
    unfold w. destruct (posfin_shape A PA) as (ma & ea & EA & BA).
    destruct (posfin_shape B PB) as (mb & eb & EB & BB).
    rewrite EA, EB.
    destruct (add_comm (S754_finite false ma ea) (S754_finite false mb eb) BA BB) as [->|[? _]];
      [|discriminate].
    apply add_finite_ge. exact BA.
Qed.

End Parts.

Lemma in_range_parts_density s d R :
  within range_lo range_hi s -> within range_lo range_hi d ->
  within (B64.of_Z 1) (B64.of_Z density_hi) R ->
  let t := B64.div d s in
  let P := B64.mul R top_area in
  let A := B64.mul P t in
  let Q := B64.mul R front_area in
  let B := B64.mul Q d in
  let w := B64.add A B in
  (posfin R /\ posfin d /\ posfin t /\ posfin P /\ posfin A /\ posfin Q /\ posfin B /\ posfin w) /\
  (rel (F2Q P) (F2Q R * F2Q top_area) /\ rel (F2Q A) (F2Q P * F2Q t) /\
   rel (F2Q Q) (F2Q R * F2Q front_area) /\ rel (F2Q B) (F2Q Q * F2Q d) /\
   rel (F2Q w) (F2Q A + F2Q B)) /\
  ordinal A <= ordinal w /\
  within (wetness_value range_hi range_lo (B64.of_Z 1))
         (wetness_value range_lo range_hi (B64.of_Z density_hi)) w.
Proof. apply in_range_parts; pf. Qed.

Lemma in_range_parts_unit s d R :
  within range_lo range_hi s -> within range_lo range_hi d ->
  within (B64.of_Z 1) (B64.of_Z 1) R ->
  let t := B64.div d s in
  let P := B64.mul R top_area in
  let A := B64.mul P t in
  let Q := B64.mul R front_area in
  let B := B64.mul Q d in
  let w := B64.add A B in
  (posfin R /\ posfin d /\ posfin t /\ posfin P /\ posfin A /\ posfin Q /\ posfin B /\ posfin w) /\
  (rel (F2Q P) (F2Q R * F2Q top_area) /\ rel (F2Q A) (F2Q P * F2Q t) /\
   rel (F2Q Q) (F2Q R * F2Q front_area) /\ rel (F2Q B) (F2Q Q * F2Q d) /\
   rel (F2Q w) (F2Q A + F2Q B)) /\
  ordinal A <= ordinal w /\
  within (wetness_value range_hi range_lo (B64.of_Z 1))
         (wetness_value range_lo range_hi (B64.of_Z 1)) w.
Proof. apply in_range_parts; pf. Qed.

(** The wetness of a run inside the range, its front residue and its
    front term. *)
Lemma residue_in_range s d r :
  B64.valid s = true -> B64.valid d = true ->
  B64.leb range_lo s = true -> B64.leb s range_hi = true ->
  B64.leb range_lo d = true -> B64.leb d range_hi = true ->
  1 <= r <= density_hi ->
  exists w res,
    simulate_wetness s d r = Ok w /\ front_residue s d r = Ok res /\
    front_term d r = Ok (B64.mul (B64.mul (B64.of_Z r) front_area) d) /\
    B64.is_finite w = true /\
    (0 <= F2Q w)%Q /\
    (Qabs (F2Q res - F2Q (B64.mul (B64.mul (B64.of_Z r) front_area) d))
     <= (1 # 2 ^ 51) * F2Q w)%Q.
Proof.
  intros Vs Vd Ls Us Ld Ud Hr.
  destruct (in_range_run s d r Vs Ls Us Hr) as (Ws & WR & Hrun & Hf).
  assert (Wd : within range_lo range_hi d) by (apply leb_within; try assumption; try conc; pf).
  destruct (in_range_parts_density s d (B64.of_Z r) Ws Wd WR)
    as ((PR & Pd & Pt & PP & PA & PQ & PB & Pw) & (EP & EA & EQ & EB & Ew) & HAw & _).
  cbv zeta in *.
  assert (Ps : posfin s) by (apply (within_posfin range_lo range_hi); try assumption; pf).
  set (R := B64.of_Z r) in *. set (t := B64.div d s) in *.
  set (A := B64.mul (B64.mul R top_area) t) in *.
  set (B := B64.mul (B64.mul R front_area) d) in *.
  destruct (sub_rel (B64.add A B) A Pw PA HAw) as [Hpos Eres].
  exists (B64.add A B), (B64.sub (B64.add A B) A).
  split; [exact Hrun|]. split.
  { unfold front_residue. rewrite Hrun. cbn [bind]. unfold above_term, int_mul, truediv.
    rewrite Hf, (posfin_not_zero s Ps). reflexivity. }
  split.
  { unfold front_term, int_mul. rewrite Hf. reflexivity. }
  split; [apply posfin_finite; exact Pw|].
  split; [apply F2Q_nonneg; apply Pw|].
  apply (residue_bound (F2Q A) (F2Q B) (F2Q (B64.add A B))); try assumption;
    apply F2Q_nonneg; (apply PA || apply PB).
Qed.

(** ** The distance as an int or a float *)

Lemma simulate_wetness_num_float s d r :
  simulate_wetness_num s (PyFloat d) r = simulate_wetness s d r.
Proof.
  unfold simulate_wetness_num, simulate_wetness, num_truediv, float_mul_num, to_float.
  cbn [bind]. destruct (truediv d s); [|reflexivity]. cbn [bind].
  destruct (int_mul r top_area); [|reflexivity]. cbn [bind].
  destruct (int_mul r front_area); reflexivity.
Qed.

Lemma simulate_wetness_num_int s n r :
  simulate_wetness_num s (PyInt n) r = (d <- float_of_int n ;; simulate_wetness s d r).
Proof.
  unfold simulate_wetness_num, simulate_wetness, num_truediv, float_mul_num, to_float.
  destruct (float_of_int n) as [d|e]; [|reflexivity]. cbn [bind].
  destruct (truediv d s); [|reflexivity]. cbn [bind].
  destruct (int_mul r top_area); [|reflexivity]. cbn [bind].
  destruct (int_mul r front_area); reflexivity.
Qed.

(** A distance that converts: the run is the run at the float. *)
Lemma simulate_wetness_num_ok s dist d r :
  to_float dist = Ok d -> simulate_wetness_num s dist r = simulate_wetness s d r.
Proof.
  destruct dist as [n|x]; cbn [to_float]; intros H.
  - rewrite simulate_wetness_num_int, H. reflexivity.
  - injection H as <-. apply simulate_wetness_num_float.
Qed.

(** The call of the driver, [simulate_wetness(speed)], passes the int
    [500]. *)
Lemma default_call s :
  simulate_wetness_num s (PyInt 500) default_density =
  simulate_wetness s default_distance default_density.
Proof. apply simulate_wetness_num_ok. reflexivity. Qed.

Lemma to_float_spec dist :
  to_float dist =
  if distance_overflows dist then Raise OverflowError else Ok (distance_value dist).
Proof.
  destruct dist as [n|x]; cbn [to_float distance_overflows distance_value]; [|reflexivity].
  apply float_of_int_spec.
Qed.

(** ** Densities at a distance of zero *)

Lemma of_Z_finite_shape r :
  r <> 0 -> Z.abs r < float_overflow_threshold ->
  exists m e,
    B64.of_Z r = S754_finite (r <? 0) m e /\
    B64.of_Z (Z.abs r) = S754_finite false m e /\
    bounded 53 1024 m e = true.
Proof.
  intros Hz Hr.
  assert (Habs : 0 < Z.abs r) by lia.
  pose proof (round_dy_nonneg (Z.abs r) 0 Habs) as Ho.
  assert (Hpos : 0 < round_dy (Z.abs r) 0).
  { assert (round_dy 1 0 <= round_dy (Z.abs r) 0).
    { assert (0 < 2 ^ (0 - -1074)) by (apply pow2_pos; lia).
      apply (round_dy_mono _ _ _ _ (-1074)); unfold emin; nia. }
    assert (0 < round_dy 1 0) by (vm_compute; reflexivity). lia. }
  assert (Hfin : round_dy (Z.abs r) 0 < ord_inf).
  { destruct (Z_lt_le_dec (round_dy (Z.abs r) 0) ord_inf) as [L|G]; [exact L|exfalso].
    pose proof (float_of_int_spec r) as Hs.
    destruct (Z.leb_spec float_overflow_threshold (Z.abs r)) as [?|_]; [lia|].
    unfold float_of_int in Hs. rewrite (of_Z_sign r Hz) in Hs.
    destruct (float_of_ord_cases (r <? 0) _ Ho) as [[_ E]|[? _]]; [|lia].
    rewrite E in Hs. discriminate Hs. }
  destruct (float_of_ord_shape (r <? 0) (round_dy (Z.abs r) 0) ltac:(lia)) as (m & e & Hs & Bm).
  destruct (float_of_ord_shape false (round_dy (Z.abs r) 0) ltac:(lia)) as (m' & e' & Hs' & Bm').
  assert (Hme : m' = m /\ e' = e).
  { unfold float_of_ord in Hs, Hs'.
    destruct (round_dy (Z.abs r) 0 =? 0); [discriminate|].
    match type of Hs with
    | (if ?c then _ else _) = _ => destruct c; [|discriminate]
    end.
    injection Hs as <- <-. injection Hs' as <- <-. auto. }
  destruct Hme as [-> ->].
  exists m, e. split; [|split; [|exact Bm]].
  - rewrite (of_Z_sign r Hz). exact Hs.
  - unfold B64.of_Z, B64.prec, B64.emax. rewrite (of_Z_ord _ Habs). exact Hs'.
Qed.

(** Below [front_overflow_density] the products of the density and
    the two areas are finite. *)
Lemma density_below_finite r area :
  Z.abs r < front_overflow_density ->
  nonneg area = true -> B64.is_finite area = true ->
  ordinal (SFmul 53 1024 (B64.of_Z (front_overflow_density - 1)) area) < ord_inf ->
  B64.is_finite (B64.mul (B64.of_Z r) area) = true.
Proof.
  intros Hr Na Fa Hmax.
  change B64.mul with (SFmul 53 1024).
  destruct (Z.eq_dec r 0) as [->|Hz].
  { destruct area as [s|s| |s m e]; try discriminate Fa; reflexivity. }
  assert (Hth : front_overflow_density < float_overflow_threshold) by (vm_compute; reflexivity).
  destruct (of_Z_finite_shape r Hz ltac:(lia)) as (m & e & Er & Ea & Bm).
  rewrite Er.
  destruct area as [sa|sa| |sa ma ea]; try discriminate Fa; [reflexivity|].
  apply nonneg_finite_bounded in Na. destruct Na as [-> Ba].
  rewrite mul_finite_sign by assumption.
  assert (Hb : exists m0 e0, B64.of_Z (front_overflow_density - 1) = S754_finite false m0 e0 /\
                             bounded 53 1024 m0 e0 = true)
    by (eexists; eexists; split; vm_compute; reflexivity).
  destruct Hb as (m0 & e0 & E0 & B0).
  assert (Hle : ordinal (SFmul 53 1024 (S754_finite false m e) (S754_finite false ma ea)) <=
                ordinal (SFmul 53 1024 (B64.of_Z (front_overflow_density - 1))
                           (S754_finite false ma ea))).
  { apply mul_mono_l; try assumption; try (rewrite E0; exact B0).
    - rewrite <- Ea. apply of_Z_mono. lia.
    - rewrite mul_finite_ord by assumption. apply float_of_ord_nan.
    - rewrite E0. rewrite mul_finite_ord by assumption. apply float_of_ord_nan. }
  rewrite mul_finite_ord in Hle by assumption.
  assert (Hq : 0 <= round_dy (Z.pos m * Z.pos ma) (e + ea)) by (apply round_dy_nonneg; lia).
  rewrite ordinal_float_of_ord in Hle by exact Hq.
  destruct (float_of_ord_cases (xorb (r <? 0) false) _ Hq) as [[? _]|[_ F]]; [lia|exact F].
Qed.

(** From [front_overflow_density] on the product with [front_area] is
    infinite. *)
Lemma density_above_infinite r :
  front_overflow_density <= Z.abs r < float_overflow_threshold ->
  exists sg, B64.mul (B64.of_Z r) front_area = S754_infinity sg.
Proof.
  intros [Hlo Hhi].
  assert (Hpos : 0 < front_overflow_density) by (vm_compute; reflexivity).
  assert (Hz : r <> 0) by lia.
  destruct (of_Z_finite_shape r Hz Hhi) as (m & e & Er & Ea & Bm).
  change B64.mul with (SFmul 53 1024). rewrite Er, front_area_eq.
  assert (Bf : bounded 53 1024 5473124547151644 (-49) = true) by reflexivity.
  rewrite mul_finite_sign by assumption.
  set (o := round_dy (Z.pos m * 5473124547151644) (e + -49)).
  assert (Hq : 0 <= o) by (apply round_dy_nonneg; lia).
  assert (Hle : ordinal (SFmul 53 1024 (B64.of_Z front_overflow_density)
                           (S754_finite false 5473124547151644 (-49))) <=
                ordinal (SFmul 53 1024 (S754_finite false m e)
                           (S754_finite false 5473124547151644 (-49)))).
  { apply mul_mono_l; try assumption; try (vm_compute; reflexivity).
    - rewrite <- Ea. apply of_Z_mono. lia.
    - vm_compute. discriminate.
    - rewrite mul_finite_ord by assumption. apply float_of_ord_nan. }
  assert (Hinf : ordinal (SFmul 53 1024 (B64.of_Z front_overflow_density)
                            (S754_finite false 5473124547151644 (-49))) = ord_inf)
    by (vm_compute; reflexivity).
  rewrite Hinf, mul_finite_ord in Hle by assumption. fold o in Hle.
  rewrite ordinal_float_of_ord in Hle by exact Hq.
  destruct (float_of_ord_cases (xorb (r <? 0) false) o Hq) as [[_ E]|[? _]]; [|lia].
  eexists. exact E.
Qed.

(** * The claims *)

(** C1. For every speed other than zero, whatever the distance and the
    density, [simulate_wetness] returns what the closed form
    [r * (20/12 * 12/12) * (d / s) + r * (70/12 * 20/12) * d] evaluates
    to: the same float, bit for bit, or the same exception. *)
Theorem C1_closed_form s d r :
  B64.is_zero s = false -> simulate_wetness s d r = closed_form s d r.
Proof.
  intros Hs. unfold simulate_wetness, closed_form, truediv. rewrite Hs.
  cbn [bind]. fold width depth height. fold top_area front_area.
  destruct (int_mul r top_area); cbn [bind]; [|reflexivity].
  destruct (int_mul r front_area); reflexivity.
Qed.

Lemma C1_closed_form_witness :
  B64.is_zero (B64.decimal 33 10) = false /\
  simulate_wetness (B64.decimal 33 10) default_distance default_density =
  closed_form (B64.decimal 33 10) default_distance default_density.
Proof.
  split; [reflexivity|]. apply (C1_closed_form (B64.decimal 33 10)). reflexivity.
Defined.

(** C2, as stated, fails: the speeds [3.3] and the next float above it
    give the same wetness at the default distance and density, so the
    decrease is not strict. *)
Lemma C2_counterexample :
  let a := B64.decimal 33 10 in
  let b := S754_finite false 7430939385161319 (-51) in
  B64.valid a = true /\ B64.valid b = true /\
  B64.ltb B64.zero a = true /\ B64.ltb a b = true /\
  exists w,
    simulate_wetness a default_distance default_density = Ok w /\
    simulate_wetness b default_distance default_density = Ok w /\
    B64.ltb w w = false.
Proof.
  cbv zeta. repeat split; try (vm_compute; reflexivity).
  exists (S754_finite false 5490725236363635 (-30)).
  repeat split; vm_compute; reflexivity.
Qed.

(** C2, amended.  For a distance and a density that are not negative,
    wetness does not increase with speed: if [0 < speed_a < speed_b]
    and both runs return a number, then
    [wetness(speed_a) >= wetness(speed_b)]. *)
Theorem C2_wetness_antitone a b d r wa wb :
  B64.valid a = true -> B64.valid b = true -> B64.valid d = true ->
  B64.ltb B64.zero a = true -> B64.ltb a b = true ->
  B64.leb B64.zero d = true -> 0 <= r ->
  simulate_wetness a d r = Ok wa -> simulate_wetness b d r = Ok wb ->
  B64.is_nan wa = false -> B64.is_nan wb = false ->
  B64.leb wb wa = true.
Proof.
  intros Va Vb Vd Pa Lab Pd Hr Ha Hb Na Nb.
  destruct (ltb_zero_pos a Va Pa) as [NNa Oa].
  destruct (ltb_pos_nonneg a b NNa Oa Vb Lab) as [NNb Oab].
  pose proof (leb_zero_nonneg d Vd Pd) as NNd.
  pose proof (of_int_nonneg r Hr) as NNr.
  apply simulate_wetness_ok in Ha, Hb.
  destruct Ha as (_ & _ & ->). destruct Hb as (_ & _ & ->).
  apply is_nan_false in Na, Nb.
  destruct (wetness_parts a d _ NNa Oa NNd NNr Na) as (Ta & Rt & Aa & Bf).
  destruct (wetness_parts b d _ NNb ltac:(lia) NNd NNr Nb) as (Tb & _ & Ab & _).
  unfold wetness_value in *.
  change B64.add with (SFadd 53 1024) in *. change B64.mul with (SFmul 53 1024) in *.
  change B64.div with (SFdiv 53 1024) in *.
  set (rf := B64.of_Z r) in *.
  assert (Ht : ordinal (SFdiv 53 1024 d b) <= ordinal (SFdiv 53 1024 d a)).
  { apply div_anti; try assumption; try lia; apply nonneg_not_nan; assumption. }
  assert (HA : ordinal (SFmul 53 1024 (SFmul 53 1024 rf top_area) (SFdiv 53 1024 d b)) <=
               ordinal (SFmul 53 1024 (SFmul 53 1024 rf top_area) (SFdiv 53 1024 d a))).
  { apply mul_mono_r; try assumption; apply nonneg_not_nan; assumption. }
  unfold B64.leb. rewrite leb_ordinal by (apply add_nonneg; assumption).
  apply Z.leb_le. apply add_mono_l; assumption.
Qed.

Lemma C2_wetness_antitone_witness :
  let a := B64.decimal 33 10 in
  let b := B64.decimal 55 10 in
  let wa := S754_finite false 5490725236363635 (-30) in
  let wb := S754_finite false 5382266466262625 (-30) in
  simulate_wetness a default_distance default_density = Ok wa /\
  simulate_wetness b default_distance default_density = Ok wb /\
  B64.leb wb wa = true.
Proof.
  cbv zeta. split; [vm_compute; reflexivity|]. split; [vm_compute; reflexivity|].
  apply (C2_wetness_antitone (B64.decimal 33 10) (B64.decimal 55 10)
           default_distance default_density);
    solve [vm_compute; reflexivity | vm_compute; discriminate].
Defined.

(** C3, as stated, fails: at speed 3.3 with the default distance and
    density the two sides differ in the last bit. *)
Lemma C3_counterexample :
  let s := B64.decimal 33 10 in
  let w1 := S754_finite false 5490725236363635 (-30) in
  let w2 := S754_finite false 5490725236363636 (-30) in
  B64.ltb B64.zero s = true /\
  simulate_wetness s default_distance default_density = Ok w1 /\
  scaled_unit_wetness s default_distance default_density = Ok w2 /\
  B64.eqb w1 w2 = false.
Proof. cbv zeta. repeat split; conc. Qed.

(** C3, amended.  Linearity in rain density holds up to rounding: for
    speed and distance between [2^-256] and [2^256] and an int density
    between 1 and [2^256], both [simulate_wetness(speed, distance,
    density)] and [density * simulate_wetness(speed, distance, 1)] are
    finite floats, and they differ by at most [2^-50] times the
    latter. *)
Theorem C3_linearity_up_to_rounding s d r :
  B64.valid s = true -> B64.valid d = true ->
  B64.leb range_lo s = true -> B64.leb s range_hi = true ->
  B64.leb range_lo d = true -> B64.leb d range_hi = true ->
  1 <= r <= density_hi ->
  exists w1 w2,
    simulate_wetness s d r = Ok w1 /\ scaled_unit_wetness s d r = Ok w2 /\
    B64.is_finite w1 = true /\ B64.is_finite w2 = true /\
    (Qabs (F2Q w1 - F2Q w2) <= (1 # 2 ^ 50) * F2Q w2)%Q.
Proof.
  intros Vs Vd Ls Us Ld Ud Hr.
  destruct (in_range_run s d r Vs Ls Us Hr) as (Ws & WR & Hrun & Hf).
  assert (H1 : 1 <= 1 <= density_hi) by (split; [lia|conc]).
  destruct (in_range_run s d 1 Vs Ls Us H1) as (_ & _ & Hrun1 & _).
  assert (Wd : within range_lo range_hi d) by (apply leb_within; try assumption; try conc; pf).
  assert (W1 : within (B64.of_Z 1) (B64.of_Z 1) (B64.of_Z 1))
    by (apply within_refl; conc).
  destruct (in_range_parts_density s d (B64.of_Z r) Ws Wd WR)
    as ((PR & Pd & Pt & PP & PA & PQ & PB & Pw) & (EP & EA & EQ & EB & Ew) & _ & _).
  destruct (in_range_parts_unit s d (B64.of_Z 1) Ws Wd W1)
    as ((_ & _ & _ & _ & PA2 & _ & PB2 & Pw0) & (_ & EA2 & _ & EB2 & Ew0) & _ & Ww0).
  cbv zeta in *.
  rewrite one_mul_top in PA2, EA2, Pw0, Ew0, Ww0.
  rewrite one_mul_front in PB2, EB2, Pw0, Ew0, Ww0.
  set (R := B64.of_Z r) in *. set (t := B64.div d s) in *.
  set (w0 := B64.add (B64.mul top_area t) (B64.mul front_area d)) in *.
  (* the product of the density and the unit wetness *)
  assert (P1 : posfin (B64.of_Z 1)) by pf. assert (PH : posfin (B64.of_Z density_hi)) by pf.
  assert (Pl0 : posfin (wetness_value range_hi range_lo (B64.of_Z 1))) by pf.
  assert (Ph0 : posfin (wetness_value range_lo range_hi (B64.of_Z 1))) by pf.
  pose proof (mul_within _ _ _ _ _ _ P1 PH Pl0 Ph0 WR Ww0) as Ww2.
  assert (Pw2l : posfin (SFmul 53 1024 (B64.of_Z 1)
                           (wetness_value range_hi range_lo (B64.of_Z 1)))) by pf.
  assert (Pw2h : posfin (SFmul 53 1024 (B64.of_Z density_hi)
                           (wetness_value range_lo range_hi (B64.of_Z 1)))) by pf.
  pose proof (within_posfin _ _ _ Pw2l Pw2h Ww2) as Pw2.
  assert (Ew2 : rel (F2Q (SFmul 53 1024 R w0)) (F2Q R * F2Q w0)).
  { apply mul_rel; try assumption. apply (within_normal _ _ _ Ww2); [conc|apply Pw2h]. }
  exists (wetness_value s d R), (B64.mul R w0).
  split; [exact Hrun|]. split.
  { unfold scaled_unit_wetness. rewrite Hrun1. cbn [bind]. unfold int_mul. rewrite Hf.
    cbn [bind]. unfold wetness_value. rewrite one_mul_top, one_mul_front. reflexivity. }
  split; [apply posfin_finite; exact Pw|]. split; [apply posfin_finite; exact Pw2|].
  unfold wetness_value. fold t.
  apply (linearity_bound (F2Q R) (F2Q top_area) (F2Q front_area) (F2Q t) (F2Q d)
           (F2Q (B64.mul R top_area)) (F2Q (B64.mul (B64.mul R top_area) t))
           (F2Q (B64.mul R front_area)) (F2Q (B64.mul (B64.mul R front_area) d))
           _
           (F2Q (B64.mul top_area t)) (F2Q (B64.mul front_area d)) (F2Q w0));
    try assumption; try (apply F2Q_nonneg; (apply PR || apply Pd || apply Pt || conc)).
Qed.

Lemma C3_linearity_up_to_rounding_witness :
  let s := B64.decimal 33 10 in
  let w1 := S754_finite false 5490725236363635 (-30) in
  let w2 := S754_finite false 5490725236363636 (-30) in
  exists w1' w2',
    simulate_wetness s default_distance default_density = Ok w1' /\
    scaled_unit_wetness s default_distance default_density = Ok w2' /\
    B64.is_finite w1' = true /\ B64.is_finite w2' = true /\
    (Qabs (F2Q w1' - F2Q w2') <= (1 # 2 ^ 50) * F2Q w2')%Q.
Proof.
  cbv zeta.
  apply (C3_linearity_up_to_rounding (B64.decimal 33 10) default_distance default_density);
    try conc.
  split; [vm_compute; discriminate|vm_compute; discriminate].
Defined.


(** C4, as stated, fails: with a speed other than zero the call still
    raises when the int density does not fit a float. *)
Lemma C4_counterexample :
  B64.is_zero (B64.of_Z 1) = false /\
  simulate_wetness (B64.of_Z 1) default_distance (2 ^ 1024) = Raise OverflowError.
Proof. split; vm_compute; reflexivity. Qed.

(** At a float distance the call raises [ZeroDivisionError] exactly
    when the speed is zero (of either sign); for any other speed it
    raises [OverflowError] exactly when the magnitude of the int density
    reaches [2^1024 - 2^970], and otherwise returns the value of the
    formula. *)
Lemma float_distance_failure_modes s d r :
  simulate_wetness s d r =
  if B64.is_zero s then Raise ZeroDivisionError
  else if float_overflow_threshold <=? Z.abs r then Raise OverflowError
  else Ok (wetness_value s d (B64.of_Z r)).
Proof.
  rewrite simulate_wetness_eq, float_of_int_spec.
  destruct (B64.is_zero s); [reflexivity|].
  destruct (float_overflow_threshold <=? Z.abs r); reflexivity.
Qed.

(** An int distance too large for a float raises [OverflowError] where
    it is converted, at a speed of one and at a speed of zero alike. *)
Lemma int_distance_overflow :
  simulate_wetness_num (B64.of_Z 1) (PyInt (2 ^ 1024)) default_density = Raise OverflowError /\
  simulate_wetness_num (B64.of_Z 0) (PyInt (2 ^ 1024)) default_density = Raise OverflowError.
Proof. split; vm_compute; reflexivity. Qed.

(** C4, amended.  For a float speed, a distance that is an int or a
    float and an int density, [simulate_wetness] fails in three ways
    and no other.  It raises [OverflowError] when the distance is an
    int whose magnitude reaches [2^1024 - 2^970], whatever the speed,
    zero included: the distance is converted before the division.
    Otherwise it raises [ZeroDivisionError] exactly when the speed is
    zero (of either sign).  Otherwise it raises [OverflowError] exactly
    when the magnitude of the int density reaches [2^1024 - 2^970].
    In every other case it returns the value of the formula. *)
Theorem C4_failure_modes s dist r :
  simulate_wetness_num s dist r =
  if distance_overflows dist then Raise OverflowError
  else if B64.is_zero s then Raise ZeroDivisionError
  else if float_overflow_threshold <=? Z.abs r then Raise OverflowError
  else Ok (wetness_value s (distance_value dist) (B64.of_Z r)).
Proof.
  pose proof (to_float_spec dist) as H.
  destruct (distance_overflows dist).
  - destruct dist as [n|x]; [|discriminate H].
    rewrite simulate_wetness_num_int. cbn [to_float] in H. rewrite H. reflexivity.
  - rewrite (simulate_wetness_num_ok s dist _ r H). apply float_distance_failure_modes.
Qed.

(** C5, as stated, fails: at speed 1, distance 0 and density [10^308]
    the product of the density and the front area overflows to
    infinity, and infinity times the zero distance is NaN, which is not
    [>= 0]. *)
Lemma C5_counterexample :
  B64.ltb B64.zero (B64.of_Z 1) = true /\ B64.leb B64.zero (B64.of_Z 0) = true /\
  0 <= 10 ^ 308 /\
  simulate_wetness (B64.of_Z 1) (B64.of_Z 0) (10 ^ 308) = Ok S754_nan /\
  B64.leb B64.zero S754_nan = false.
Proof. repeat split; try (vm_compute; reflexivity). vm_compute. discriminate. Qed.

(** C5, amended.  For speed above zero, distance and density not
    negative, a number returned by [simulate_wetness] is [>= 0]: the
    result is never negative, but it can be NaN. *)
Theorem C5_nonnegative s d r w :
  B64.valid s = true -> B64.valid d = true ->
  B64.ltb B64.zero s = true -> B64.leb B64.zero d = true -> 0 <= r ->
  simulate_wetness s d r = Ok w -> B64.is_nan w = false ->
  B64.leb B64.zero w = true.
Proof.
  intros Vs Vd Ps Pd Hr Hw Nw.
  destruct (ltb_zero_pos s Vs Ps) as [NNs Os].
  pose proof (leb_zero_nonneg d Vd Pd) as NNd.
  pose proof (of_int_nonneg r Hr) as NNr.
  apply simulate_wetness_ok in Hw. destruct Hw as (_ & _ & ->).
  apply is_nan_false in Nw.
  destruct (wetness_parts s d _ NNs Os NNd NNr Nw) as (_ & _ & NA & NB).
  apply nonneg_leb_zero. apply add_nonneg; assumption.
Qed.

Lemma C5_nonnegative_witness :
  let w := S754_finite false 5490725236363635 (-30) in
  simulate_wetness (B64.decimal 33 10) default_distance default_density = Ok w /\
  B64.leb B64.zero w = true.
Proof.
  cbv zeta. split; [vm_compute; reflexivity|].
  apply (C5_nonnegative (B64.decimal 33 10) default_distance default_density);
    solve [vm_compute; reflexivity | vm_compute; discriminate].
Defined.

(** C6. The driver prints 5113636, 5012626, 4955808, 4924242 and
    4888888 for the speeds 3.3, 5.5, 8.8, 13.2 and 30.0, a strictly
    decreasing list. *)
Theorem C6_driver_output :
  printed_wetness = Ok [5113636; 5012626; 4955808; 4924242; 4888888] /\
  strictly_decreasing [5113636; 5012626; 4955808; 4924242; 4888888] = true.
Proof. split; vm_compute; reflexivity. Qed.

(** C7. [simulate_wetness(3.3)] with the defaults and the closed form
    [1000*(20/12*12/12)*(500/3.3) + 1000*(70/12*20/12)*500] are the same
    float, [5490725236363635 * 2^-30] (about 5113636.36), so they differ
    by less than the tolerance [1e-6]. *)
Theorem C7_concrete_scenario :
  let w := S754_finite false 5490725236363635 (-30) in
  simulate_wetness (B64.decimal 33 10) default_distance default_density = Ok w /\
  closed_form (B64.decimal 33 10) (B64.of_Z 500) 1000 = Ok w /\
  B64.leb (SFabs (B64.sub w w)) (B64.decimal 1 1000000) = true.
Proof. cbv zeta. repeat split; vm_compute; reflexivity. Qed.

(** C8, as stated, fails: with the default distance and density the
    residue is [5219578311111110 * 2^-30] at speed 1 and
    [5219578311111109 * 2^-30] at speed 0.125. *)
Lemma C8_counterexample :
  let a := B64.of_Z 1 in
  let b := B64.decimal 125 1000 in
  B64.ltb B64.zero a = true /\ B64.ltb B64.zero b = true /\
  front_residue a default_distance default_density =
    Ok (S754_finite false 5219578311111110 (-30)) /\
  front_residue b default_distance default_density =
    Ok (S754_finite false 5219578311111109 (-30)) /\
  B64.eqb (S754_finite false 5219578311111110 (-30))
          (S754_finite false 5219578311111109 (-30)) = false.
Proof. cbv zeta. repeat split; conc. Qed.

(** C8, amended.  The front-impact term does not depend on speed, and
    taking the speed term back out of the wetness recovers it up to
    rounding: for two speeds [a], [b] and a distance between [2^-256]
    and [2^256] and an int density between 1 and [2^256], each residue
    [simulate_wetness(s, d, r) - r * (20/12 * 12/12) * (d / s)] is
    within [2^-51 * simulate_wetness(s, d, r)] of the one float
    [r * (70/12 * 20/12) * d], so the two residues differ by at most
    [2^-51] times the sum of the two wetnesses. *)
Theorem C8_front_term_up_to_rounding a b d r :
  B64.valid a = true -> B64.valid b = true -> B64.valid d = true ->
  B64.leb range_lo a = true -> B64.leb a range_hi = true ->
  B64.leb range_lo b = true -> B64.leb b range_hi = true ->
  B64.leb range_lo d = true -> B64.leb d range_hi = true ->
  1 <= r <= density_hi ->
  exists wa wb ra rb f,
    simulate_wetness a d r = Ok wa /\ simulate_wetness b d r = Ok wb /\
    front_residue a d r = Ok ra /\ front_residue b d r = Ok rb /\
    front_term d r = Ok f /\
    B64.is_finite wa = true /\ B64.is_finite wb = true /\
    (Qabs (F2Q ra - F2Q f) <= (1 # 2 ^ 51) * F2Q wa)%Q /\
    (Qabs (F2Q rb - F2Q f) <= (1 # 2 ^ 51) * F2Q wb)%Q /\
    (Qabs (F2Q ra - F2Q rb) <= (1 # 2 ^ 51) * (F2Q wa + F2Q wb))%Q.
Proof.
  intros Va Vb Vd La Ua Lb Ub Ld Ud Hr.
  destruct (residue_in_range a d r Va Vd La Ua Ld Ud Hr)
    as (wa & ra & Hwa & Hra & Hf & Fa & Pa & Ea).
  destruct (residue_in_range b d r Vb Vd Lb Ub Ld Ud Hr)
    as (wb & rb & Hwb & Hrb & _ & Fb & Pb & Eb).
  exists wa, wb, ra, rb, (B64.mul (B64.mul (B64.of_Z r) front_area) d).
  repeat split; try assumption.
  set (f := F2Q (B64.mul (B64.mul (B64.of_Z r) front_area) d)) in *.
  apply Qabs_le_iff in Ea, Eb. apply Qabs_le_iff.
  change (2 ^ 51)%positive with 2251799813685248%positive in *.
  split; lra.
Qed.

Lemma C8_front_term_up_to_rounding_witness :
  exists wa wb ra rb f,
    simulate_wetness (B64.of_Z 1) default_distance default_density = Ok wa /\
    simulate_wetness (B64.decimal 125 1000) default_distance default_density = Ok wb /\
    front_residue (B64.of_Z 1) default_distance default_density = Ok ra /\
    front_residue (B64.decimal 125 1000) default_distance default_density = Ok rb /\
    front_term default_distance default_density = Ok f /\
    B64.is_finite wa = true /\ B64.is_finite wb = true /\
    (Qabs (F2Q ra - F2Q f) <= (1 # 2 ^ 51) * F2Q wa)%Q /\
    (Qabs (F2Q rb - F2Q f) <= (1 # 2 ^ 51) * F2Q wb)%Q /\
    (Qabs (F2Q ra - F2Q rb) <= (1 # 2 ^ 51) * (F2Q wa + F2Q wb))%Q.
Proof.
  apply (C8_front_term_up_to_rounding (B64.of_Z 1) (B64.decimal 125 1000)
           default_distance default_density); try conc.
  split; [vm_compute; discriminate|vm_compute; discriminate].
Defined.

(** C9, as stated, fails: at speed [2^-1000], distance [2^1000] and
    density 0 the exposure time overflows to infinity, zero times
    infinity is NaN, and NaN is not [>=] the front term, which is 0. *)
Lemma C9_counterexample :
  let s := S754_finite false (2 ^ 52) (-1052) in
  let d := S754_finite false (2 ^ 52) 948 in
  B64.valid s = true /\ B64.valid d = true /\
  B64.ltb B64.zero s = true /\ B64.leb B64.zero d = true /\
  simulate_wetness s d 0 = Ok S754_nan /\
  front_term d 0 = Ok (S754_zero false) /\
  B64.leb (S754_zero false) S754_nan = false.
Proof. cbv zeta. repeat split; vm_compute; reflexivity. Qed.

(** C9, amended.  For speed above zero, distance and density not
    negative, a number returned by [simulate_wetness] is at least the
    front-impact term [density * (70/12 * 20/12) * distance]. *)
Theorem C9_front_lower_bound s d r w :
  B64.valid s = true -> B64.valid d = true ->
  B64.ltb B64.zero s = true -> B64.leb B64.zero d = true -> 0 <= r ->
  simulate_wetness s d r = Ok w -> B64.is_nan w = false ->
  exists f, front_term d r = Ok f /\ B64.leb f w = true.
Proof.
  intros Vs Vd Ps Pd Hr Hw Nw.
  destruct (ltb_zero_pos s Vs Ps) as [NNs Os].
  pose proof (leb_zero_nonneg d Vd Pd) as NNd.
  pose proof (of_int_nonneg r Hr) as NNr.
  apply simulate_wetness_ok in Hw. destruct Hw as (_ & Hf & ->).
  apply is_nan_false in Nw.
  destruct (wetness_parts s d _ NNs Os NNd NNr Nw) as (_ & _ & NA & NB).
  exists (B64.mul (B64.mul (B64.of_Z r) front_area) d). split.
  - unfold front_term, int_mul. rewrite Hf. reflexivity.
  - unfold wetness_value, B64.leb.
    change B64.add with (SFadd 53 1024) in *. change B64.mul with (SFmul 53 1024) in *.
    change B64.div with (SFdiv 53 1024) in *.
    rewrite leb_ordinal by (try apply add_nonneg; assumption).
    apply Z.leb_le. rewrite <- (add_zero_l _ NB) at 1.
    apply add_mono_l; try assumption; try reflexivity.
    pose proof (nonneg_ordinal_bounds _ NA). change (ordinal (S754_zero false)) with 0. lia.
Qed.

Lemma C9_front_lower_bound_witness :
  let w := S754_finite false 5490725236363635 (-30) in
  simulate_wetness (B64.decimal 33 10) default_distance default_density = Ok w /\
  exists f, front_term default_distance default_density = Ok f /\ B64.leb f w = true.
Proof.
  cbv zeta. split; [vm_compute; reflexivity|].
  apply (C9_front_lower_bound (B64.decimal 33 10) default_distance default_density);
    solve [vm_compute; reflexivity | vm_compute; discriminate].
Defined.

(** C10, as stated, fails: at speed 2, distance 0 and density [10^308]
    the front product overflows to infinity, and infinity times zero is
    NaN, not 0. *)
Lemma C10_counterexample :
  B64.is_zero (B64.of_Z 2) = false /\
  simulate_wetness (B64.of_Z 2) (B64.of_Z 0) (10 ^ 308) = Ok S754_nan /\
  B64.is_zero S754_nan = false /\ B64.eqb S754_nan B64.zero = false.
Proof. repeat split; vm_compute; reflexivity. Qed.

(** C10, amended.  At a distance of zero, an int or a float, and a
    speed that is a number other than zero, the result depends on the
    density alone.  It is zero exactly for the densities of magnitude
    below [front_overflow_density], about [1.849e307].  From there up
    to [2^1024 - 2^970] the product of the density and the front area
    is infinite and the result is NaN.  From [2^1024 - 2^970] on the
    density does not convert and the call raises [OverflowError]. *)
Theorem C10_zero_distance s dist d r :
  B64.is_zero s = false -> B64.is_nan s = false ->
  to_float dist = Ok d -> B64.is_zero d = true ->
  (Z.abs r < front_overflow_density ->
   exists w, simulate_wetness_num s dist r = Ok w /\ B64.is_zero w = true) /\
  (front_overflow_density <= Z.abs r < float_overflow_threshold ->
   simulate_wetness_num s dist r = Ok S754_nan) /\
  (float_overflow_threshold <= Z.abs r ->
   simulate_wetness_num s dist r = Raise OverflowError).
Proof.
  intros Hs Ns Hd Zd.
  rewrite (simulate_wetness_num_ok s dist d r Hd), simulate_wetness_eq, float_of_int_spec, Hs.
  assert (Hth : front_overflow_density < float_overflow_threshold) by (vm_compute; reflexivity).
  split; [|split]; intros Hr.
  - destruct (Z.leb_spec float_overflow_threshold (Z.abs r)) as [?|_]; [lia|].
    eexists. split; [reflexivity|].
    unfold wetness_value. apply add_zero_zero.
    + apply mul_finite_zero; [|apply div_zero_l; assumption].
      apply density_below_finite; try assumption; vm_compute; reflexivity.
    + apply mul_finite_zero; [|exact Zd].
      apply density_below_finite; try assumption; vm_compute; reflexivity.
  - destruct (Z.leb_spec float_overflow_threshold (Z.abs r)) as [?|_]; [lia|].
    f_equal. unfold wetness_value.
    destruct (density_above_infinite r Hr) as [sg E]. rewrite E.
    destruct d as [sd| | |]; try discriminate Zd.
    change (B64.mul (S754_infinity sg) (S754_zero sd)) with S754_nan.
    assert (HA : forall x, B64.add x S754_nan = S754_nan) by (intros x; destruct x; reflexivity).
    apply HA.
  - destruct (Z.leb_spec float_overflow_threshold (Z.abs r)) as [_|?]; [reflexivity|lia].
Qed.

Lemma C10_zero_distance_witness :
  let s := B64.decimal 33 10 in
  B64.is_zero s = false /\ B64.is_nan s = false /\
  to_float (PyInt 0) = Ok (B64.of_Z 0) /\ B64.is_zero (B64.of_Z 0) = true /\
  Z.abs default_density < front_overflow_density /\
  exists w, simulate_wetness_num s (PyInt 0) default_density = Ok w /\ B64.is_zero w = true.
Proof.
  cbv zeta. repeat (split; [reflexivity|]).
  apply (proj1 (C10_zero_distance (B64.decimal 33 10) (PyInt 0) (B64.of_Z 0) default_density
                  eq_refl eq_refl eq_refl eq_refl)).
  reflexivity.
Defined.

(** * Further properties of the calculator and the driver *)

(** ** Longer walks and heavier rain *)

Lemma leb_nonneg a b :
  nonneg a = true -> B64.valid b = true -> B64.leb a b = true ->
  nonneg b = true /\ ordinal a <= ordinal b.
Proof.
  intros Na Vb L.
  assert (Nb : nonneg b = true).
  { destruct a as [sa|sa| |sa ma ea]; try discriminate;
      destruct b as [sb|sb| |sb mb eb]; try discriminate; try reflexivity;
      destruct sa; try discriminate; destruct sb; try discriminate; try reflexivity;
      exact Vb. }
  split; [exact Nb|].
  unfold B64.leb in L. rewrite (leb_ordinal a b Na Nb) in L. apply Z.leb_le. exact L.
Qed.

(** X1. With the speed positive and the density non-negative, a longer
    distance never gives less wetness: for [0 <= d1 <= d2] the result
    at [d1] is at most the result at [d2], whenever both are numbers. *)
Theorem X1_wetness_monotone_in_distance s d1 d2 r w1 w2 :
  B64.valid s = true -> B64.valid d1 = true -> B64.valid d2 = true ->
  B64.ltb B64.zero s = true ->
  B64.leb B64.zero d1 = true -> B64.leb d1 d2 = true -> 0 <= r ->
  simulate_wetness s d1 r = Ok w1 -> simulate_wetness s d2 r = Ok w2 ->
  B64.is_nan w1 = false -> B64.is_nan w2 = false ->
  B64.leb w1 w2 = true.
Proof.
  intros Vs V1 V2 Ps P1 L12 Hr H1 H2 N1 N2.
  destruct (ltb_zero_pos s Vs Ps) as [NNs Os].
  pose proof (leb_zero_nonneg d1 V1 P1) as NN1.
  destruct (leb_nonneg d1 d2 NN1 V2 L12) as [NN2 O12].
  pose proof (of_int_nonneg r Hr) as NNr.
  apply simulate_wetness_ok in H1, H2.
  destruct H1 as (_ & _ & ->). destruct H2 as (_ & _ & ->).
  apply is_nan_false in N1, N2.
  destruct (wetness_parts s d1 _ NNs Os NN1 NNr N1) as (T1 & Rt & A1 & B1).
  destruct (wetness_parts s d2 _ NNs Os NN2 NNr N2) as (T2 & _ & A2 & B2).
  pose proof (mul_not_nan _ _ (proj2 (add_not_nan _ _ N1))) as [NQ _].
  unfold wetness_value in *.
  change B64.add with (SFadd 53 1024) in *. change B64.mul with (SFmul 53 1024) in *.
  change B64.div with (SFdiv 53 1024) in *.
  set (rf := B64.of_Z r) in *.
  assert (NNQ : nonneg (SFmul 53 1024 rf front_area) = true).
  { destruct (mul_nonneg rf front_area NNr nonneg_front_area) as [?|?]; [contradiction|assumption]. }
  assert (Ht : ordinal (SFdiv 53 1024 d1 s) <= ordinal (SFdiv 53 1024 d2 s)).
  { apply div_mono_l; try assumption; apply nonneg_not_nan; assumption. }
  assert (HA : ordinal (SFmul 53 1024 (SFmul 53 1024 rf top_area) (SFdiv 53 1024 d1 s)) <=
               ordinal (SFmul 53 1024 (SFmul 53 1024 rf top_area) (SFdiv 53 1024 d2 s))).
  { apply mul_mono_r; try assumption; apply nonneg_not_nan; assumption. }
  assert (HB : ordinal (SFmul 53 1024 (SFmul 53 1024 rf front_area) d1) <=
               ordinal (SFmul 53 1024 (SFmul 53 1024 rf front_area) d2)).
  { apply mul_mono_r; try assumption; apply nonneg_not_nan; assumption. }
  unfold B64.leb. rewrite leb_ordinal by (apply add_nonneg; assumption).
  apply Z.leb_le.
  apply Z.le_trans with
    (ordinal (SFadd 53 1024 (SFmul 53 1024 (SFmul 53 1024 rf top_area) (SFdiv 53 1024 d2 s))
                            (SFmul 53 1024 (SFmul 53 1024 rf front_area) d1))).
  - apply add_mono_l; assumption.
  - apply add_mono_r; assumption.
Qed.

Lemma X1_wetness_monotone_in_distance_witness :
  let w1 := S754_finite false 5490725236363635 (-30) in
  let w2 := S754_finite false 5490725236363635 (-29) in
  simulate_wetness (B64.decimal 33 10) (B64.of_Z 500) 1000 = Ok w1 /\
  simulate_wetness (B64.decimal 33 10) (B64.of_Z 1000) 1000 = Ok w2 /\
  B64.leb w1 w2 = true.
Proof.
  cbv zeta. split; [vm_compute; reflexivity|]. split; [vm_compute; reflexivity|].
  apply (X1_wetness_monotone_in_distance (B64.decimal 33 10) (B64.of_Z 500) (B64.of_Z 1000) 1000);
    solve [vm_compute; reflexivity | vm_compute; discriminate].
Defined.

(** X2. With the speed positive and the distance non-negative, heavier
    rain never gives less wetness: for densities [0 <= r1 <= r2] the
    result at [r1] is at most the result at [r2], whenever both are
    numbers. *)
Theorem X2_wetness_monotone_in_density s d r1 r2 w1 w2 :
  B64.valid s = true -> B64.valid d = true ->
  B64.ltb B64.zero s = true -> B64.leb B64.zero d = true ->
  0 <= r1 <= r2 ->
  simulate_wetness s d r1 = Ok w1 -> simulate_wetness s d r2 = Ok w2 ->
  B64.is_nan w1 = false -> B64.is_nan w2 = false ->
  B64.leb w1 w2 = true.
Proof.
  intros Vs Vd Ps Pd Hr H1 H2 N1 N2.
  destruct (ltb_zero_pos s Vs Ps) as [NNs Os].
  pose proof (leb_zero_nonneg d Vd Pd) as NNd.
  pose proof (of_int_nonneg r1 ltac:(lia)) as NNr1.
  pose proof (of_int_nonneg r2 ltac:(lia)) as NNr2.
  pose proof (of_Z_mono r1 r2 Hr) as HR.
  apply simulate_wetness_ok in H1, H2.
  destruct H1 as (_ & _ & ->). destruct H2 as (_ & _ & ->).
  apply is_nan_false in N1, N2.
  destruct (wetness_parts s d _ NNs Os NNd NNr1 N1) as (T & P1 & A1 & B1).
  destruct (wetness_parts s d _ NNs Os NNd NNr2 N2) as (_ & P2 & A2 & B2).
  pose proof (mul_not_nan _ _ (proj2 (add_not_nan _ _ N1))) as [NQ1 _].
  pose proof (mul_not_nan _ _ (proj2 (add_not_nan _ _ N2))) as [NQ2 _].
  unfold wetness_value in *.
  change B64.add with (SFadd 53 1024) in *. change B64.mul with (SFmul 53 1024) in *.
  change B64.div with (SFdiv 53 1024) in *.
  change (binary_normalize 53 1024 r1 0 false) with (B64.of_Z r1) in HR.
  change (binary_normalize 53 1024 r2 0 false) with (B64.of_Z r2) in HR.
  set (R1 := B64.of_Z r1) in *. set (R2 := B64.of_Z r2) in *.
  assert (NNQ1 : nonneg (SFmul 53 1024 R1 front_area) = true).
  { destruct (mul_nonneg R1 front_area NNr1 nonneg_front_area) as [?|?]; [contradiction|assumption]. }
  assert (NNQ2 : nonneg (SFmul 53 1024 R2 front_area) = true).
  { destruct (mul_nonneg R2 front_area NNr2 nonneg_front_area) as [?|?]; [contradiction|assumption]. }
  assert (HP : ordinal (SFmul 53 1024 R1 top_area) <= ordinal (SFmul 53 1024 R2 top_area)).
  { apply mul_mono_l; try assumption; try apply nonneg_top_area; apply nonneg_not_nan; assumption. }
  assert (HQ : ordinal (SFmul 53 1024 R1 front_area) <= ordinal (SFmul 53 1024 R2 front_area)).
  { apply mul_mono_l; try assumption; try apply nonneg_front_area; apply nonneg_not_nan; assumption. }
  assert (HA : ordinal (SFmul 53 1024 (SFmul 53 1024 R1 top_area) (SFdiv 53 1024 d s)) <=
               ordinal (SFmul 53 1024 (SFmul 53 1024 R2 top_area) (SFdiv 53 1024 d s))).
  { apply mul_mono_l; try assumption; apply nonneg_not_nan; assumption. }
  assert (HB : ordinal (SFmul 53 1024 (SFmul 53 1024 R1 front_area) d) <=
               ordinal (SFmul 53 1024 (SFmul 53 1024 R2 front_area) d)).
  { apply mul_mono_l; try assumption; apply nonneg_not_nan; assumption. }
  unfold B64.leb. rewrite leb_ordinal by (apply add_nonneg; assumption).
  apply Z.leb_le.
  apply Z.le_trans with
    (ordinal (SFadd 53 1024 (SFmul 53 1024 (SFmul 53 1024 R2 top_area) (SFdiv 53 1024 d s))
                            (SFmul 53 1024 (SFmul 53 1024 R1 front_area) d))).
  - apply add_mono_l; assumption.
  - apply add_mono_r; assumption.
Qed.

Lemma X2_wetness_monotone_in_density_witness :
  let w1 := S754_finite false 5490725236363635 (-30) in
  let w2 := S754_finite false 5490725236363635 (-29) in
  simulate_wetness (B64.decimal 33 10) (B64.of_Z 500) 1000 = Ok w1 /\
  simulate_wetness (B64.decimal 33 10) (B64.of_Z 500) 2000 = Ok w2 /\
  B64.leb w1 w2 = true.
Proof.
  cbv zeta. split; [vm_compute; reflexivity|]. split; [vm_compute; reflexivity|].
  apply (X2_wetness_monotone_in_density (B64.decimal 33 10) (B64.of_Z 500) 1000 2000);
    solve [vm_compute; reflexivity | vm_compute; discriminate | lia].
Defined.

(** ** Runs that return a number *)

Lemma div_nonneg_not_nan d s :
  nonneg d = true -> nonneg s = true -> 0 < ordinal s ->
  B64.is_finite s = true \/ B64.is_finite d = true ->
  nonneg (SFdiv 53 1024 d s) = true.
Proof.
  intros Nd Ns Ps Hfin.
  destruct (div_nonneg d s Nd Ns Ps) as [E|N]; [exfalso|exact N].
  destruct d as [sd|sd| |sd md ed]; destruct s as [ss|ss| |ss ms es]; try discriminate;
    try (cbn [ordinal] in Ps; lia);
    try (destruct Hfin; discriminate).
  apply nonneg_finite_bounded in Nd, Ns. destruct Nd as [-> _]. destruct Ns as [-> _].
  revert E. rewrite div_finite_ord. apply float_of_ord_nan.
Qed.

Lemma posfin_mul_nonneg x t :
  posfin x -> nonneg t = true -> nonneg (SFmul 53 1024 x t) = true.
Proof.
  intros Px Nt. destruct (posfin_shape x Px) as (mx & ex & -> & Bx).
  destruct t as [st|st| |st mt et]; try discriminate.
  - reflexivity.
  - apply nonneg_inf in Nt. subst st. reflexivity.
  - apply nonneg_finite_bounded in Nt. destruct Nt as [-> Bt].
    rewrite mul_finite_ord by assumption.
    destruct (mul_nonneg (S754_finite false mx ex) (S754_finite false mt et)) as [E|N];
      try assumption.
    + exfalso. revert E. rewrite mul_finite_ord by assumption. apply float_of_ord_nan.
    + rewrite mul_finite_ord in N by assumption. exact N.
Qed.

Lemma density_area_posfin r :
  1 <= r <= 10 ^ 307 ->
  posfin (SFmul 53 1024 (B64.of_Z r) top_area) /\
  posfin (SFmul 53 1024 (B64.of_Z r) front_area).
Proof.
  intros Hr.
  pose proof (of_Z_within 1 (10 ^ 307) r ltac:(lia) Hr) as WR.
  assert (P1 : posfin (B64.of_Z 1)) by pf.
  assert (PH : posfin (B64.of_Z (10 ^ 307))) by pf.
  assert (Ptop : posfin top_area) by pf. assert (Pfront : posfin front_area) by pf.
  pose proof (within_refl top_area nonneg_top_area) as Wtop.
  pose proof (within_refl front_area nonneg_front_area) as Wfront.
  pose proof (mul_within _ _ _ _ _ _ P1 PH Ptop Ptop WR Wtop) as WP.
  pose proof (mul_within _ _ _ _ _ _ P1 PH Pfront Pfront WR Wfront) as WQ.
  assert (PPl : posfin (SFmul 53 1024 (B64.of_Z 1) top_area)) by pf.
  assert (PPh : posfin (SFmul 53 1024 (B64.of_Z (10 ^ 307)) top_area)) by pf.
  assert (PQl : posfin (SFmul 53 1024 (B64.of_Z 1) front_area)) by pf.
  assert (PQh : posfin (SFmul 53 1024 (B64.of_Z (10 ^ 307)) front_area)) by pf.
  split.
  - exact (within_posfin _ _ _ PPl PPh WP).
  - exact (within_posfin _ _ _ PQl PQh WQ).
Qed.

(** At a float distance of zero or more, a speed above zero, the two
    not both infinite, and a density from 1 to [10^307], no exception
    is raised and the result is not NaN and is at least zero. *)
Lemma float_distance_is_a_number s d r :
  B64.valid s = true -> B64.valid d = true ->
  B64.ltb B64.zero s = true -> B64.leb B64.zero d = true ->
  B64.is_finite s = true \/ B64.is_finite d = true ->
  1 <= r <= 10 ^ 307 ->
  exists w, simulate_wetness s d r = Ok w /\
            B64.is_nan w = false /\ B64.leb B64.zero w = true.
Proof.
  intros Vs Vd Ps Pd Hfin Hr.
  destruct (ltb_zero_pos s Vs Ps) as [NNs Os].
  pose proof (leb_zero_nonneg d Vd Pd) as NNd.
  destruct (density_area_posfin r Hr) as [PP PQ].
  pose proof (div_nonneg_not_nan d s NNd NNs Os Hfin) as Nt.
  pose proof (posfin_mul_nonneg _ _ PP Nt) as NA.
  pose proof (posfin_mul_nonneg _ _ PQ NNd) as NB.
  pose proof (add_nonneg _ _ NA NB) as Nw.
  exists (wetness_value s d (B64.of_Z r)).
  split; [|split].
  - rewrite simulate_wetness_eq, float_of_int_spec.
    assert (Z0 : B64.is_zero s = false).
    { destruct s; try reflexivity. cbn [ordinal] in Os. lia. }
    rewrite Z0.
    assert (T : (float_overflow_threshold <=? Z.abs r) = false).
    { apply Z.leb_gt. unfold float_overflow_threshold. lia. }
    rewrite T. reflexivity.
  - unfold wetness_value. change B64.add with (SFadd 53 1024).
    change B64.mul with (SFmul 53 1024). change B64.div with (SFdiv 53 1024).
    destruct (SFadd 53 1024 _ _); try reflexivity. discriminate Nw.
  - apply nonneg_leb_zero. exact Nw.
Qed.

(** X3. On physical inputs the calculator returns a number: for a
    speed above zero, a distance of zero or more that is a float or an
    int that converts to a float (its magnitude is below
    [2^1024 - 2^970]), the speed and the distance not both infinite, and
    a density from 1 to [10^307], no exception is raised and the result
    is not NaN and is at least zero (it may be infinite). *)
Theorem X3_wetness_is_a_number s dist d r :
  B64.valid s = true -> to_float dist = Ok d -> B64.valid d = true ->
  B64.ltb B64.zero s = true -> B64.leb B64.zero d = true ->
  B64.is_finite s = true \/ B64.is_finite d = true ->
  1 <= r <= 10 ^ 307 ->
  exists w, simulate_wetness_num s dist r = Ok w /\
            B64.is_nan w = false /\ B64.leb B64.zero w = true.
Proof.
  intros Vs Hd Vd Ps Pd Hfin Hr.
  rewrite (simulate_wetness_num_ok s dist d r Hd).
  apply float_distance_is_a_number; assumption.
Qed.

Lemma X3_wetness_is_a_number_witness :
  exists w, simulate_wetness_num (B64.decimal 33 10) (PyInt 500) default_density = Ok w /\
            B64.is_nan w = false /\ B64.leb B64.zero w = true.
Proof.
  apply (X3_wetness_is_a_number (B64.decimal 33 10) (PyInt 500) (B64.of_Z 500)
           default_density);
    try solve [vm_compute; reflexivity].
  - left. vm_compute. reflexivity.
  - unfold default_density. lia.
Defined.

(** ** The error of a quotient and of a converted integer *)

Lemma pow2Q_sub a b : (pow2Q (a - b) == pow2Q a / pow2Q b)%Q.
Proof.
  pose proof (pow2Q_pos b) as Pb.
  assert (E : (pow2Q a == pow2Q (a - b) * pow2Q b)%Q).
  { rewrite <- pow2Q_add. replace (a - b + b) with a by lia. reflexivity. }
  rewrite E. field. lra.
Qed.

Lemma div_error mx ex my ey :
  let x := S754_finite false mx ex in
  let y := S754_finite false my ey in
  2 ^ 52 < ordinal (SFdiv 53 1024 x y) < ord_inf ->
  (Qabs (F2Q (SFdiv 53 1024 x y) - F2Q x / F2Q y) <= u53 * (F2Q x / F2Q y))%Q.
Proof.
  intros x y Hr. unfold x, y in *.
  pose proof (div_pre (Z.pos mx) ex (Z.pos my) ey ltac:(lia) ltac:(lia)) as [Hs Hp].
  cbv zeta in Hs, Hp.
  rewrite div_finite_ord in *. unfold round_div in *.
  set (e' := div_exp (Z.pos mx) ex (Z.pos my) ey) in *.
  set (s := ex - ey - e') in *.
  pose proof (pow2_pos s Hs) as Ps.
  assert (Ha : 0 <= Z.pos mx * 2 ^ s) by nia.
  assert (Ho : 0 <= round_ord (Z.pos mx * 2 ^ s) (Z.pos my) e').
  { apply round_ord_nonneg; (lia || exact Hp). }
  rewrite ordinal_float_of_ord in Hr by exact Ho.
  pose proof (round_ord_error (Z.pos mx * 2 ^ s) (Z.pos my) e' Ha ltac:(lia) Hp
                ltac:(lia) ltac:(right; lia)) as Herr.
  assert (Hd : (inject_Z (Z.pos mx * 2 ^ s) / inject_Z (Z.pos my) * pow2Q e' ==
                F2Q (S754_finite false mx ex) / F2Q (S754_finite false my ey))%Q).
  { rewrite !F2Q_finite, inject_Z_mult, <- (pow2Q_Z s) by exact Hs.
    assert (E : (pow2Q s * pow2Q e' == pow2Q ex / pow2Q ey)%Q).
    { rewrite <- pow2Q_add, <- pow2Q_sub. replace (s + e') with (ex - ey) by (unfold s; lia).
      reflexivity. }
    pose proof (pow2Q_pos ey) as Pe.
    assert (Pm : (0 < inject_Z (Z.pos my))%Q) by reflexivity.
    assert (E' : (inject_Z (Z.pos mx) * pow2Q s / inject_Z (Z.pos my) * pow2Q e' ==
                  inject_Z (Z.pos mx) / inject_Z (Z.pos my) * (pow2Q s * pow2Q e'))%Q)
      by (field; lra).
    rewrite E', E. field. split; lra. }
  rewrite Hd in Herr. exact Herr.
Qed.

Lemma div_rel x y :
  posfin x -> posfin y ->
  2 ^ 52 < ordinal (SFdiv 53 1024 x y) < ord_inf ->
  rel (F2Q (SFdiv 53 1024 x y)) (F2Q x / F2Q y).
Proof.
  intros Hx Hy. destruct (posfin_shape x Hx) as (mx & ex & -> & Bx).
  destruct (posfin_shape y Hy) as (my & ey & -> & By0).
  apply div_error.
Qed.

Lemma of_Z_rel r :
  0 < r -> ordinal (B64.of_Z r) < ord_inf -> rel (F2Q (B64.of_Z r)) (inject_Z r).
Proof.
  intros Hr Ho. unfold B64.of_Z, B64.prec, B64.emax in *.
  rewrite (of_Z_ord r Hr) in *.
  rewrite ordinal_float_of_ord in Ho by (apply round_dy_nonneg; exact Hr).
  pose proof (round_dy_error r 0 Hr ltac:(unfold emin; lia) ltac:(lia)) as Herr.
  assert (E : (inject_Z r * pow2Q 0 == inject_Z r)%Q).
  { change (pow2Q 0) with 1%Q. ring. }
  unfold rel. rewrite E in Herr. exact Herr.
Qed.

(** ** Chains of roundings *)

Lemma rel_nonneg x y : rel x y -> (0 <= y)%Q.
Proof.
  unfold rel, u53. intros H. pose proof (Qabs_nonneg (x - y)). lra.
Qed.

Lemma between_of_rel x y : rel x y -> between (1 - u53) (1 + u53) x y.
Proof. apply rel_bounds. Qed.

Lemma between_exact x : between 1 1 x x.
Proof. unfold between. split; lra. Qed.

Lemma between_rel l h x y X :
  rel x y -> between l h y X ->
  between ((1 - u53) * l) ((1 + u53) * h) x X.
Proof.
  intros Hr [L U]. apply rel_bounds in Hr. destruct Hr as [L' U'].
  unfold between, u53 in *. split; lra.
Qed.

Lemma between_mul l1 h1 x X l2 h2 y Y :
  (0 <= l1)%Q -> (0 <= l2)%Q -> (0 <= X)%Q -> (0 <= Y)%Q ->
  between l1 h1 x X -> between l2 h2 y Y ->
  between (l1 * l2) (h1 * h2) (x * y) (X * Y).
Proof.
  intros Hl1 Hl2 HX HY [L1 U1] [L2 U2].
  assert (P1 : (0 <= l1 * X)%Q) by (apply Qmult_le_0_compat; assumption).
  assert (P2 : (0 <= l2 * Y)%Q) by (apply Qmult_le_0_compat; assumption).
  split.
  - assert (E : (l1 * l2 * (X * Y) == (l1 * X) * (l2 * Y))%Q) by ring.
    rewrite E. apply Qmult_le_compat_nonneg; split; assumption.
  - assert (E : (h1 * h2 * (X * Y) == (h1 * X) * (h2 * Y))%Q) by ring.
    rewrite E. apply Qmult_le_compat_nonneg; split; try assumption; lra.
Qed.

Lemma between_add l h x X y Y :
  between l h x X -> between l h y Y -> between l h (x + y) (X + Y).
Proof. unfold between. intros [L1 U1] [L2 U2]. split; lra. Qed.

Lemma between_weaken l h l' h' x X :
  (0 <= X)%Q -> (l' <= l)%Q -> (h <= h')%Q -> between l h x X -> between l' h' x X.
Proof.
  intros HX Hl Hh [L U].
  pose proof (Qmult_le_compat_r _ _ X Hl HX). pose proof (Qmult_le_compat_r _ _ X Hh HX).
  split; lra.
Qed.

Lemma between_abs l h e x X :
  (0 <= X)%Q -> (1 - e <= l)%Q -> (h <= 1 + e)%Q -> between l h x X ->
  (Qabs (x - X) <= e * X)%Q.
Proof.
  intros HX Hl Hh [L U].
  pose proof (Qmult_le_compat_r _ _ X Hl HX). pose proof (Qmult_le_compat_r _ _ X Hh HX).
  apply Qabs_le_iff. split; lra.
Qed.

Lemma top_area_rel : rel (F2Q top_area) (20 / 12 * (12 / 12)).
Proof. unfold rel. conc. Qed.

Lemma front_area_rel : rel (F2Q front_area) (70 / 12 * (20 / 12)).
Proof. unfold rel. conc. Qed.

(** X4. Inside the range the calculator is accurate: for a speed and a
    distance from [2^-256] to [2^256] and a density from 1 to [2^256]
    it returns a finite float above zero that is within [2^-50],
    relatively, of the value its formula has over the rationals. *)
Theorem X4_wetness_accuracy s d r :
  B64.valid s = true -> B64.valid d = true ->
  B64.leb range_lo s = true -> B64.leb s range_hi = true ->
  B64.leb range_lo d = true -> B64.leb d range_hi = true ->
  1 <= r <= density_hi ->
  exists w,
    simulate_wetness s d r = Ok w /\
    B64.is_finite w = true /\ B64.ltb B64.zero w = true /\
    (Qabs (F2Q w - exact_wetness (F2Q s) (F2Q d) (inject_Z r))
     <= (1 # 2 ^ 50) * exact_wetness (F2Q s) (F2Q d) (inject_Z r))%Q.
Proof.
  intros Vs Vd Ls Us Ld Ud Hr.
  destruct (in_range_run s d r Vs Ls Us Hr) as (Ws & WR & Hrun & Hf).
  assert (Plo : posfin range_lo) by pf. assert (Phi : posfin range_hi) by pf.
  assert (Wd : within range_lo range_hi d) by (apply leb_within; try assumption; try conc; pf).
  destruct (in_range_parts_density s d (B64.of_Z r) Ws Wd WR)
    as ((PR & Pd & Pt & PP & PA & PQ & PB & Pw) & (EP & EA & EQ & EB & Ew) & _ & _).
  cbv zeta in *.
  assert (Ps : posfin s) by (apply (within_posfin range_lo range_hi); assumption).
  assert (ER : rel (F2Q (B64.of_Z r)) (inject_Z r)) by (apply of_Z_rel; [lia|apply PR]).
  assert (Et : rel (F2Q (B64.div d s)) (F2Q d / F2Q s)).
  { apply div_rel; try assumption.
    pose proof (div_within _ _ _ _ _ _ Plo Phi Plo Phi Wd Ws) as Wt.
    apply (within_normal _ _ _ Wt); conc. }
  exists (wetness_value s d (B64.of_Z r)).
  split; [exact Hrun|]. split; [apply posfin_finite; exact Pw|].
  split.
  { unfold B64.ltb, wetness_value. rewrite (ltb_ordinal B64.zero _ eq_refl (proj1 Pw)).
    apply Z.ltb_lt. cbn [ordinal B64.zero]. apply Pw. }
  unfold wetness_value, exact_wetness. cbv zeta.
  set (R := B64.of_Z r) in *. set (t := B64.div d s) in *.
  set (P := B64.mul R top_area) in *. set (A := B64.mul P t) in *.
  set (Q := B64.mul R front_area) in *. set (B := B64.mul Q d) in *.
  set (rq := inject_Z r) in *. set (tq := (F2Q d / F2Q s)%Q) in *.
  set (p := (20 / 12 * (12 / 12))%Q). set (q := (70 / 12 * (20 / 12))%Q).
  pose proof top_area_rel as ET. pose proof front_area_rel as EF. fold p in ET. fold q in EF.
  pose proof (rel_nonneg _ _ ER) as Nr. pose proof (rel_nonneg _ _ Et) as Nt.
  pose proof (rel_nonneg _ _ ET) as Np. pose proof (rel_nonneg _ _ EF) as Nq.
  pose proof (F2Q_nonneg d (proj1 Pd)) as Nd.
  assert (Nrp : (0 <= rq * p)%Q) by (apply Qmult_le_0_compat; assumption).
  assert (Nrq : (0 <= rq * q)%Q) by (apply Qmult_le_0_compat; assumption).
  assert (NA : (0 <= rq * p * tq)%Q) by (apply Qmult_le_0_compat; assumption).
  assert (NB : (0 <= rq * q * F2Q d)%Q) by (apply Qmult_le_0_compat; assumption).
  assert (U0 : (0 <= 1 - u53)%Q) by conc.
  (* rain from above: five roundings *)
  pose proof (between_mul _ _ _ _ _ _ _ _ U0 U0 Nr Np
                (between_of_rel _ _ ER) (between_of_rel _ _ ET)) as bRT.
  pose proof (between_rel _ _ _ _ _ EP bRT) as bP.
  pose proof (fun H => between_mul _ _ _ _ _ _ _ _ H U0 Nrp Nt
                         bP (between_of_rel _ _ Et)) as bPt.
  specialize (bPt ltac:(conc)).
  pose proof (between_rel _ _ _ _ _ EA bPt) as bA.
  (* rain from the front: four roundings *)
  pose proof (between_mul _ _ _ _ _ _ _ _ U0 U0 Nr Nq
                (between_of_rel _ _ ER) (between_of_rel _ _ EF)) as bRF.
  pose proof (between_rel _ _ _ _ _ EQ bRF) as bQ.
  pose proof (fun H H' => between_mul _ _ _ _ _ _ _ _ H H' Nrq Nd
                            bQ (between_exact (F2Q d))) as bQd.
  specialize (bQd ltac:(conc) ltac:(conc)).
  pose proof (between_rel _ _ _ _ _ EB bQd) as bB.
  (* the sum *)
  pose proof (fun H H' => between_weaken _ _ (1 - (6 # 2 ^ 53)) (1 + (6 # 2 ^ 53)) _ _ NA
                            H H' bA) as bA'.
  specialize (bA' ltac:(conc) ltac:(conc)).
  pose proof (fun H H' => between_weaken _ _ (1 - (6 # 2 ^ 53)) (1 + (6 # 2 ^ 53)) _ _ NB
                            H H' bB) as bB'.
  specialize (bB' ltac:(conc) ltac:(conc)).
  pose proof (between_rel _ _ _ _ _ Ew (between_add _ _ _ _ _ _ bA' bB')) as bw.
  pose proof (fun H H' H'' => between_abs _ _ (1 # 2 ^ 50) _ _ H H' H'' bw) as Habs.
  apply Habs; [lra|conc|conc].
Qed.

Lemma X4_wetness_accuracy_witness :
  exists w,
    simulate_wetness (B64.decimal 33 10) default_distance default_density = Ok w /\
    B64.is_finite w = true /\ B64.ltb B64.zero w = true /\
    (Qabs (F2Q w - exact_wetness (F2Q (B64.decimal 33 10)) (F2Q default_distance)
                     (inject_Z default_density))
     <= (1 # 2 ^ 50) * exact_wetness (F2Q (B64.decimal 33 10)) (F2Q default_distance)
                         (inject_Z default_density))%Q.
Proof.
  apply (X4_wetness_accuracy (B64.decimal 33 10) default_distance default_density);
    solve [vm_compute; reflexivity | vm_compute; split; discriminate].
Defined.

(** ** Floats stay floats *)

Lemma float_of_ord_valid sx o : 0 <= o -> B64.valid (float_of_ord sx o) = true.
Proof.
  intros Ho. destruct (Z.eq_dec o 0) as [->|Hz]; [reflexivity|].
  destruct (float_of_ord_cases sx o Ho) as [[_ ->]|[Hlt _]]; [reflexivity|].
  destruct (float_of_ord_shape sx o ltac:(lia)) as (m & e & -> & B). exact B.
Qed.

Lemma of_Z_valid r : B64.valid (B64.of_Z r) = true.
Proof.
  destruct (Z.eq_dec r 0) as [->|Hz]; [reflexivity|].
  rewrite (of_Z_sign r Hz). apply float_of_ord_valid. apply round_dy_nonneg. lia.
Qed.

Lemma mul_valid x y :
  B64.valid x = true -> B64.valid y = true -> B64.valid (SFmul 53 1024 x y) = true.
Proof.
  intros Vx Vy.
  destruct x as [sx|sx| |sx mx ex]; destruct y as [sy|sy| |sy my ey]; try reflexivity.
  rewrite mul_finite_sign by assumption. apply float_of_ord_valid, round_dy_nonneg. lia.
Qed.

Lemma mul_finite_not_nan x y :
  B64.valid x = true -> B64.valid y = true ->
  B64.is_finite x = true -> B64.is_finite y = true ->
  B64.is_nan (SFmul 53 1024 x y) = false.
Proof.
  intros Vx Vy Fx Fy.
  destruct x as [sx|sx| |sx mx ex]; try discriminate Fx;
    destruct y as [sy|sy| |sy my ey]; try discriminate Fy; try reflexivity.
  rewrite mul_finite_sign by assumption.
  pose proof (float_of_ord_nan (xorb sx sy) (round_dy (Z.pos mx * Z.pos my) (ex + ey))) as H.
  destruct (float_of_ord _ _); try reflexivity. contradiction.
Qed.

Lemma eqb_refl x : B64.is_nan x = false -> B64.eqb x x = true.
Proof.
  destruct x as [s|s| |s m e]; try discriminate; intros _; unfold B64.eqb, SFeqb, SFcompare;
    try (destruct s; reflexivity).
  zstd. destruct s; rewrite Z.compare_refl, Pos.compare_cont_refl; reflexivity.
Qed.

Lemma add_zero_eqb z y :
  B64.is_zero z = true -> B64.is_nan y = false -> B64.eqb (SFadd 53 1024 z y) y = true.
Proof.
  intros Hz Ny. destruct z as [sz| | |]; try discriminate Hz.
  destruct y as [sy|sy| |sy my ey]; try discriminate Ny.
  - destruct sz, sy; reflexivity.
  - destruct sy; reflexivity.
  - change (SFadd 53 1024 (S754_zero sz) (S754_finite sy my ey)) with (S754_finite sy my ey).
    apply eqb_refl. reflexivity.
Qed.

(** ** Edge inputs: NaN, infinite speed, no rain *)

(** At a float distance: when the speed or the distance is NaN (and
    the speed is not zero and the density converts to a float), the
    result is NaN. *)
Lemma float_distance_nan s d r :
  B64.is_nan s = true \/ B64.is_nan d = true ->
  B64.is_zero s = false -> Z.abs r < float_overflow_threshold ->
  simulate_wetness s d r = Ok S754_nan.
Proof.
  intros Hn Hs Hr.
  rewrite simulate_wetness_eq, float_of_int_spec, Hs.
  destruct (Z.leb_spec float_overflow_threshold (Z.abs r)) as [?|_]; [lia|].
  f_equal. unfold wetness_value.
  assert (Ht : B64.div d s = S754_nan).
  { destruct Hn as [Hn|Hn].
    - destruct s; try discriminate Hn. destruct d; reflexivity.
    - destruct d; try discriminate Hn. reflexivity. }
  rewrite Ht.
  assert (HA : forall x, B64.mul x S754_nan = S754_nan) by (intros x; destruct x; reflexivity).
  rewrite HA. reflexivity.
Qed.

(** X5. NaN in, NaN out: when the speed or the distance is NaN, the
    speed is not zero, the distance is a float or an int that converts
    to a float, and the density converts to a float, the calculator
    raises nothing and returns NaN. *)
Theorem X5_nan_propagates s dist d r :
  to_float dist = Ok d ->
  B64.is_nan s = true \/ B64.is_nan d = true ->
  B64.is_zero s = false -> Z.abs r < float_overflow_threshold ->
  simulate_wetness_num s dist r = Ok S754_nan.
Proof.
  intros Hd Hn Hs Hr.
  rewrite (simulate_wetness_num_ok s dist d r Hd).
  apply float_distance_nan; assumption.
Qed.

Lemma X5_nan_propagates_witness :
  simulate_wetness_num S754_nan (PyInt 500) default_density = Ok S754_nan.
Proof.
  apply (X5_nan_propagates S754_nan (PyInt 500) (B64.of_Z 500) default_density).
  - reflexivity.
  - left. reflexivity.
  - reflexivity.
  - vm_compute. reflexivity.
Defined.

(** X6. At infinite speed only the front term is left: for a finite
    distance and a density of magnitude at most [10^307],
    [simulate_wetness(inf, d, r)] compares equal to
    [r * (70/12 * 20/12) * d]. *)
Theorem X6_infinite_speed_front_only si d r :
  B64.valid d = true -> B64.is_finite d = true -> Z.abs r <= 10 ^ 307 ->
  exists w f,
    simulate_wetness (S754_infinity si) d r = Ok w /\ front_term d r = Ok f /\
    B64.eqb w f = true.
Proof.
  intros Vd Fd Hr.
  assert (Hth : 10 ^ 307 < float_overflow_threshold) by (vm_compute; reflexivity).
  assert (Hf : float_of_int r = Ok (B64.of_Z r)).
  { rewrite float_of_int_spec.
    destruct (Z.leb_spec float_overflow_threshold (Z.abs r)) as [?|_]; [lia|reflexivity]. }
  destruct (small_density_finite r Hr) as [Ft Ff].
  exists (wetness_value (S754_infinity si) d (B64.of_Z r)),
         (B64.mul (B64.mul (B64.of_Z r) front_area) d).
  split; [|split].
  - rewrite simulate_wetness_eq, Hf. reflexivity.
  - unfold front_term, int_mul. rewrite Hf. reflexivity.
  - unfold wetness_value. apply add_zero_eqb.
    + apply mul_finite_zero; [exact Ft|].
      destruct d as [sd|sd| |sd md ed]; try discriminate Fd; reflexivity.
    + apply mul_finite_not_nan; try assumption.
      apply mul_valid; [apply of_Z_valid|reflexivity].
Qed.

Lemma X6_infinite_speed_front_only_witness :
  exists w f,
    simulate_wetness (S754_infinity false) default_distance default_density = Ok w /\
    front_term default_distance default_density = Ok f /\ B64.eqb w f = true.
Proof.
  apply (X6_infinite_speed_front_only false default_distance default_density);
    try reflexivity.
  vm_compute. discriminate.
Defined.

(** X7. No rain, no wetness: with density 0 the result is zero for
    every speed other than zero and every finite distance for which
    [time_in_rain] is finite. *)
Theorem X7_zero_density s d :
  B64.is_zero s = false -> B64.is_finite d = true ->
  B64.is_finite (B64.div d s) = true ->
  exists w, simulate_wetness s d 0 = Ok w /\ B64.is_zero w = true.
Proof.
  intros Hs Fd Ft.
  rewrite simulate_wetness_eq, Hs.
  eexists. split; [reflexivity|].
  unfold wetness_value. change (B64.of_Z 0) with (S754_zero false).
  change (B64.mul (S754_zero false) top_area) with (S754_zero false).
  change (B64.mul (S754_zero false) front_area) with (S754_zero false).
  apply add_zero_zero.
  - destruct (B64.div d s) as [st|st| |st mt et]; try discriminate Ft; reflexivity.
  - destruct d as [sd|sd| |sd md ed]; try discriminate Fd; reflexivity.
Qed.

Lemma X7_zero_density_witness :
  exists w, simulate_wetness (B64.decimal 33 10) default_distance 0 = Ok w /\
            B64.is_zero w = true.
Proof.
  apply (X7_zero_density (B64.decimal 33 10) default_distance); reflexivity.
Defined.

(** ** Changing a sign *)

Lemma round_aux_opp sx m e l :
  binary_round_aux 53 1024 (negb sx) m e l = SFopp (binary_round_aux 53 1024 sx m e l).
Proof.
  unfold binary_round_aux.
  destruct (shr_fexp 53 1024 m e l) as [mrs' e'].
  destruct (shr_fexp 53 1024 _ e' loc_Exact) as [mrs'' e''].
  destruct (shr_m mrs''); try reflexivity.
  destruct (_ <=? _)%Z; reflexivity.
Qed.

Lemma xorb_negb_r a b : xorb a (negb b) = negb (xorb a b).
Proof. destruct a, b; reflexivity. Qed.

Lemma xorb_negb_l a b : xorb (negb a) b = negb (xorb a b).
Proof. destruct a, b; reflexivity. Qed.

Lemma div_opp_r x y : SFdiv 53 1024 x (SFopp y) = SFopp (SFdiv 53 1024 x y).
Proof.
  destruct x as [sx|sx| |sx mx ex]; destruct y as [sy|sy| |sy my ey]; try reflexivity;
    cbn [SFdiv SFopp]; rewrite ?xorb_negb_r; try reflexivity.
  destruct (SFdiv_core_binary 53 1024 (Z.pos mx) ex (Z.pos my) ey) as [[mz ez] lz].
  apply round_aux_opp.
Qed.

Lemma div_opp_l x y : SFdiv 53 1024 (SFopp x) y = SFopp (SFdiv 53 1024 x y).
Proof.
  destruct x as [sx|sx| |sx mx ex]; destruct y as [sy|sy| |sy my ey]; try reflexivity;
    cbn [SFdiv SFopp]; rewrite ?xorb_negb_l; try reflexivity.
  destruct (SFdiv_core_binary 53 1024 (Z.pos mx) ex (Z.pos my) ey) as [[mz ez] lz].
  apply round_aux_opp.
Qed.

Lemma mul_opp_r x y : SFmul 53 1024 x (SFopp y) = SFopp (SFmul 53 1024 x y).
Proof.
  destruct x as [sx|sx| |sx mx ex]; destruct y as [sy|sy| |sy my ey]; try reflexivity;
    cbn [SFmul SFopp]; rewrite ?xorb_negb_r; try reflexivity.
  apply round_aux_opp.
Qed.

Lemma mul_opp_l x y : SFmul 53 1024 (SFopp x) y = SFopp (SFmul 53 1024 x y).
Proof.
  destruct x as [sx|sx| |sx mx ex]; destruct y as [sy|sy| |sy my ey]; try reflexivity;
    cbn [SFmul SFopp]; rewrite ?xorb_negb_l; try reflexivity.
  apply round_aux_opp.
Qed.

Lemma normalize_opp m e :
  m <> 0 ->
  binary_normalize 53 1024 (- m) e false = SFopp (binary_normalize 53 1024 m e false).
Proof.
  intros Hm. destruct m as [|p|p]; [contradiction| |]; cbn [Z.opp binary_normalize];
    unfold binary_round;
    destruct (shl_align p e _) as [mz ez].
  - apply (round_aux_opp false).
  - rewrite <- (round_aux_opp true). reflexivity.
Qed.

Lemma of_Z_opp r : r <> 0 -> B64.of_Z (- r) = SFopp (B64.of_Z r).
Proof. intros Hr. apply normalize_opp. exact Hr. Qed.

Lemma cond_Zopp_negb s v : cond_Zopp (negb s) v = - cond_Zopp s v.
Proof. destruct s; cbn [negb cond_Zopp]; zstd; lia. Qed.

(** The sum of two negated numbers is the negated sum, up to the sign
    of a zero result. *)
Lemma add_opp x y :
  SFadd 53 1024 (SFopp x) (SFopp y) = SFopp (SFadd 53 1024 x y) \/
  (B64.is_zero (SFadd 53 1024 x y) = true /\
   B64.is_zero (SFadd 53 1024 (SFopp x) (SFopp y)) = true).
Proof.
  destruct x as [sx|sx| |sx mx ex]; destruct y as [sy|sy| |sy my ey];
    try (left; reflexivity);
    try (destruct sx, sy; (left; reflexivity) || (right; split; reflexivity)).
  cbn [SFadd SFopp]. rewrite !cond_Zopp_negb.
  set (ez := IntDef.Z.min ex ey).
  set (a := cond_Zopp sx (Z.pos (fst (shl_align mx ex ez)))).
  set (b := cond_Zopp sy (Z.pos (fst (shl_align my ey ez)))).
  zstd.
  replace (- a + - b) with (- (a + b)) by lia.
  destruct (Z.eq_dec (a + b) 0) as [E|E].
  - right. rewrite E. split; reflexivity.
  - left. apply normalize_opp. exact E.
Qed.

Lemma opp_zero x : B64.is_zero (SFopp x) = B64.is_zero x.
Proof. destruct x; reflexivity. Qed.

(** ** Negative inputs *)

(** X8. A negative speed turns the sign of the rain from above only:
    when [r * (20/12 * 12/12) * (d / s)] evaluates to [a] and
    [r * (70/12 * 20/12) * d] to [f], the calculator at speed [-s]
    returns [-a + f]. *)
Theorem X8_negative_speed s d r a f :
  above_term s d r = Ok a -> front_term d r = Ok f ->
  simulate_wetness (SFopp s) d r = Ok (B64.add (SFopp a) f).
Proof.
  unfold above_term, front_term, int_mul, truediv.
  rewrite simulate_wetness_eq.
  destruct (float_of_int r) as [rf|e]; cbn [bind]; [|discriminate].
  intros Ha Hf. injection Hf as <-.
  assert (Zs : B64.is_zero (SFopp s) = B64.is_zero s) by apply opp_zero.
  rewrite Zs. destruct (B64.is_zero s); [discriminate|].
  injection Ha as <-. f_equal. unfold wetness_value.
  change B64.div with (SFdiv 53 1024). change B64.mul with (SFmul 53 1024).
  rewrite div_opp_r, mul_opp_r. reflexivity.
Qed.

Lemma X8_negative_speed_witness :
  let a := S754_finite false 7158278826666667 (-33) in
  let f := S754_finite false 5219578311111110 (-30) in
  above_term (B64.of_Z 1) default_distance default_density = Ok a /\
  front_term default_distance default_density = Ok f /\
  simulate_wetness (SFopp (B64.of_Z 1)) default_distance default_density =
  Ok (B64.add (SFopp a) f).
Proof.
  cbv zeta. split; [vm_compute; reflexivity|]. split; [vm_compute; reflexivity|].
  apply (X8_negative_speed (B64.of_Z 1) default_distance default_density);
    vm_compute; reflexivity.
Defined.

(** X9. Negating the density negates the result: when the calculator
    returns [w] at density [r], it returns [-w] at density [-r] (two
    zeros may differ in sign). *)
Theorem X9_negative_density s d r w :
  simulate_wetness s d r = Ok w ->
  exists w', simulate_wetness s d (- r) = Ok w' /\
             (w' = SFopp w \/ (B64.is_zero w = true /\ B64.is_zero w' = true)).
Proof.
  rewrite !simulate_wetness_eq, !float_of_int_spec, Z.abs_opp.
  destruct (B64.is_zero s); [discriminate|].
  destruct (float_overflow_threshold <=? Z.abs r); [discriminate|].
  intros H. injection H as <-. eexists. split; [reflexivity|].
  destruct (Z.eq_dec r 0) as [->|Hr].
  { change (- 0) with 0. unfold wetness_value.
    change (B64.of_Z 0) with (S754_zero false).
    change (B64.mul (S754_zero false) top_area) with (S754_zero false).
    change (B64.mul (S754_zero false) front_area) with (S754_zero false).
    destruct (B64.div d s) as [st|st| |st mt et]; destruct d as [sd|sd| |sd md ed];
      try (left; reflexivity);
      try (destruct st, sd; right; split; reflexivity). }
  rewrite (of_Z_opp r Hr). unfold wetness_value.
  change B64.div with (SFdiv 53 1024). change B64.mul with (SFmul 53 1024).
  change B64.add with (SFadd 53 1024).
  rewrite !mul_opp_l. apply add_opp.
Qed.

Lemma X9_negative_density_witness :
  exists w', simulate_wetness (B64.decimal 33 10) default_distance (- default_density) = Ok w' /\
             (w' = SFopp (S754_finite false 5490725236363635 (-30)) \/
              (B64.is_zero (S754_finite false 5490725236363635 (-30)) = true /\
               B64.is_zero w' = true)).
Proof.
  apply (X9_negative_density (B64.decimal 33 10) default_distance default_density).
  vm_compute. reflexivity.
Defined.

(** X10. Negating the distance negates the result: when the calculator
    returns [w] at distance [d], it returns [-w] at distance [-d] (two
    zeros may differ in sign). *)
Theorem X10_negative_distance s d r w :
  simulate_wetness s d r = Ok w ->
  exists w', simulate_wetness s (SFopp d) r = Ok w' /\
             (w' = SFopp w \/ (B64.is_zero w = true /\ B64.is_zero w' = true)).
Proof.
  rewrite !simulate_wetness_eq.
  destruct (B64.is_zero s); [discriminate|].
  destruct (float_of_int r) as [rf|e]; [|discriminate].
  intros H. injection H as <-. eexists. split; [reflexivity|].
  unfold wetness_value.
  change B64.div with (SFdiv 53 1024). change B64.mul with (SFmul 53 1024).
  change B64.add with (SFadd 53 1024).
  rewrite div_opp_l, !mul_opp_r. apply add_opp.
Qed.

Lemma X10_negative_distance_witness :
  exists w', simulate_wetness (B64.decimal 33 10) (SFopp default_distance) default_density = Ok w' /\
             (w' = SFopp (S754_finite false 5490725236363635 (-30)) \/
              (B64.is_zero (S754_finite false 5490725236363635 (-30)) = true /\
               B64.is_zero w' = true)).
Proof.
  apply (X10_negative_distance (B64.decimal 33 10) default_distance default_density).
  vm_compute. reflexivity.
Defined.

(** ** Taking a positive number away *)

Lemma leb_refl_nonneg f : nonneg f = true -> SFleb f f = true.
Proof. intros N. rewrite (leb_ordinal f f N N). apply Z.leb_refl. Qed.

Lemma leb_neg_pos o m e : SFleb (float_of_ord true o) (S754_finite false m e) = true.
Proof.
  unfold float_of_ord. destruct (o =? 0); [reflexivity|].
  match goal with |- context [if ?c then S754_finite _ _ _ else _] => destruct c end;
    reflexivity.
Qed.

(** Adding [-a] to [f], for [a] and [f] not negative, gives at most
    [f]. *)
Lemma add_opp_le a f :
  nonneg a = true -> nonneg f = true ->
  B64.is_nan (SFadd 53 1024 (SFopp a) f) = false ->
  SFleb (SFadd 53 1024 (SFopp a) f) f = true.
Proof.
  intros Na Nf Hn.
  destruct a as [sa|sa| |sa ma ea]; try discriminate Na.
  - destruct f as [sf|sf| |sf mf ef]; try discriminate Nf.
    + destruct sa, sf; reflexivity.
    + apply nonneg_inf in Nf. subst sf. reflexivity.
    + change (SFadd 53 1024 (SFopp (S754_zero sa)) (S754_finite sf mf ef))
        with (S754_finite sf mf ef).
      apply leb_refl_nonneg. exact Nf.
  - apply nonneg_inf in Na. subst sa.
    destruct f as [sf|sf| |sf mf ef]; try discriminate Nf; try reflexivity.
    apply nonneg_inf in Nf. subst sf. discriminate Hn.
  - apply nonneg_finite_bounded in Na. destruct Na as [-> Ba].
    destruct f as [sf|sf| |sf mf ef]; try discriminate Nf; try reflexivity.
    + apply nonneg_inf in Nf. subst sf. reflexivity.
    + pose proof Nf as Nf'.
      apply nonneg_finite_bounded in Nf. destruct Nf as [-> Bf].
      cbn [SFadd SFopp cond_Zopp negb].
      pose proof (shl_align_spec ma ea (Z.min ea ef)) as [_ Hx].
      pose proof (shl_align_spec mf ef (Z.min ea ef)) as [_ Hy].
      set (z := Z.min ea ef) in *.
      replace (Z.min ea z) with z in Hx by (unfold z; lia).
      replace (Z.min ef z) with z in Hy by (unfold z; lia).
      zstd. fold z. rewrite Hx, Hy.
      pose proof (pow2_pos (ea - z) ltac:(unfold z; lia)) as Pa.
      pose proof (pow2_pos (ef - z) ltac:(unfold z; lia)) as Pf.
      pose proof (bounded_spec _ _ Ba) as Sa. pose proof (bounded_spec _ _ Bf) as Sf.
      destruct (- (Z.pos ma * 2 ^ (ea - z)) + Z.pos mf * 2 ^ (ef - z)) as [|p|p] eqn:ED;
        cbn [binary_normalize].
      * reflexivity.
      * rewrite binary_round_ord.
        assert (Ho : 0 <= round_dy (Z.pos p) z) by (apply round_dy_nonneg; lia).
        rewrite leb_ordinal by (try apply nonneg_float_of_ord; assumption).
        apply Z.leb_le. rewrite ordinal_float_of_ord by exact Ho.
        assert (M : round_dy (Z.pos p) z <= round_dy (Z.pos mf) ef).
        { apply (round_dy_mono _ _ _ _ (-1074)); unfold emin, z; try lia.
          replace (ef - -1074) with ((ef - z) + (z - -1074)) by lia.
          rewrite Z.pow_add_r by (unfold z; lia).
          pose proof (pow2_pos (z - -1074) ltac:(unfold z; lia)).
          fold z. nia. }
        rewrite (round_dy_id mf ef Bf) in M. lia.
      * rewrite binary_round_ord. apply leb_neg_pos.
Qed.

(** X11. A negative speed gives less than the front term: for a speed
    [s] above zero, a distance and a density of zero or more, the
    result at speed [-s], when it is a number, is at most
    [r * (70/12 * 20/12) * d]. *)
Theorem X11_negative_speed_below_front s d r w :
  B64.valid s = true -> B64.valid d = true ->
  B64.ltb B64.zero s = true -> B64.leb B64.zero d = true -> 0 <= r ->
  simulate_wetness (SFopp s) d r = Ok w -> B64.is_nan w = false ->
  exists f, front_term d r = Ok f /\ B64.leb w f = true.
Proof.
  intros Vs Vd Ps Pd Hr Hw Nw.
  destruct (ltb_zero_pos s Vs Ps) as [NNs Os].
  pose proof (leb_zero_nonneg d Vd Pd) as NNd.
  pose proof (of_int_nonneg r Hr) as NNr.
  apply simulate_wetness_ok in Hw. destruct Hw as (_ & Hf & ->).
  exists (B64.mul (B64.mul (B64.of_Z r) front_area) d). split.
  { unfold front_term, int_mul. rewrite Hf. reflexivity. }
  unfold wetness_value in *.
  change B64.add with (SFadd 53 1024) in *. change B64.mul with (SFmul 53 1024) in *.
  change B64.div with (SFdiv 53 1024) in *. unfold B64.leb.
  rewrite div_opp_r, mul_opp_r in *.
  set (rf := B64.of_Z r) in *.
  pose proof (is_nan_false _ Nw) as Nw'.
  apply add_not_nan in Nw'. destruct Nw' as [HA HB].
  assert (HA' : SFmul 53 1024 (SFmul 53 1024 rf top_area) (SFdiv 53 1024 d s) <> S754_nan).
  { intros E. apply HA. rewrite E. reflexivity. }
  pose proof (mul_not_nan _ _ HA') as [HRt Ht].
  pose proof (mul_not_nan _ _ HB) as [HRf _].
  destruct (div_nonneg d s NNd NNs Os) as [?|Nt]; [contradiction|].
  destruct (mul_nonneg rf top_area NNr nonneg_top_area) as [?|NRt]; [contradiction|].
  destruct (mul_nonneg rf front_area NNr nonneg_front_area) as [?|NRf]; [contradiction|].
  destruct (mul_nonneg _ _ NRt Nt) as [?|NA]; [contradiction|].
  destruct (mul_nonneg _ _ NRf NNd) as [?|NB]; [contradiction|].
  apply add_opp_le; assumption.
Qed.

Lemma X11_negative_speed_below_front_witness :
  let w := S754_finite false 8649586915555553 (-31) in
  simulate_wetness (SFopp (B64.of_Z 1)) default_distance default_density = Ok w /\
  exists f, front_term default_distance default_density = Ok f /\ B64.leb w f = true.
Proof.
  cbv zeta. split; [vm_compute; reflexivity|].
  apply (X11_negative_speed_below_front (B64.of_Z 1) default_distance default_density);
    solve [vm_compute; reflexivity | vm_compute; discriminate].
Defined.

(** ** The driver on any list of speeds *)

(** At the driver's own list they are its [wetness_values] and the
    integers it prints. *)
Lemma wetness_values_for_speeds : wetness_values_for speeds = wetness_values.
Proof. reflexivity. Qed.

Lemma printed_wetness_for_speeds : printed_wetness_for speeds = printed_wetness.
Proof. reflexivity. Qed.

Lemma default_density_float : float_of_int default_density = Ok (B64.of_Z default_density).
Proof. reflexivity. Qed.

(** X12. The comprehension of the driver raises [ZeroDivisionError]
    exactly when one of the speeds is zero; otherwise it gives one
    wetness for each speed, in order. *)
Theorem X12_comprehension_result l :
  wetness_values_for l =
  if existsb B64.is_zero l then Raise ZeroDivisionError
  else Ok (map (fun s => wetness_value s default_distance (B64.of_Z default_density)) l).
Proof.
  unfold wetness_values_for. induction l as [|a l IH]; [reflexivity|].
  cbn [mapM existsb map]. rewrite simulate_wetness_eq, default_density_float.
  destruct (B64.is_zero a); [reflexivity|]. cbn [bind orb].
  rewrite IH. destruct (existsb B64.is_zero l); reflexivity.
Qed.

Lemma printed_cons a l zs :
  printed_wetness_for (a :: l) = Ok zs ->
  exists w z zs',
    simulate_wetness a default_distance default_density = Ok w /\
    int_of_float w = Ok z /\ printed_wetness_for l = Ok zs' /\ zs = z :: zs'.
Proof.
  unfold printed_wetness_for, wetness_values_for. cbn [mapM].
  destruct (simulate_wetness a default_distance default_density) as [w|e] eqn:Ew;
    [|discriminate].
  cbn [bind].
  destruct (mapM _ l) as [ws|e] eqn:Ews; [|discriminate]. cbn [bind mapM].
  destruct (int_of_float w) as [z|e] eqn:Ez; [|discriminate]. cbn [bind].
  destruct (mapM int_of_float ws) as [zs'|e] eqn:Ezs; [|discriminate]. cbn [bind].
  intros H. injection H as <-. exists w, z, zs'. auto.
Qed.

Lemma int_shift m e c :
  c <= e -> c <= 0 ->
  match e with
  | Z.neg k => Z.pos m / 2 ^ Z.pos k
  | _ => Z.pos m * 2 ^ e
  end = Z.pos m * 2 ^ (e - c) / 2 ^ (- c).
Proof.
  intros He Hc.
  pose proof (pow2_pos (- c) ltac:(lia)) as Pc.
  destruct e as [|k|k].
  - rewrite Z.sub_0_l. change (2 ^ 0) with 1. rewrite Z.mul_1_r, Z.div_mul by lia. reflexivity.
  - replace (Z.pos k - c) with (Z.pos k + - c) by lia.
    rewrite Z.pow_add_r, Z.mul_assoc, Z.div_mul by lia. reflexivity.
  - pose proof (pow2_pos (Z.neg k - c) ltac:(lia)) as Pk.
    replace (- c) with (Z.pos k + (Z.neg k - c)) by lia.
    rewrite Z.pow_add_r by lia.
    rewrite Z.div_mul_cancel_r by lia. reflexivity.
Qed.

(** [int] keeps the order of floats that are not negative. *)
Lemma int_of_float_mono x y zx zy :
  nonneg x = true -> nonneg y = true -> ordinal x <= ordinal y ->
  int_of_float x = Ok zx -> int_of_float y = Ok zy -> zx <= zy.
Proof.
  intros Nx Ny Hle Hx Hy.
  destruct x as [sx|sx| |sx mx ex]; try discriminate Hx;
    destruct y as [sy|sy| |sy my ey]; try discriminate Hy.
  - injection Hx as <-. injection Hy as <-. lia.
  - apply nonneg_finite_bounded in Ny. destruct Ny as [-> By0].
    injection Hx as <-. cbn [int_of_float] in Hy. injection Hy as <-.
    rewrite (int_shift my ey (Z.min ey 0)) by lia.
    apply Z.div_pos; [|apply pow2_pos; lia].
    pose proof (pow2_pos (ey - Z.min ey 0) ltac:(lia)). lia.
  - pose proof (nonneg_finite_pos _ _ _ Nx). cbn [ordinal] in Hle. cbn [ordinal] in H. lia.
  - apply nonneg_finite_bounded in Nx, Ny. destruct Nx as [-> Bx]. destruct Ny as [-> By0].
    cbn [int_of_float] in Hx, Hy. injection Hx as <-. injection Hy as <-.
    set (c := Z.min (Z.min ex ey) 0).
    rewrite (int_shift mx ex c), (int_shift my ey c) by (unfold c; lia).
    apply Z.div_le_mono; [apply pow2_pos; unfold c; lia|].
    apply ordinal_le_value; try assumption; unfold c; lia.
Qed.

(** Two runs at speeds [a <= b]: the faster one is not wetter. *)
Lemma antitone_ord a b d rf :
  nonneg a = true -> 0 < ordinal a -> nonneg b = true -> ordinal a <= ordinal b ->
  nonneg d = true -> nonneg rf = true ->
  wetness_value a d rf <> S754_nan -> wetness_value b d rf <> S754_nan ->
  nonneg (wetness_value a d rf) = true /\ nonneg (wetness_value b d rf) = true /\
  ordinal (wetness_value b d rf) <= ordinal (wetness_value a d rf).
Proof.
  intros NNa Oa NNb Oab NNd NNr Na Nb.
  destruct (wetness_parts a d _ NNa Oa NNd NNr Na) as (Ta & Rt & Aa & Bf).
  destruct (wetness_parts b d _ NNb ltac:(lia) NNd NNr Nb) as (Tb & _ & Ab & _).
  unfold wetness_value in *.
  change B64.add with (SFadd 53 1024) in *. change B64.mul with (SFmul 53 1024) in *.
  change B64.div with (SFdiv 53 1024) in *.
  assert (Ht : ordinal (SFdiv 53 1024 d b) <= ordinal (SFdiv 53 1024 d a)).
  { apply div_anti; try assumption; try lia; apply nonneg_not_nan; assumption. }
  assert (HA : ordinal (SFmul 53 1024 (SFmul 53 1024 rf top_area) (SFdiv 53 1024 d b)) <=
               ordinal (SFmul 53 1024 (SFmul 53 1024 rf top_area) (SFdiv 53 1024 d a))).
  { apply mul_mono_r; try assumption; apply nonneg_not_nan; assumption. }
  split; [apply add_nonneg; assumption|]. split; [apply add_nonneg; assumption|].
  apply add_mono_l; assumption.
Qed.

Lemma int_not_nan w z : int_of_float w = Ok z -> w <> S754_nan.
Proof. intros H ->. discriminate H. Qed.

(** X13. The print loop on any increasing list of positive speeds: when
    it prints, it prints one integer for each speed, and the integers
    never increase down the list. *)
Theorem X13_driver_prints_non_increasing l zs :
  forallb B64.valid l = true ->
  match l with [] => true | a :: _ => B64.ltb B64.zero a end = true ->
  increasing l = true ->
  printed_wetness_for l = Ok zs ->
  length zs = length l /\ non_increasing zs = true.
Proof.
  revert zs. induction l as [|a l IH]; intros zs Hv Hp Hi Hz.
  { injection Hz as <-. split; reflexivity. }
  destruct (printed_cons a l zs Hz) as (wa & za & zs' & Ha & Ia & Hl & ->).
  cbn [forallb] in Hv. apply andb_true_iff in Hv. destruct Hv as [Va Vl].
  destruct (ltb_zero_pos a Va Hp) as [NNa Oa].
  destruct l as [|b l'].
  { injection Hl as <-. split; reflexivity. }
  cbn [increasing] in Hi. apply andb_true_iff in Hi. destruct Hi as [Lab Hi].
  pose proof Vl as Vl'. cbn [forallb] in Vl'. apply andb_true_iff in Vl'.
  destruct Vl' as [Vb _].
  destruct (ltb_pos_nonneg a b NNa Oa Vb Lab) as [NNb Oab].
  assert (Pb : B64.ltb B64.zero b = true).
  { unfold B64.ltb. rewrite (ltb_ordinal B64.zero b eq_refl NNb). apply Z.ltb_lt.
    cbn [ordinal B64.zero]. lia. }
  destruct (IH zs' Vl Pb Hi Hl) as [Hlen Hni].
  destruct (printed_cons b l' zs' Hl) as (wb & zb & zs'' & Hb & Ib & _ & ->).
  split; [cbn [length] in *; lia|].
  cbn [non_increasing]. apply andb_true_iff. split; [|exact Hni].
  apply Z.leb_le.
  apply simulate_wetness_ok in Ha, Hb.
  destruct Ha as (_ & _ & Ea). destruct Hb as (_ & _ & Eb).
  pose proof (int_not_nan _ _ Ia) as Na. pose proof (int_not_nan _ _ Ib) as Nb.
  rewrite Ea in Na. rewrite Eb in Nb.
  destruct (antitone_ord a b default_distance (B64.of_Z default_density)
              NNa Oa NNb ltac:(lia) eq_refl eq_refl Na Nb) as (Nwa & Nwb & Hle).
  rewrite <- Ea in Nwa, Hle. rewrite <- Eb in Nwb, Hle.
  exact (int_of_float_mono wb wa zb za Nwb Nwa Hle Ib Ia).
Qed.

Lemma X13_driver_prints_non_increasing_witness :
  let zs := [5113636; 5012626; 4955808; 4924242; 4888888] in
  printed_wetness_for speeds = Ok zs /\
  length zs = length speeds /\ non_increasing zs = true.
Proof.
  cbv zeta. split; [vm_compute; reflexivity|].
  apply (X13_driver_prints_non_increasing speeds); vm_compute; reflexivity.
Defined.

(** ** An endless walk *)

(** X14. An infinite distance gives infinite wetness: for a finite
    speed above zero and a density from 1 to [10^307],
    [simulate_wetness(s, inf, r)] is [inf]. *)
Theorem X14_infinite_distance s r :
  B64.valid s = true -> B64.ltb B64.zero s = true -> B64.is_finite s = true ->
  1 <= r <= 10 ^ 307 ->
  simulate_wetness s (S754_infinity false) r = Ok (S754_infinity false).
Proof.
  intros Vs Ps Fs Hr.
  destruct (ltb_zero_pos s Vs Ps) as [NNs Os].
  destruct (density_area_posfin r Hr) as [PP PQ].
  rewrite simulate_wetness_eq, float_of_int_spec.
  assert (Z0 : B64.is_zero s = false).
  { destruct s; try reflexivity. cbn [ordinal] in Os. lia. }
  rewrite Z0.
  assert (T : (float_overflow_threshold <=? Z.abs r) = false).
  { apply Z.leb_gt. unfold float_overflow_threshold. lia. }
  rewrite T. f_equal. unfold wetness_value.
  change B64.add with (SFadd 53 1024). change B64.mul with (SFmul 53 1024).
  change B64.div with (SFdiv 53 1024).
  destruct (posfin_shape _ PP) as (mp & ep & -> & _).
  destruct (posfin_shape _ PQ) as (mq & eq & -> & _).
  destruct s as [ss|ss| |ss ms es]; try discriminate Fs; try discriminate Z0.
  apply nonneg_finite_bounded in NNs. destruct NNs as [-> _]. reflexivity.
Qed.

Lemma X14_infinite_distance_witness :
  simulate_wetness (B64.decimal 33 10) (S754_infinity false) default_density =
  Ok (S754_infinity false).
Proof.
  apply (X14_infinite_distance (B64.decimal 33 10) default_density);
    try solve [vm_compute; reflexivity].
  unfold default_density. lia.
Defined.

(** ** What the driver prints *)

(** X15. With the default distance and density no positive speed gets
    below the front term: whenever [int(simulate_wetness(s))] is
    defined for a speed above zero, it is at least 4861111. *)
Theorem X15_default_floor s w z :
  B64.valid s = true -> B64.ltb B64.zero s = true ->
  simulate_wetness s default_distance default_density = Ok w ->
  int_of_float w = Ok z ->
  4861111 <= z.
Proof.
  intros Vs Ps Hw Hz.
  destruct (ltb_zero_pos s Vs Ps) as [NNs Os].
  apply simulate_wetness_ok in Hw. destruct Hw as (_ & _ & Ew).
  pose proof (int_not_nan _ _ Hz) as Nw. rewrite Ew in Nw.
  assert (NNd : nonneg default_distance = true) by reflexivity.
  assert (NNr : nonneg (B64.of_Z default_density) = true) by reflexivity.
  destruct (wetness_parts s default_distance _ NNs Os NNd NNr Nw) as (_ & _ & NA & NB).
  set (f := B64.mul (B64.mul (B64.of_Z default_density) front_area) default_distance) in *.
  assert (If : int_of_float f = Ok 4861111) by (vm_compute; reflexivity).
  assert (Hle : ordinal f <= ordinal w).
  { rewrite Ew. unfold wetness_value. fold f.
    change B64.add with (SFadd 53 1024) in *.
    rewrite <- (add_zero_l _ NB) at 1.
    apply add_mono_l; try assumption; try reflexivity.
    pose proof (nonneg_ordinal_bounds _ NA). change (ordinal (S754_zero false)) with 0. lia. }
  assert (NNw : nonneg w = true).
  { rewrite Ew. unfold wetness_value. apply add_nonneg; assumption. }
  exact (int_of_float_mono f w 4861111 z NB NNw Hle If Hz).
Qed.

Lemma X15_default_floor_witness :
  let w := S754_finite false 5490725236363635 (-30) in
  simulate_wetness (B64.decimal 33 10) default_distance default_density = Ok w /\
  int_of_float w = Ok 5113636 /\ 4861111 <= 5113636.
Proof.
  cbv zeta. split; [vm_compute; reflexivity|]. split; [vm_compute; reflexivity|].
  apply (X15_default_floor (B64.decimal 33 10) (S754_finite false 5490725236363635 (-30)));
    vm_compute; reflexivity.
Defined.

Lemma trunc_pos (k x y : Q) :
  (y == x)%Q -> (0 <= k)%Q -> (k <= x)%Q -> (x < k + 1)%Q ->
  (Qabs k <= Qabs y /\ Qabs (y - k) < 1)%Q.
Proof.
  intros E H0 L U. rewrite E.
  assert (Ak : (Qabs k == k)%Q) by (apply Qabs_pos; lra).
  assert (Ax : (Qabs x == x)%Q) by (apply Qabs_pos; lra).
  assert (Ad : (Qabs (x - k) < 1)%Q) by (apply Qabs_Qlt_condition; split; lra).
  rewrite Ak, Ax. auto.
Qed.

Lemma trunc_neg (k x y : Q) :
  (y == - x)%Q -> (0 <= k)%Q -> (k <= x)%Q -> (x < k + 1)%Q ->
  (Qabs (- k) <= Qabs y /\ Qabs (y - - k) < 1)%Q.
Proof.
  intros E H0 L U. rewrite E.
  assert (Ak : (Qabs k == k)%Q) by (apply Qabs_pos; lra).
  assert (Ax : (Qabs x == x)%Q) by (apply Qabs_pos; lra).
  assert (Ad : (Qabs (- x - - k) < 1)%Q) by (apply Qabs_Qlt_condition; split; lra).
  rewrite !Qabs_opp, Ak, Ax. auto.
Qed.

(** X16. [int(wetness)] cuts the fraction off: the integer printed for
    a finite float is toward zero from it and less than one away. *)
Theorem X16_int_of_float_truncates w z :
  B64.is_finite w = true -> int_of_float w = Ok z ->
  (Qabs (inject_Z z) <= Qabs (F2Q w) /\ Qabs (F2Q w - inject_Z z) < 1)%Q.
Proof.
  intros Fw Hz. destruct w as [s|s| |s m e]; try discriminate Fw.
  { injection Hz as <-. cbn [F2Q]. split; [apply Qle_refl|reflexivity]. }
  cbn [int_of_float] in Hz. injection Hz as <-.
  set (c := Z.min e 0).
  rewrite (int_shift m e c) by (unfold c; lia).
  pose proof (pow2_pos (e - c) ltac:(unfold c; lia)) as Pe.
  pose proof (pow2_pos (- c) ltac:(unfold c; lia)) as Pc.
  set (N := Z.pos m * 2 ^ (e - c)) in *. set (D := 2 ^ (- c)) in *.
  assert (HN : 0 <= N) by (unfold N; lia).
  pose proof (Z.mul_div_le N D Pc) as Lo.
  pose proof (Z.mul_succ_div_gt N D Pc) as Hi.
  assert (Hq : 0 <= N / D) by (apply Z.div_pos; lia).
  assert (V : (inject_Z (Z.pos m) * pow2Q e * inject_Z D == inject_Z N)%Q).
  { unfold N, D. rewrite inject_Z_mult, <- !pow2Q_Z by (unfold c; lia).
    rewrite <- Qmult_assoc, <- !pow2Q_add.
    replace (e + - c) with (e - c) by lia. reflexivity. }
  assert (PD : (0 < inject_Z D)%Q) by (rewrite Zlt_Qlt in Pc; exact Pc).
  rewrite Zle_Qle, inject_Z_mult in Lo. rewrite Zlt_Qlt, inject_Z_mult in Hi.
  unfold Z.succ in Hi. rewrite inject_Z_plus in Hi. change (inject_Z 1) with 1%Q in Hi.
  rewrite Zle_Qle in Hq. change (inject_Z 0) with 0%Q in Hq.
  rewrite <- V in Lo, Hi.
  set (x := (inject_Z (Z.pos m) * pow2Q e)%Q) in *.
  set (k := inject_Z (N / D)) in *. set (dq := inject_Z D) in *.
  assert (L : (k <= x)%Q).
  { apply (Qmult_le_r _ _ dq PD). lra. }
  assert (U : (x < k + 1)%Q).
  { apply (Qmult_lt_r _ _ dq PD). lra. }
  destruct s; cbn [F2Q].
  - change (inject_Z (- (N / D))) with (- k)%Q.
    apply (trunc_neg k x); try assumption. unfold x. ring.
  - apply (trunc_pos k x); try assumption. unfold x. ring.
Qed.

Lemma X16_int_of_float_truncates_witness :
  let w := S754_finite false 5490725236363635 (-30) in
  (Qabs (inject_Z 5113636) <= Qabs (F2Q w) /\ Qabs (F2Q w - inject_Z 5113636) < 1)%Q.
Proof.
  cbv zeta.
  apply (X16_int_of_float_truncates (S754_finite false 5490725236363635 (-30)) 5113636);
    vm_compute; reflexivity.
Defined.

(** ** The rain from above as a floor *)

Lemma add_zero_r x : nonneg x = true -> ordinal (SFadd 53 1024 x (S754_zero false)) = ordinal x.
Proof. destruct x as [s|s| |s m e]; try discriminate; try reflexivity. destruct s; reflexivity. Qed.

(** X17. The wetness is never below the rain from above: for a speed
    above zero and a distance and a density of zero or more, the
    result, when it is a number, is at least
    [r * (20/12 * 12/12) * (d / s)]. *)
Theorem X17_above_lower_bound s d r w :
  B64.valid s = true -> B64.valid d = true ->
  B64.ltb B64.zero s = true -> B64.leb B64.zero d = true -> 0 <= r ->
  simulate_wetness s d r = Ok w -> B64.is_nan w = false ->
  exists a, above_term s d r = Ok a /\ B64.leb a w = true.
Proof.
  intros Vs Vd Ps Pd Hr Hw Nw.
  destruct (ltb_zero_pos s Vs Ps) as [NNs Os].
  pose proof (leb_zero_nonneg d Vd Pd) as NNd.
  pose proof (of_int_nonneg r Hr) as NNr.
  apply simulate_wetness_ok in Hw. destruct Hw as (Zs & Hf & ->).
  apply is_nan_false in Nw.
  destruct (wetness_parts s d _ NNs Os NNd NNr Nw) as (_ & _ & NA & NB).
  exists (B64.mul (B64.mul (B64.of_Z r) top_area) (B64.div d s)). split.
  - unfold above_term, int_mul, truediv. rewrite Hf, Zs. reflexivity.
  - unfold wetness_value, B64.leb.
    change B64.add with (SFadd 53 1024) in *. change B64.mul with (SFmul 53 1024) in *.
    change B64.div with (SFdiv 53 1024) in *.
    rewrite leb_ordinal by (try apply add_nonneg; assumption).
    apply Z.leb_le. rewrite <- (add_zero_r _ NA) at 1.
    apply add_mono_r; try assumption; try reflexivity.
    pose proof (nonneg_ordinal_bounds _ NB). change (ordinal (S754_zero false)) with 0. lia.
Qed.

Lemma X17_above_lower_bound_witness :
  let w := S754_finite false 5490725236363635 (-30) in
  simulate_wetness (B64.decimal 33 10) default_distance default_density = Ok w /\
  exists a, above_term (B64.decimal 33 10) default_distance default_density = Ok a /\
            B64.leb a w = true.
Proof.
  cbv zeta. split; [vm_compute; reflexivity|].
  apply (X17_above_lower_bound (B64.decimal 33 10) default_distance default_density);
    solve [vm_compute; reflexivity | vm_compute; discriminate].
Defined.
